(** * openclaw-mini: skill discovery, command synthesis and tool policy

    A shallow embedding of the capability-resolution layer
    (tool-policy, skill-primitives.ts, skills.ts) and of the built-in file,
    exec and grep tools (tools/builtin.ts), with the properties the
    specification states about them and further properties of the code.

    Strings are JavaScript strings: finite sequences of UTF-16 code units.
    Regular expressions of the source that have a fixed shape are embedded
    as the list functions they compute; the one regular expression that is
    built at run time (in [compilePattern]) is embedded through its source
    text, a parser and a matcher. *)

From Stdlib Require Import NArith ZArith Ascii String Lia.
From stdpp Require Import base list gmap strings.

Set Default Proof Using "Type".

(** ** JavaScript strings *)

Module JS.

(** A string is the list of its code units. *)
Definition jsstring := list N.

(** An ASCII literal of the source as a [jsstring]. *)
Definition str (s : string) : jsstring :=
  map N_of_ascii (list_ascii_of_string s).

(** [s === t] *)
Definition str_eqb (s t : jsstring) : bool := bool_decide (s = t).

(** WhiteSpace and LineTerminator code units: what [trim] strips and what
    the class [\s] matches. *)
Definition is_ws (c : N) : bool :=
  ((9 <=? c) && (c <=? 13) || (c =? 32) || (c =? 160) || (c =? 5760)
   || (8192 <=? c) && (c <=? 8202)
   || (c =? 8232) || (c =? 8233) || (c =? 8239) || (c =? 8287)
   || (c =? 12288) || (c =? 65279))%N.

(** LineTerminator code units: what [.] does not match. *)
Definition is_line_terminator (c : N) : bool :=
  ((c =? 10) || (c =? 13) || (c =? 8232) || (c =? 8233))%N.

Fixpoint drop_while (p : N → bool) (s : jsstring) : jsstring :=
  match s with
  | [] => []
  | c :: t => if p c then drop_while p t else s
  end.

Fixpoint take_while (p : N → bool) (s : jsstring) : jsstring :=
  match s with
  | [] => []
  | c :: t => if p c then c :: take_while p t else []
  end.

Definition trimStart (s : jsstring) : jsstring := drop_while is_ws s.
Definition trimEnd (s : jsstring) : jsstring := rev (drop_while is_ws (rev s)).

(** [s.trim()] *)
Definition trim (s : jsstring) : jsstring := trimEnd (trimStart s).

(** [s.slice(0, n)] for [0 <= n]. *)
Definition slice0 (n : nat) (s : jsstring) : jsstring := take n s.

(** [s.includes(c)] for a one-unit needle. *)
Definition includes (c : N) (s : jsstring) : bool := existsb (N.eqb c) s.

(** [s.startsWith(t)] *)
Fixpoint startsWith (t s : jsstring) : bool :=
  match t, s with
  | [], _ => true
  | a :: t', b :: s' => (a =? b)%N && startsWith t' s'
  | _ :: _, [] => false
  end.

Definition endsWith (t s : jsstring) : bool := startsWith (rev t) (rev s).

(** [parts.join(sep)] *)
Fixpoint join (sep : jsstring) (parts : list jsstring) : jsstring :=
  match parts with
  | [] => []
  | [p] => p
  | p :: rest => p ++ sep ++ join sep rest
  end.

(** [s.replaceAll(pat, rep)] for a non-empty [pat]: occurrences are found
    left to right and do not overlap. [skip] counts the units of an
    occurrence that is being skipped. *)
Fixpoint replaceAll_from (pat rep : jsstring) (skip : nat) (s : jsstring)
  : jsstring :=
  match s with
  | [] => []
  | c :: t =>
      match skip with
      | S k => replaceAll_from pat rep k t
      | O =>
          if startsWith pat s
          then rep ++ replaceAll_from pat rep (length pat - 1) t
          else c :: replaceAll_from pat rep 0 t
      end
  end.

Definition replaceAll (pat rep s : jsstring) : jsstring :=
  replaceAll_from pat rep 0 s.

(** [s.replace(/[class]+/g, rep)]: every maximal run of units of the class
    becomes one [rep]. [in_run] tells that the previous unit was in the
    class. *)
Fixpoint replace_runs_from (p : N → bool) (rep : jsstring) (in_run : bool)
    (s : jsstring) : jsstring :=
  match s with
  | [] => []
  | c :: t =>
      if p c
      then (if in_run then [] else rep) ++ replace_runs_from p rep true t
      else c :: replace_runs_from p rep false t
  end.

Definition replace_runs (p : N → bool) (rep s : jsstring) : jsstring :=
  replace_runs_from p rep false s.

(** Decimal text of a non-negative integer, as template literals print it. *)
Fixpoint decimal_from (fuel : nat) (n : N) (acc : jsstring) : jsstring :=
  let acc' := (48 + n mod 10)%N :: acc in
  match fuel with
  | O => acc'
  | S f => if (n <? 10)%N then acc' else decimal_from f (n / 10)%N acc'
  end.

Definition decimal (n : N) : jsstring :=
  decimal_from (N.to_nat (N.log2 n)) n [].

(** The number a decimal text stands for. *)
Definition undecimal (s : jsstring) : N :=
  fold_left (λ acc c, 10 * acc + (c - 48))%N s 0%N.

(** *** Case mapping

    [String.prototype.toLowerCase] follows the Unicode case tables, which
    are not part of the repository. The development is parametric in it
    and uses three facts: on ASCII text it is the ASCII mapping, it is
    idempotent, and it leaves a string without surrounding white space
    without surrounding white space. *)

Definition is_ascii (s : jsstring) : bool := forallb (λ c, c <? 128)%N s.

Definition ascii_lower (c : N) : N :=
  if ((65 <=? c) && (c <=? 90))%N then (c + 32)%N else c.

Class CaseMapping := {
  toLowerCase : jsstring → jsstring;
  toLowerCase_ascii s : is_ascii s = true → toLowerCase s = map ascii_lower s;
  toLowerCase_idem s : toLowerCase (toLowerCase s) = toLowerCase s;
  toLowerCase_trimmed s : trim s = s → trim (toLowerCase s) = toLowerCase s;
}.

(** *** Regular expressions built at run time

    [new RegExp(source)] without flags, for the fragment of the pattern
    syntax that [compilePattern] can emit: an optional [^], then atoms (a
    pattern character, an identity escape of a syntax character, or [.]),
    each optionally followed by [*], then an optional [$]. A source outside
    the fragment is not parsed. *)

Inductive RAtom :=
  | AChar (c : N)   (* this code unit *)
  | ADot.           (* any code unit but a line terminator *)

Inductive RItem :=
  | IOne (a : RAtom)
  | IStar (a : RAtom).

Record RegExp := {
  re_bol : bool;
  re_items : list RItem;
  re_eol : bool;
}.

(** SyntaxCharacter: [^ $ \ . * + ? ( ) [ ] { } |] *)
Definition is_syntax_char (c : N) : bool :=
  ((c =? 94) || (c =? 36) || (c =? 92) || (c =? 46) || (c =? 42)
   || (c =? 43) || (c =? 63) || (c =? 40) || (c =? 41) || (c =? 91)
   || (c =? 93) || (c =? 123) || (c =? 125) || (c =? 124))%N.

Fixpoint parse_items (s : jsstring) : option (list RItem * bool) :=
  match s with
  | [] => Some ([], false)
  | c :: t =>
      if (c =? 36)%N then                       (* $ *)
        match t with [] => Some ([], true) | _ :: _ => None end
      else if (c =? 92)%N then                  (* \ and a syntax character *)
        match t with
        | [] => None
        | e :: t' =>
            if is_syntax_char e then
              match t' with
              | q :: t'' =>
                  if (q =? 42)%N
                  then '(r, eol) ← parse_items t''; Some (IStar (AChar e) :: r, eol)
                  else '(r, eol) ← parse_items t'; Some (IOne (AChar e) :: r, eol)
              | [] => Some ([IOne (AChar e)], false)
              end
            else None
        end
      else if is_syntax_char c && negb (c =? 46)%N then None
      else
        let a := if (c =? 46)%N then ADot else AChar c in
        match t with
        | q :: t' =>
            if (q =? 42)%N
            then '(r, eol) ← parse_items t'; Some (IStar a :: r, eol)
            else '(r, eol) ← parse_items t; Some (IOne a :: r, eol)
        | [] => Some ([IOne a], false)
        end
  end.

(** [new RegExp(source)] *)
Definition RegExp_new (source : jsstring) : option RegExp :=
  match source with
  | 94%N :: t => '(r, eol) ← parse_items t; Some (Build_RegExp true r eol)
  | _ => '(r, eol) ← parse_items source; Some (Build_RegExp false r eol)
  end.

Definition atom_matches (a : RAtom) (c : N) : bool :=
  match a with
  | AChar d => (c =? d)%N
  | ADot => negb (is_line_terminator c)
  end.

(** Does some prefix of [s] (all of [s] when [eol]) match the items? A
    starred atom may take any number of units: the search is over all of
    them, as backtracking does. *)
Fixpoint match_items (eol : bool) (items : list RItem) (s : jsstring) : bool :=
  match items with
  | [] => if eol then bool_decide (s = []) else true
  | IOne a :: r =>
      match s with
      | c :: s' => atom_matches a c && match_items eol r s'
      | [] => false
      end
  | IStar a :: r =>
      (fix star (s : jsstring) : bool :=
         match_items eol r s
         || match s with
            | c :: s' => atom_matches a c && star s'
            | [] => false
            end) s
  end.

Fixpoint match_anywhere (eol : bool) (items : list RItem) (s : jsstring) : bool :=
  match_items eol items s
  || match s with
     | _ :: s' => match_anywhere eol items s'
     | [] => false
     end.

(** [re.test(s)] *)
Definition RegExp_test (re : RegExp) (s : jsstring) : bool :=
  if re_bol re
  then match_items (re_eol re) (re_items re) s
  else match_anywhere (re_eol re) (re_items re) s.

End JS.

Import JS.

(** ** Tool policy (tool-policy) *)

Module ToolPolicy.

Record ToolPolicy := {
  allow : option (list jsstring);
  deny : option (list jsstring);
}.

(** The regex variant holds the source text given to [new RegExp]; the
    object is built from it when it is tested ([regex_test]). *)
Inductive CompiledPattern :=
  | All
  | Exact (value : jsstring)
  | Regex (source : jsstring).

(** The class [[.*+?^${}()|[\]\\]] of the escaping step. *)
Definition is_regex_special (c : N) : bool :=
  ((c =? 46) || (c =? 42) || (c =? 43) || (c =? 63) || (c =? 94)
   || (c =? 36) || (c =? 123) || (c =? 125) || (c =? 40) || (c =? 41)
   || (c =? 124) || (c =? 91) || (c =? 93) || (c =? 92))%N.

(** [s.replace(/[.*+?^${}()|[\]\\]/g, "\\$&")] *)
Definition escapeRegex (s : jsstring) : jsstring :=
  flat_map (λ c, if is_regex_special c then [92%N; c] else [c]) s.

(** [pattern.value.test(name)]; a source that is no regular expression
    tests nothing. [compilePattern] never builds one
    ([compilePattern_regex_parses]). *)
Definition regex_test (source name : jsstring) : bool :=
  match RegExp_new source with
  | Some re => RegExp_test re name
  | None => false
  end.

Section WithCaseMapping.
Context `{CaseMapping}.

Definition normalizeToolName (name : jsstring) : jsstring :=
  toLowerCase (trim name).

Definition compilePattern (pattern : jsstring) : CompiledPattern :=
  let normalized := normalizeToolName pattern in
  if bool_decide (normalized = []) then Exact []
  else if bool_decide (normalized = str "*") then All
  else if negb (includes 42%N normalized) then Exact normalized
  else
    let escaped := escapeRegex normalized in
    let regex := str "^" ++ replaceAll (str "\*") (str ".*") escaped ++ str "$" in
    Regex regex.

Definition compilePatterns (patterns : list jsstring) : list CompiledPattern :=
  map compilePattern patterns.

(** One turn of the loop of [matchesAny]. *)
Definition matchesOne (name : jsstring) (pattern : CompiledPattern) : bool :=
  match pattern with
  | All => true
  | Exact value => bool_decide (name = value)
  | Regex source => regex_test source name
  end.

Fixpoint matchesAny (name : jsstring) (patterns : list CompiledPattern) : bool :=
  match patterns with
  | [] => false
  | pattern :: rest =>
      if matchesOne name pattern then true else matchesAny name rest
  end.

Definition isToolAllowed (name : jsstring) (policy : option ToolPolicy) : bool :=
  match policy with
  | None => true
  | Some policy =>
      let normalized := normalizeToolName name in
      let deny := compilePatterns (default [] (deny policy)) in
      let allow := compilePatterns (default [] (allow policy)) in
      if matchesAny normalized deny then false
      else if Nat.eqb (length allow) 0 then true
      else matchesAny normalized allow
  end.

End WithCaseMapping.

(** The wildcard language of a normalized pattern, as the specification
    words it: [*] stands for any sequence of units that are not line
    terminators, every other unit stands for itself. *)
Inductive wildcard_match : jsstring → jsstring → Prop :=
  | wm_nil : wildcard_match [] []
  | wm_unit c p s :
      c ≠ 42%N → wildcard_match p s → wildcard_match (c :: p) (c :: s)
  | wm_star p s1 s2 :
      Forall (λ c, is_line_terminator c = false) s1 →
      wildcard_match p s2 → wildcard_match (42%N :: p) (s1 ++ s2).

(** What a unit of a normalized wildcard pattern is expected to compile
    to: the wildcard to an any-sequence token, anything else to itself. *)
Definition wildcard_item (c : N) : RItem :=
  if (c =? 42)%N then IStar ADot else IOne (AChar c).

Definition wildcard_source (c : N) : jsstring :=
  if (c =? 42)%N then str ".*"
  else if is_regex_special c then [92%N; c] else [c].

Definition starts_with_star (s : jsstring) : bool :=
  match s with
  | c :: _ => (c =? 42)%N
  | [] => false
  end.

End ToolPolicy.

(** ** Skill primitives (skill-primitives.ts) *)

(** *** The environment

    An [await] either returns or throws; a [try] with a [catch] that
    returns is a match on the outcome. *)
Inductive outcome (A : Type) :=
  | Returns (a : A)
  | Throws.
Arguments Returns {A} a.
Arguments Throws {A}.

Definition bind {A B : Type} (m : outcome A) (k : A → outcome B) : outcome B :=
  match m with
  | Returns a => k a
  | Throws => Throws
  end.

Notation "x ←' m ; k" := (bind m (λ x, k))
  (at level 100, m at next level, right associativity, only parsing).

(** What [fs.readdir(dir, {withFileTypes: true})] finds. A directory is
    listed or the listing throws; an entry of a listing has a name and is
    itself a directory or not. A path that is no directory (absent, a file)
    cannot be listed. *)
#[local] Unset Elimination Schemes.
Inductive DirNode :=
  | NotDir
  | Dir (listing : outcome (list (jsstring * DirNode))).
#[local] Set Elimination Schemes.

Definition isDirectory (n : DirNode) : bool :=
  match n with
  | Dir _ => true
  | NotDir => false
  end.

Definition readdir (n : DirNode) : outcome (list (jsstring * DirNode)) :=
  match n with
  | Dir listing => listing
  | NotDir => Throws
  end.

(** The file system: the directory tree found at a path, and the outcome of
    [fs.readFile(path, "utf-8")]. *)
Record FileSystem := {
  dirAt : jsstring → DirNode;
  readFile : jsstring → outcome jsstring;
}.

(** [node:path]: platform code outside the repository; nothing is assumed
    of it. *)
Class PathModule := {
  path_join : jsstring → jsstring → jsstring;
  path_basename : jsstring → jsstring;
  path_basename_ext : jsstring → jsstring → jsstring;
  path_resolve : jsstring → jsstring;
}.

(** *** Fixed regular expressions of the skill files *)

Module Syntax.

Definition is_alpha (c : N) : bool :=
  ((97 <=? c) && (c <=? 122) || (65 <=? c) && (c <=? 90))%N.

Definition is_digit (c : N) : bool := ((48 <=? c) && (c <=? 57))%N.

(** [\w] *)
Definition is_word (c : N) : bool := is_alpha c || is_digit c || (c =? 95)%N.

(** [[\w-]] *)
Definition is_key_char (c : N) : bool := is_word c || (c =? 45)%N.

(** The class of the two quote units, double and single. *)
Definition is_quote (c : N) : bool := ((c =? 34) || (c =? 39))%N.

(** The shortest text before a closing [\r?\n---]. *)
Fixpoint before_close (s : jsstring) : option jsstring :=
  if startsWith [10%N; 45%N; 45%N; 45%N] s
     || startsWith [13%N; 10%N; 45%N; 45%N; 45%N] s then Some []
  else match s with
       | [] => None
       | c :: t => b ← before_close t; Some (c :: b)
       end.

(** Group 1 of [content.match(/^---\r?\n([\s\S]*?)\r?\n---/)]. *)
Definition frontmatter_block (content : jsstring) : option jsstring :=
  match content with
  | 45%N :: 45%N :: 45%N :: 10%N :: rest => before_close rest
  | 45%N :: 45%N :: 45%N :: 13%N :: 10%N :: rest => before_close rest
  | _ => None
  end.

(** [s.split("\n")] *)
Fixpoint split_lines (s : jsstring) : list jsstring :=
  match s with
  | [] => [[]]
  | c :: t =>
      if (c =? 10)%N then [] :: split_lines t
      else match split_lines t with
           | l :: ls => (c :: l) :: ls
           | [] => [[c]]
           end
  end.

(** Group 2 of [/:\s*(.+)$/] on the text after the colon: [\s*] gives back
    one unit when it would leave [.+] nothing; [.] takes no line
    terminator. *)
Definition line_value (rest : jsstring) : option jsstring :=
  match rest with
  | [] => None
  | _ :: _ =>
      let spaces := length (take_while is_ws rest) in
      let value := drop (Nat.min spaces (length rest - 1)) rest in
      if forallb (λ c, negb (is_line_terminator c)) value
      then Some value else None
  end.

(** Groups 1 and 2 of the key-value match of a line: a letter and then
    word units or hyphens up to a colon, then the value as [line_value]
    finds it. *)
Definition frontmatter_line (line : jsstring) : option (jsstring * jsstring) :=
  match line with
  | [] => None
  | c :: t =>
      if is_alpha c then
        match drop_while is_key_char t with
        | 58%N :: rest =>
            value ← line_value rest;
            Some (c :: take_while is_key_char t, value)
        | _ => None
        end
      else None
  end.

(** The replacement of [kv[2]]: one leading quote unit and one trailing
    quote unit, if there, are removed. *)
Definition strip_quotes (value : jsstring) : jsstring :=
  let v :=
    match value with
    | c :: t => if is_quote c then t else value
    | [] => []
    end in
  match rev v with
  | c :: t => if is_quote c then rev t else v
  | [] => []
  end.

End Syntax.

(** [a || b] on strings: the empty string and [undefined] are falsy. *)
Definition or_else (a : option jsstring) (b : jsstring) : jsstring :=
  match a with
  | Some (c :: t) => c :: t
  | _ => b
  end.

Module Skill.
Record t := {
  name : jsstring;
  description : jsstring;
  filePath : jsstring;
  baseDir : jsstring;
  source : jsstring;
  disableModelInvocation : bool;
}.
End Skill.

Module SkillPrimitives.
Import Syntax.

Definition extractFrontmatter (content : jsstring) : gmap jsstring jsstring :=
  match frontmatter_block content with
  | None => ∅
  | Some block =>
      foldl (λ (result : gmap jsstring jsstring) line,
               match frontmatter_line line with
               | Some (key, value) => <[key := strip_quotes value]> result
               | None => result
               end)
            ∅ (split_lines block)
  end.

(** [XML_ESCAPE[ch] ?? ch] *)
Definition XML_ESCAPE (ch : N) : jsstring :=
  if (ch =? 38)%N then str "&amp;"
  else if (ch =? 60)%N then str "&lt;"
  else if (ch =? 62)%N then str "&gt;"
  else if (ch =? 34)%N then str "&quot;"
  else if (ch =? 39)%N then str "&apos;"
  else [ch].

Definition is_xml_reserved (c : N) : bool :=
  ((c =? 38) || (c =? 60) || (c =? 62) || (c =? 34) || (c =? 39))%N.

Definition escapeXml (s : jsstring) : jsstring :=
  flat_map (λ ch, if is_xml_reserved ch then XML_ESCAPE ch else [ch]) s.

(** The lines [formatSkillsForPrompt] starts with. *)
Definition prompt_header : list jsstring :=
  [ 10%N :: 10%N :: str "The following skills provide specialized instructions for specific tasks.";
    str "Use the read tool to load a skill's file when the task matches its description.";
    [];
    str "<available_skills>" ].

(** The lines it pushes for one visible skill. *)
Definition skill_lines (s : Skill.t) : list jsstring :=
  [ str "  <skill>";
    str "    <name>" ++ escapeXml (Skill.name s) ++ str "</name>";
    str "    <description>" ++ escapeXml (Skill.description s)
      ++ str "</description>";
    str "    <location>" ++ escapeXml (Skill.filePath s) ++ str "</location>";
    str "  </skill>" ].

Definition formatSkillsForPrompt (skills : list Skill.t) : jsstring :=
  let visible :=
    List.filter (λ s, negb (Skill.disableModelInvocation s)) skills in
  if Nat.eqb (length visible) 0 then []
  else
    let lines :=
      prompt_header ++ flat_map skill_lines visible
      ++ [ str "</available_skills>" ] in
    join [10%N] lines.

(** A text in which the five reserved units occur only as the entities that
    stand for them. *)
Definition xml_entities : list jsstring :=
  [ str "&amp;"; str "&lt;"; str "&gt;"; str "&quot;"; str "&apos;" ].

Inductive xml_escaped : jsstring → Prop :=
  | xe_nil : xml_escaped []
  | xe_unit c s :
      is_xml_reserved c = false → xml_escaped s → xml_escaped (c :: s)
  | xe_entity e s :
      e ∈ xml_entities → xml_escaped s → xml_escaped (e ++ s).

(** What the scanner lets through: a skill with a description. *)
Definition described (s : Skill.t) : Prop := Skill.description s ≠ [].

Section WithEnvironment.
Context `{CaseMapping} `{PathModule} (fs : FileSystem).

Definition parseBool (value : option jsstring) (fallback : bool) : bool :=
  match value with
  | None => fallback
  | Some value =>
      let v := toLowerCase (trim value) in
      if bool_decide (v = str "true") || bool_decide (v = str "yes")
         || bool_decide (v = str "1") then true
      else if bool_decide (v = str "false") || bool_decide (v = str "no")
         || bool_decide (v = str "0") then false
      else fallback
  end.

Definition loadSkillFromFile (filePath baseDir source : jsstring)
  : outcome (option Skill.t) :=
  match readFile fs filePath with
  | Throws => Returns None          (* catch: return null *)
  | Returns content =>
      let fm := extractFrontmatter content in
      let name :=
        or_else (trim <$> fm !! str "name")
          (or_else (Some (toLowerCase (path_basename baseDir)))
             (toLowerCase (path_basename_ext filePath (str ".md")))) in
      let description := or_else (trim <$> fm !! str "description") [] in
      if bool_decide (description = []) then Returns None
      else
        Returns (Some {|
          Skill.name := name;
          Skill.description := description;
          Skill.filePath := path_resolve filePath;
          Skill.baseDir := path_resolve baseDir;
          Skill.source := source;
          Skill.disableModelInvocation :=
            parseBool (fm !! str "disable-model-invocation") false;
        |})
  end.

(** [entry.name.startsWith(".") || entry.name === "node_modules"] *)
Definition skipped (entryName : jsstring) : bool :=
  startsWith (str ".") entryName
  || bool_decide (entryName = str "node_modules").

Definition push_opt (skills : list Skill.t) (skill : option Skill.t)
  : list Skill.t :=
  match skill with
  | Some s => skills ++ [s]
  | None => skills
  end.

(** [scanSubdirs(dir, source)], where [node] is what is found at [dir]. *)
Fixpoint scanSubdirs (node : DirNode) (dir source : jsstring)
  : outcome (list Skill.t) :=
  match node with
  | NotDir => Returns []            (* readdir throws; catch: return skills *)
  | Dir Throws => Returns []
  | Dir (Returns entries) =>
      (fix loop (entries : list (jsstring * DirNode)) (skills : list Skill.t)
         : outcome (list Skill.t) :=
         match entries with
         | [] => Returns skills
         | (entryName, child) :: rest =>
             if skipped entryName then loop rest skills
             else if negb (isDirectory child) then loop rest skills
             else
               let fullPath := path_join dir entryName in
               skill ←' loadSkillFromFile
                          (path_join fullPath (str "SKILL.md")) fullPath source;
               let skills := push_opt skills skill in
               sub ←' scanSubdirs child fullPath source;
               loop rest (skills ++ sub)
         end) entries []
  end.

Definition loadSkillsFromDir_loop (dir source : jsstring)
  : list (jsstring * DirNode) → list Skill.t → outcome (list Skill.t) :=
  fix loop entries skills :=
    match entries with
    | [] => Returns skills
    | (entryName, child) :: rest =>
        if skipped entryName then loop rest skills
        else
          let fullPath := path_join dir entryName in
          if isDirectory child then
            skill ←' loadSkillFromFile
                       (path_join fullPath (str "SKILL.md")) fullPath source;
            let skills := push_opt skills skill in
            sub ←' scanSubdirs child fullPath source;
            loop rest (skills ++ sub)
          else if endsWith (str ".md") entryName then
            skill ←' loadSkillFromFile fullPath dir source;
            loop rest (push_opt skills skill)
          else loop rest skills
    end.

Definition loadSkillsFromDir (dir source : jsstring) : outcome (list Skill.t) :=
  match readdir (dirAt fs dir) with
  | Throws => Returns []            (* catch: return skills *)
  | Returns entries => loadSkillsFromDir_loop dir source entries []
  end.

End WithEnvironment.

End SkillPrimitives.

(** ** Skill orchestration (skills.ts) *)

Module SkillInvocationPolicy.
Record t := {
  userInvocable : bool;
  disableModelInvocation : bool;
}.
End SkillInvocationPolicy.

Module SkillEntry.
Record t := {
  skill : Skill.t;
  frontmatter : gmap jsstring jsstring;
  invocation : SkillInvocationPolicy.t;
}.
End SkillEntry.

Module SkillCommandSpec.
Record t := {
  name : jsstring;
  skillName : jsstring;
  description : jsstring;
}.
End SkillCommandSpec.

Module SkillMatch.
Record t := {
  command : SkillCommandSpec.t;
  args : option jsstring;
}.
End SkillMatch.

Module Skills.
Import Syntax.

(** A [Map<string, Skill>]: [set] on a key that is there replaces the value
    where it stands, a new key goes last; [values()] follows that order. *)
Fixpoint Map_set (key : jsstring) (value : Skill.t)
    (m : list (jsstring * Skill.t)) : list (jsstring * Skill.t) :=
  match m with
  | [] => [(key, value)]
  | (k, v) :: rest =>
      if bool_decide (k = key) then (key, value) :: rest
      else (k, v) :: Map_set key value rest
  end.

Definition Map_values (m : list (jsstring * Skill.t)) : list Skill.t :=
  map snd m.

Definition Map_get (key : jsstring) (m : list (jsstring * Skill.t))
  : option Skill.t :=
  snd <$> List.find (λ kv, bool_decide (kv.1 = key)) m.

(** Every value of the merged map is filed under its own name. *)
Definition keyed (m : list (jsstring * Skill.t)) : Prop :=
  Forall (λ kv, Skill.name kv.2 = kv.1) m.

(** [used.has(x)] on a [Set<string>] *)
Definition Set_has (used : gset jsstring) (x : jsstring) : bool :=
  bool_decide (x ∈ used).

(** [x || undefined] on an optional string *)
Definition nonempty (x : option jsstring) : option jsstring :=
  match x with
  | Some (c :: t) => Some (c :: t)
  | _ => None
  end.

(** Groups 1 and 2 of [s.match(/^([^\s]+)(?:\s+([\s\S]+))?$/)]: the units
    up to the first white space, and what follows the white space after
    them. When only white space follows, [\s+] leaves its last unit to the
    second group, and there is no match if it has none to leave. *)
Definition token_and_rest (s : jsstring) : option (jsstring * option jsstring) :=
  let token := take_while (λ c, negb (is_ws c)) s in
  let rest := drop_while (λ c, negb (is_ws c)) s in
  match token with
  | [] => None
  | _ :: _ =>
      match rest with
      | [] => Some (token, None)
      | _ :: rest' =>
          match drop_while is_ws rest with
          | c :: t => Some (token, Some (c :: t))
          | [] =>
              match last rest' with
              | Some w => Some (token, Some [w])
              | None => None
              end
          end
      end
  end.

(** [trimmed.match(/^\/([^\s]+)(?:\s+([\s\S]+))?$/)] *)
Definition command_match (trimmed : jsstring)
  : option (jsstring * option jsstring) :=
  match trimmed with
  | c :: s => if (c =? 47)%N then token_and_rest s else None
  | [] => None
  end.

Definition COMMAND_MAX_LENGTH : nat := 32.
Definition COMMAND_FALLBACK : jsstring := str "skill".
Definition DESCRIPTION_MAX_LENGTH : nat := 100.

(** The class [[a-z0-9_]] *)
Definition is_command_char (c : N) : bool :=
  ((97 <=? c) && (c <=? 122) || (48 <=? c) && (c <=? 57) || (c =? 95))%N.

Definition is_underscore (c : N) : bool := (c =? 95)%N.

(** [s.replace(/^_+|_+$/g, "")] *)
Definition strip_underscores (s : jsstring) : jsstring :=
  rev (drop_while is_underscore (rev (drop_while is_underscore s))).

(** A command list whose names and skill names are ASCII. *)
Definition ascii_commands (commands : list SkillCommandSpec.t) : bool :=
  forallb (λ c, is_ascii (SkillCommandSpec.name c)
                && is_ascii (SkillCommandSpec.skillName c)) commands.

(** A state of the loop of [buildSkillCommandSpecs] in which nothing is
    repeated: the names in use are the names given so far, which are
    distinct and over the command alphabet. *)
Definition names_distinct (state : gset jsstring * list jsstring) : Prop :=
  (∀ n, n ∈ state.1 ↔ In n state.2)
  ∧ List.NoDup state.2
  ∧ Forall (Forall (λ c, is_command_char c = true)) state.2.

Section WithEnvironment.
Context `{CaseMapping} `{PathModule} (fs : FileSystem).

Definition parseFrontmatter (content : jsstring) : gmap jsstring jsstring :=
  match frontmatter_block content with
  | None => ∅
  | Some block =>
      foldl (λ (result : gmap jsstring jsstring) line,
               match frontmatter_line line with
               | Some (key, value) => <[key := strip_quotes value]> result
               | None => result
               end)
            ∅ (split_lines block)
  end.

Definition parseBool (value : option jsstring) (fallback : bool) : bool :=
  match value with
  | None => fallback
  | Some value =>
      let v := toLowerCase (trim value) in
      if bool_decide (v = str "true") || bool_decide (v = str "yes")
         || bool_decide (v = str "1") then true
      else if bool_decide (v = str "false") || bool_decide (v = str "no")
         || bool_decide (v = str "0") then false
      else fallback
  end.

Definition resolveInvocationPolicy (fm : gmap jsstring jsstring)
  : SkillInvocationPolicy.t :=
  {| SkillInvocationPolicy.userInvocable :=
       parseBool (fm !! str "user-invocable") true;
     SkillInvocationPolicy.disableModelInvocation :=
       parseBool (fm !! str "disable-model-invocation") false |}.

(** The two merge loops of [loadSkillEntries]. *)
Definition merge_into (merged : list (jsstring * Skill.t))
    (skills : list Skill.t) : list (jsstring * Skill.t) :=
  foldl (λ merged skill, Map_set (Skill.name skill) skill merged) merged skills.

(** The enriching loop of [loadSkillEntries]: one entry per merged skill;
    a file that cannot be read again leaves the frontmatter empty. *)
Definition enrich (skill : Skill.t) : SkillEntry.t :=
  let frontmatter :=
    match readFile fs (Skill.filePath skill) with
    | Returns raw => parseFrontmatter raw
    | Throws => ∅
    end in
  {| SkillEntry.skill := skill;
     SkillEntry.frontmatter := frontmatter;
     SkillEntry.invocation := resolveInvocationPolicy frontmatter |}.

Definition loadSkillEntries (workspaceDir managedDir : jsstring)
  : outcome (list SkillEntry.t) :=
  let merged := [] in
  managedSkills ←'
    SkillPrimitives.loadSkillsFromDir fs managedDir (str "managed");
  let merged := merge_into merged managedSkills in
  let workspaceSkillsDir := path_join workspaceDir (str "skills") in
  workspaceSkills ←'
    SkillPrimitives.loadSkillsFromDir fs workspaceSkillsDir (str "workspace");
  let merged := merge_into merged workspaceSkills in
  Returns (map enrich (Map_values merged)).

Definition sanitizeCommandName (raw : jsstring) : jsstring :=
  let normalized :=
    strip_underscores
      (replace_runs is_underscore (str "_")
         (replace_runs (λ c, negb (is_command_char c)) (str "_")
            (toLowerCase raw))) in
  match slice0 COMMAND_MAX_LENGTH normalized with
  | [] => COMMAND_FALLBACK
  | c :: t => c :: t
  end.

(** The candidate of turn [i] of the loop of [resolveUniqueCommandName]. The
    subtraction is on naturals: where the source gets a negative number,
    [Math.max(1, _)] gives [1] here as there. *)
Definition candidate (base : jsstring) (i : N) : jsstring :=
  let suffix := str "_" ++ decimal i in
  let maxBase := Nat.max 1 (COMMAND_MAX_LENGTH - length suffix) in
  slice0 maxBase base ++ suffix.

Definition fallback_name (base : jsstring) : jsstring :=
  slice0 (Nat.max 1 (COMMAND_MAX_LENGTH - 2)) base ++ str "_x".

(** [for (let i = ...; i < 1000; i++)]; [fuel] bounds the turns. *)
Fixpoint resolve_loop (base : jsstring) (used : gset jsstring)
    (fuel : nat) (i : N) : jsstring :=
  match fuel with
  | O => fallback_name base
  | S fuel =>
      if (i <? 1000)%N then
        if negb (Set_has used (toLowerCase (candidate base i)))
        then candidate base i
        else resolve_loop base used fuel (i + 1)%N
      else fallback_name base
  end.

Definition resolveUniqueCommandName (base : jsstring) (used : gset jsstring)
  : jsstring :=
  if negb (Set_has used (toLowerCase base)) then base
  else resolve_loop base used 1000 2%N.

(** The description of a command: that of the skill, trimmed, or the name
    of the skill; cut to 99 units and an ellipsis when longer than 100. *)
Definition command_description (skill : Skill.t) : jsstring :=
  let rawDesc :=
    or_else (Some (trim (Skill.description skill))) (Skill.name skill) in
  if Nat.ltb DESCRIPTION_MAX_LENGTH (length rawDesc)
  then slice0 (DESCRIPTION_MAX_LENGTH - 1) rawDesc ++ [8230%N]
  else rawDesc.

(** One turn of the loop of [buildSkillCommandSpecs]. *)
Definition build_step (state : gset jsstring * list SkillCommandSpec.t)
    (entry : SkillEntry.t) : gset jsstring * list SkillCommandSpec.t :=
  let '(used, specs) := state in
  let base := sanitizeCommandName (Skill.name (SkillEntry.skill entry)) in
  let unique := resolveUniqueCommandName base used in
  let used := {[ toLowerCase unique ]} ∪ used in
  let description := command_description (SkillEntry.skill entry) in
  (used,
   specs ++ [ {| SkillCommandSpec.name := unique;
                 SkillCommandSpec.skillName :=
                   Skill.name (SkillEntry.skill entry);
                 SkillCommandSpec.description := description |} ]).

Definition buildSkillCommandSpecs (entries : list SkillEntry.t)
  : list SkillCommandSpec.t :=
  let userInvocable :=
    List.filter
      (λ e, SkillInvocationPolicy.userInvocable (SkillEntry.invocation e))
      entries in
  (foldl build_step (∅, []) userInvocable).2.

(** The command names alone: the loop of [buildSkillCommandSpecs] as it
    acts on the names of the skills it is given. *)
Definition name_step (state : gset jsstring * list jsstring)
    (skillName : jsstring) : gset jsstring * list jsstring :=
  let '(used, names) := state in
  let unique := resolveUniqueCommandName (sanitizeCommandName skillName) used in
  ({[ toLowerCase unique ]} ∪ used, names ++ [unique]).

Definition command_names (skillNames : list jsstring) : list jsstring :=
  (foldl name_step (∅, []) skillNames).2.

(** Every name [resolveUniqueCommandName] can answer for a base: the base,
    the 998 candidates and the fallback. *)
Definition candidates (base : jsstring) : list jsstring :=
  map (λ i, candidate base (N.of_nat i)) (seq 2 998).

Definition name_pool (base : jsstring) : list jsstring :=
  base :: fallback_name base :: candidates base.

Definition normalizeForLookup (value : jsstring) : jsstring :=
  replace_runs (λ c, is_ws c || is_underscore c) (str "-")
    (toLowerCase (trim value)).

Definition findSkillCommand (commands : list SkillCommandSpec.t)
    (rawName : jsstring) : option SkillCommandSpec.t :=
  let trimmed := trim rawName in
  match trimmed with
  | [] => None
  | _ :: _ =>
      let lowered := toLowerCase trimmed in
      let normalized := normalizeForLookup trimmed in
      List.find
        (λ entry,
           if str_eqb (toLowerCase (SkillCommandSpec.name entry)) lowered
           then true
           else if str_eqb (toLowerCase (SkillCommandSpec.skillName entry))
                     lowered
           then true
           else str_eqb (normalizeForLookup (SkillCommandSpec.name entry))
                  normalized
                || str_eqb
                     (normalizeForLookup (SkillCommandSpec.skillName entry))
                     normalized)
        commands
  end.

(** The branch [/skill skillname args] of [resolveCommandInvocation];
    [rest] is [match[2]]. *)
Definition dispatch_skill (rest : option jsstring)
    (commands : list SkillCommandSpec.t) : option SkillMatch.t :=
  match trim <$> rest with
  | None | Some [] => None
  | Some remainder =>
      match token_and_rest remainder with
      | None => None
      | Some (target, tail) =>
          match findSkillCommand commands target with
          | None => None
          | Some cmd =>
              Some {| SkillMatch.command := cmd;
                      SkillMatch.args := nonempty (trim <$> tail) |}
          end
      end
  end.

(** The branch [/skillname args] of [resolveCommandInvocation]. *)
Definition direct_invocation (commandName : jsstring) (rest : option jsstring)
    (commands : list SkillCommandSpec.t) : option SkillMatch.t :=
  match List.find
          (λ entry,
             str_eqb (toLowerCase (SkillCommandSpec.name entry)) commandName)
          commands with
  | None => None
  | Some cmd =>
      Some {| SkillMatch.command := cmd;
              SkillMatch.args := nonempty (trim <$> rest) |}
  end.

Definition resolveCommandInvocation (input : jsstring)
    (commands : list SkillCommandSpec.t) : option SkillMatch.t :=
  let trimmed := trim input in
  if negb (startsWith (str "/") trimmed) then None
  else
    match command_match trimmed with
    | None => None
    | Some (token, rest) =>
        let commandName := toLowerCase (trim token) in
        match commandName with
        | [] => None
        | _ :: _ =>
            if str_eqb commandName (str "skill")
            then dispatch_skill rest commands
            else direct_invocation commandName rest commands
        end
    end.

End WithEnvironment.

End Skills.

(** ** Concrete inputs *)

Module Examples.

(** A path module for the examples: [/]-separated absolute paths. *)
Definition posix_basename (p : jsstring) : jsstring :=
  rev (take_while (λ c, negb (c =? 47)%N) (rev p)).

Definition posix_path : PathModule := {|
  path_join a b := a ++ str "/" ++ b;
  path_basename := posix_basename;
  path_basename_ext p ext :=
    let b := posix_basename p in
    if endsWith ext b then take (length b - length ext) b else b;
  path_resolve p := p;
|}.

Definition text (lines : list jsstring) : jsstring := join [10%N] lines.

(** A managed directory with the skill ["Deploy Service"] and a workspace
    with the skill ["deploy_service"], a note without description, and a
    hidden directory. *)
Definition deploy_fs : FileSystem := {|
  dirAt p :=
    if bool_decide (p = str "/managed")
    then Dir (Returns [(str "deploy", Dir (Returns []))])
    else if bool_decide (p = str "/work/skills")
    then Dir (Returns [ (str "deploy_service", Dir (Returns []));
                        (str "notes.md", NotDir);
                        (str ".git", Dir Throws) ])
    else NotDir;
  readFile p :=
    if bool_decide (p = str "/managed/deploy/SKILL.md")
    then Returns (text [ str "---"; str "name: Deploy Service";
                         str "description: Deploys the service";
                         str "---"; str "Steps." ])
    else if bool_decide (p = str "/work/skills/deploy_service/SKILL.md")
    then Returns (text [ str "---"; str "description: 'Deploys too'";
                         str "---" ])
    else if bool_decide (p = str "/work/skills/notes.md")
    then Returns (text [ str "---"; str "name: notes";
                         str "description:   "; str "---" ])
    else Throws;
|}.

Definition deploy_managed : Skill.t := {|
  Skill.name := str "Deploy Service";
  Skill.description := str "Deploys the service";
  Skill.filePath := str "/managed/deploy/SKILL.md";
  Skill.baseDir := str "/managed/deploy";
  Skill.source := str "managed";
  Skill.disableModelInvocation := false;
|}.

Definition deploy_workspace : Skill.t := {|
  Skill.name := str "deploy_service";
  Skill.description := str "Deploys too";
  Skill.filePath := str "/work/skills/deploy_service/SKILL.md";
  Skill.baseDir := str "/work/skills/deploy_service";
  Skill.source := str "workspace";
  Skill.disableModelInvocation := false;
|}.

(** An entry that the user may invoke, for a skill of the given name. *)
Definition entry_named (name : jsstring) : SkillEntry.t := {|
  SkillEntry.skill := {|
    Skill.name := name;
    Skill.description := str "A skill";
    Skill.filePath := str "/managed/" ++ name ++ str "/SKILL.md";
    Skill.baseDir := str "/managed/" ++ name;
    Skill.source := str "managed";
    Skill.disableModelInvocation := false;
  |};
  SkillEntry.frontmatter := ∅;
  SkillEntry.invocation := {|
    SkillInvocationPolicy.userInvocable := true;
    SkillInvocationPolicy.disableModelInvocation := false;
  |};
|}.

(** [count] skills named ["a"], ["a!"], ["a!!"], ...: distinct names that
    all sanitize to ["a"]. *)
Definition same_base_entries (count : nat) : list SkillEntry.t :=
  map (λ i, entry_named (str "a" ++ repeat 33%N i)) (seq 0 count).

End Examples.

(** ** Tool sets and policy merging (tool-policy) *)

Module ToolSet.
Import ToolPolicy.

(** A tool: its name, and the rest of it (description, schema, execute),
    which the policy never looks at. *)
Record Tool (Body : Type) := {
  name : jsstring;
  body : Body;
}.
Arguments name {Body} _.
Arguments body {Body} _.

(** [Array.from(new Set(xs))]: the first occurrence of each string, in
    order. *)
Definition Set_values (xs : list jsstring) : list jsstring :=
  foldl (λ seen x, if bool_decide (x ∈ seen) then seen else seen ++ [x]) [] xs.

(** [xs.map((v) => v.trim()).filter(Boolean)] *)
Definition trimmed_nonempty (xs : list jsstring) : list jsstring :=
  List.filter (λ v, negb (bool_decide (v = []))) (map trim xs).

(** [xs.length > 0 ? Array.from(new Set(xs)) : undefined] *)
Definition unique_or_undefined (xs : list jsstring) : option (list jsstring) :=
  if Nat.ltb 0 (length xs) then Some (Set_values xs) else None.

Definition mergeToolPolicies (base extra : option ToolPolicy)
  : option ToolPolicy :=
  match base, extra with
  | None, None => None
  | _, _ =>
      let allow :=
        trimmed_nonempty (default [] (base ≫= allow)
                          ++ default [] (extra ≫= allow)) in
      let deny :=
        trimmed_nonempty (default [] (base ≫= deny)
                          ++ default [] (extra ≫= deny)) in
      Some {| allow := unique_or_undefined allow;
              deny := unique_or_undefined deny |}
  end.

Section WithCaseMapping.
Context `{CaseMapping}.

Definition filterToolsByPolicy {Body : Type} (tools : list (Tool Body))
    (policy : option ToolPolicy) : list (Tool Body) :=
  match policy with
  | None => tools
  | Some _ => List.filter (λ tool, isToolAllowed (name tool) policy) tools
  end.

End WithCaseMapping.

End ToolSet.

(** ** The skill manager (skills.ts) *)

Module SkillManager.
Import Skills.

(** The fields of a [SkillManager]. *)
Record t := {
  workspaceDir : jsstring;
  managedDir : jsstring;
  entries : list SkillEntry.t;
  commands : list SkillCommandSpec.t;
  loaded : bool;
}.

(** [process.env], as far as the constructor reads it. *)
Record ProcessEnv := {
  HOME : option jsstring;
  USERPROFILE : option jsstring;
}.

Section WithEnvironment.
Context `{CaseMapping} `{PathModule}.

(** [join3] is [path.join] with three arguments. *)
Definition constructor (join3 : jsstring → jsstring → jsstring → jsstring)
    (env : ProcessEnv) (workspaceDir : jsstring)
    (managedDir : option jsstring) : t :=
  {| workspaceDir := workspaceDir;
     managedDir :=
       match managedDir with
       | Some dir => dir
       | None =>
           join3 (or_else (HOME env) (or_else (USERPROFILE env) (str ".")))
             (str ".mini-agent") (str "skills")
       end;
     entries := [];
     commands := [];
     loaded := false |}.

(** The methods, one call after the other: each takes the manager and
    returns it with its answer. *)
Definition loadAll (fs : FileSystem) (this : t) : outcome t :=
  if loaded this then Returns this
  else
    entries ←' loadSkillEntries fs (workspaceDir this) (managedDir this);
    Returns {| workspaceDir := workspaceDir this;
               managedDir := managedDir this;
               entries := entries;
               commands := buildSkillCommandSpecs entries;
               loaded := true |}.

Definition match_ (fs : FileSystem) (input : jsstring) (this : t)
  : outcome (option SkillMatch.t * t) :=
  this ←' loadAll fs this;
  Returns (resolveCommandInvocation input (commands this), this).

Definition get (fs : FileSystem) (name : jsstring) (this : t)
  : outcome (option Skill.t * t) :=
  this ←' loadAll fs this;
  Returns
    (SkillEntry.skill
       <$> List.find
             (λ e, bool_decide (Skill.name (SkillEntry.skill e) = name))
             (entries this),
     this).

Definition listCommands (fs : FileSystem) (this : t)
  : outcome (list SkillCommandSpec.t * t) :=
  this ←' loadAll fs this;
  Returns (commands this, this).

Definition buildSkillsPrompt (fs : FileSystem) (this : t)
  : outcome (jsstring * t) :=
  this ←' loadAll fs this;
  let skills :=
    map SkillEntry.skill
      (List.filter
         (λ e, negb (SkillInvocationPolicy.disableModelInvocation
                       (SkillEntry.invocation e)))
         (entries this)) in
  Returns (SkillPrimitives.formatSkillsForPrompt skills, this).

Definition list (fs : FileSystem) (this : t)
  : outcome (Datatypes.list Skill.t * t) :=
  this ←' loadAll fs this;
  Returns (map SkillEntry.skill (entries this), this).

End WithEnvironment.

End SkillManager.

(** ** Headers of skill files, as text *)

Module Header.
Import Syntax.

(** The end of a line: a line feed, after a carriage return in a file with
    such line ends. *)
Definition line_end (cr : bool) : jsstring :=
  (if cr then [13%N] else []) ++ [10%N].

Definition opening (cr : bool) : jsstring := str "---" ++ line_end cr.
Definition closing (cr : bool) : jsstring := line_end cr ++ str "---".

(** A header with the given lines between its delimiters. *)
Definition header (cr : bool) (lines : list jsstring) : jsstring :=
  opening cr ++ join (line_end cr) lines ++ closing cr.

(** The line that gives [key] the [value]. *)
Definition key_value (kv : jsstring * jsstring) : jsstring :=
  kv.1 ++ str ": " ++ kv.2.

Definition no_feed (c : N) : bool := negb (c =? 10)%N.
Definition no_break (c : N) : bool := negb (c =? 10)%N && negb (c =? 13)%N.

(** A line without line feed or carriage return that does not start with
    a hyphen. *)
Definition plain_line (line : jsstring) : bool :=
  forallb no_break line && negb (startsWith [45%N] line).

(** A key as the line pattern reads it: a letter, then word units or
    hyphens. *)
Definition plain_key (key : jsstring) : bool :=
  match key with
  | c :: t => is_alpha c && forallb is_key_char t
  | [] => false
  end.

(** A value that the line pattern gives back as it is: not empty, on one
    line, no white space in front, no quote at either end. *)
Definition plain_value (value : jsstring) : bool :=
  forallb (λ c, negb (is_line_terminator c)) value
  && match value with
     | c :: _ => negb (is_ws c) && negb (is_quote c)
     | [] => false
     end
  && match last value with
     | Some c => negb (is_quote c)
     | None => false
     end.

(** One turn of the loop of [extractFrontmatter] and [parseFrontmatter]. *)
Definition line_step (result : gmap jsstring jsstring) (line : jsstring)
  : gmap jsstring jsstring :=
  match frontmatter_line line with
  | Some (key, value) => <[key := strip_quotes value]> result
  | None => result
  end.

End Header.

(** ** What a scan looks at *)

Module Relevant.
Import SkillPrimitives.




End Relevant.

(** ** Built-in tools (tools/builtin.ts) *)

Module Builtin.
Import Syntax.

(** *** More of JavaScript *)

(** The text before and the text after the first occurrence of [pat] in
    [s], the empty text occurring at once. *)
Fixpoint first_occurrence (pat s : jsstring) : option (jsstring * jsstring) :=
  if startsWith pat s then Some ([], drop (length pat) s)
  else match s with
       | [] => None
       | c :: t =>
           '(before, after) ← first_occurrence pat t; Some (c :: before, after)
       end.

(** [s.includes(pat)] *)
Definition includes_text (pat s : jsstring) : bool :=
  match first_occurrence pat s with
  | Some _ => true
  | None => false
  end.

(** The replacement text a template stands for when the pattern is a
    string (there are no captures): a dollar sign followed by a dollar sign
    is one dollar sign, followed by an ampersand the matched text, followed
    by a backquote the text before the match, followed by a quote the text
    after it; any other dollar sign stands for itself. *)
Fixpoint substitution (matched before after template : jsstring) : jsstring :=
  match template with
  | [] => []
  | c :: rest =>
      if (c =? 36)%N then
        match rest with
        | d :: rest' =>
            if (d =? 36)%N
            then 36%N :: substitution matched before after rest'
            else if (d =? 38)%N
            then matched ++ substitution matched before after rest'
            else if (d =? 96)%N
            then before ++ substitution matched before after rest'
            else if (d =? 39)%N
            then after ++ substitution matched before after rest'
            else c :: substitution matched before after rest
        | [] => [c]
        end
      else c :: substitution matched before after rest
  end.

(** [s.replace(pat, rep)] for a string [pat]: the first occurrence only. *)
Definition replace_first (pat rep s : jsstring) : jsstring :=
  match first_occurrence pat s with
  | None => s
  | Some (before, after) =>
      before ++ substitution pat before after rep ++ after
  end.

(** A number as [slice] reads it: cut to an integer, not-a-number counting
    as zero, or infinite. *)
Inductive integer_or_infinity :=
  | MinusInfinity
  | Finite (z : Z)
  | PlusInfinity.

(** [xs.slice(0, e)] *)
Definition slice_to {A : Type} (e : integer_or_infinity) (xs : list A)
  : list A :=
  match e with
  | MinusInfinity => []
  | Finite z =>
      if (z <? 0)%Z
      then take (Z.to_nat (Z.max (Z.of_nat (length xs) + z) 0)) xs
      else take (Z.to_nat z) xs
  | PlusInfinity => xs
  end.

(** An integer as a template literal prints it. *)
Definition decimal_Z (z : Z) : jsstring :=
  if (z <? 0)%Z then 45%N :: decimal (Z.to_N (- z)) else decimal (Z.to_N z).

(** *** The platform

    What a tool awaits either gives a value or throws; of what is thrown
    the tools read the message only. Every call may change the world. *)

Inductive attempt (A : Type) :=
  | Done (a : A)
  | Failed (message : jsstring).
Arguments Done {A} a.
Arguments Failed {A} message.

Record ToolContext := {
  workspaceDir : jsstring;
}.

Class Platform (World : Type) := {
  (** [assertSandboxPath({filePath, cwd, root})], answering
      [resolved.resolved]; its code is outside the repository. *)
  assertSandboxPath :
    jsstring → jsstring → jsstring → World → attempt jsstring * World;
  fs_readFile : jsstring → World → attempt jsstring * World;
  fs_mkdir_recursive : jsstring → World → attempt unit * World;
  fs_writeFile : jsstring → jsstring → World → attempt unit * World;
  path_dirname : jsstring → jsstring;
}.

(** The text a tool answers when it has caught an error. *)
Definition error_text (message : jsstring) : jsstring :=
  [38169; 35823; 58; 32]%N ++ message.

Definition written_text (file_path : jsstring) : jsstring :=
  [25104; 21151; 20889; 20837; 32]%N ++ file_path.

Definition edited_text (file_path : jsstring) : jsstring :=
  [25104; 21151; 32534; 36753; 32]%N ++ file_path.

Definition not_found_text : jsstring :=
  [38169; 35823; 58; 32; 26410; 25214; 21040; 35201; 26367; 25442; 30340;
   25991; 26412; 65288; 35831; 30830; 20445; 32; 111; 108; 100; 95; 115;
   116; 114; 105; 110; 103; 32; 19982; 25991; 20214; 20869; 23481; 23436;
   20840; 19968; 33268; 65292; 21253; 25324; 31354; 26684; 21644; 25442;
   34892; 65289]%N.

Module ReadInput.
Record t := {
  file_path : jsstring;
  limit : option integer_or_infinity;
}.
End ReadInput.

Module WriteInput.
Record t := {
  file_path : jsstring;
  content : jsstring;
}.
End WriteInput.

Module EditInput.
Record t := {
  file_path : jsstring;
  old_string : jsstring;
  new_string : jsstring;
}.
End EditInput.

(** The line [i] of the answer of the read tool, counting from 0. *)
Definition numbered (i : nat) (line : jsstring) : jsstring :=
  decimal (N.of_nat (i + 1)) ++ [9%N] ++ line.

Section WithPlatform.
Context {World : Type} `{Platform World}.

(** [readTool.execute(input, ctx)] *)
Definition readTool_execute (input : ReadInput.t) (ctx : ToolContext)
    (world : World) : jsstring * World :=
  match assertSandboxPath (ReadInput.file_path input) (workspaceDir ctx)
          (workspaceDir ctx) world with
  | (Failed message, world) => (error_text message, world)
  | (Done filePath, world) =>
      let limit := default (Finite 500) (ReadInput.limit input) in
      match fs_readFile filePath world with
      | (Failed message, world) => (error_text message, world)
      | (Done content, world) =>
          let lines := slice_to limit (split_lines content) in
          (join [10%N] (imap numbered lines), world)
      end
  end.

(** [writeTool.execute(input, ctx)] *)
Definition writeTool_execute (input : WriteInput.t) (ctx : ToolContext)
    (world : World) : jsstring * World :=
  match assertSandboxPath (WriteInput.file_path input) (workspaceDir ctx)
          (workspaceDir ctx) world with
  | (Failed message, world) => (error_text message, world)
  | (Done filePath, world) =>
      match fs_mkdir_recursive (path_dirname filePath) world with
      | (Failed message, world) => (error_text message, world)
      | (Done _, world) =>
          match fs_writeFile filePath (WriteInput.content input) world with
          | (Failed message, world) => (error_text message, world)
          | (Done _, world) =>
              (written_text (WriteInput.file_path input), world)
          end
      end
  end.

(** [editTool.execute(input, ctx)] *)
Definition editTool_execute (input : EditInput.t) (ctx : ToolContext)
    (world : World) : jsstring * World :=
  match assertSandboxPath (EditInput.file_path input) (workspaceDir ctx)
          (workspaceDir ctx) world with
  | (Failed message, world) => (error_text message, world)
  | (Done filePath, world) =>
      match fs_readFile filePath world with
      | (Failed message, world) => (error_text message, world)
      | (Done content, world) =>
          if negb (includes_text (EditInput.old_string input) content)
          then (not_found_text, world)
          else
            let newContent :=
              replace_first (EditInput.old_string input)
                (EditInput.new_string input) content in
            match fs_writeFile filePath newContent world with
            | (Failed message, world) => (error_text message, world)
            | (Done _, world) =>
                (edited_text (EditInput.file_path input), world)
            end
      end
  end.

End WithPlatform.

(** *** The exec tool

    What [execTool.execute] returns once the child process has closed with
    the output it wrote and its exit code ([null] when it was killed or
    could not be started), or once spawning has thrown. *)
Definition OUTPUT_MAX : nat := Z.to_nat 30000.

Definition exec_result (stdout stderr : jsstring) (exitCode : option Z)
  : jsstring :=
  let result := stdout in
  let result :=
    match stderr with
    | [] => result
    | _ :: _ => result ++ [10%N] ++ str "[STDERR]" ++ [10%N] ++ stderr
    end in
  let result :=
    match exitCode with
    | Some code =>
        if negb (code =? 0)%Z
        then result ++ [10%N] ++ str "[EXIT CODE] " ++ decimal_Z code
        else result
    | None => result
    end in
  take OUTPUT_MAX result.

Definition execTool_finish (run : attempt (jsstring * jsstring * option Z))
  : jsstring :=
  match run with
  | Done (stdout, stderr, exitCode) => exec_result stdout stderr exitCode
  | Failed message => error_text message
  end.

(** *** The grep tool *)

(** The note after the matches that are shown. *)
Definition matches_cut_text (limit : Z) : jsstring :=
  [10; 10; 91; 24050; 25130; 26029; 65292; 20165; 26174; 31034; 21069; 32]%N
  ++ decimal_Z limit ++ [32; 26465; 21305; 37197; 93]%N.

Definition output_cut_text : jsstring :=
  [10; 10; 91; 36755; 20986; 36807; 38271; 24050; 25130; 26029; 93]%N.

Definition no_match_text : jsstring := [26410; 25214; 21040; 21305; 37197]%N.

Definition timeout_message : jsstring := [114; 103; 32; 36229; 26102]%N.

(** What the close handler of [runRipgrep] resolves the promise with. *)
Definition ripgrep_output (limit : Z) (stdout : jsstring) : jsstring :=
  let lines :=
    List.filter (λ line, negb (bool_decide (trim line = [])))
      (split_lines stdout) in
  let limited := slice_to (Finite (Z.max 1 limit)) lines in
  let output := join [10%N] limited in
  let output :=
    if (limit <? Z.of_nat (length lines))%Z
    then output ++ matches_cut_text limit else output in
  if Nat.ltb OUTPUT_MAX (length output)
  then take OUTPUT_MAX output ++ output_cut_text else output.

(** The handler of the close event in [runRipgrep]: what the promise is
    settled with when the process closes first. *)
Definition ripgrep_close (limit : Z) (code : option Z)
    (stdout stderr : jsstring) : attempt jsstring :=
  match code with
  | Some code =>
      if negb (code =? 0)%Z && negb (code =? 1)%Z
      then Failed (or_else (Some (trim stderr))
                     (str "rg exited with code " ++ decimal_Z code))
      else Done (ripgrep_output limit stdout)
  | None => Done (ripgrep_output limit stdout)
  end.

(** What settles the promise of [runRipgrep] first. *)
Inductive ripgrep_event :=
  | TimedOut
  | SpawnError (message : jsstring)
  | Closed (code : option Z) (stdout stderr : jsstring).

Definition runRipgrep (limit : Z) (event : ripgrep_event) : attempt jsstring :=
  match event with
  | TimedOut => Failed timeout_message
  | SpawnError message => Failed message
  | Closed code stdout stderr => ripgrep_close limit code stdout stderr
  end.

(** [grepTool.execute], given what the sandbox check and the process
    did. *)
Definition grepTool_finish (checked : attempt jsstring)
    (event : ripgrep_event) : jsstring :=
  match checked with
  | Failed message => error_text message
  | Done searchPath =>
      match runRipgrep 100 event with
      | Failed message => error_text message
      | Done [] => no_match_text
      | Done (c :: output) => c :: output
      end
  end.

End Builtin.

(** * Properties *)

(** ** JavaScript strings *)

Module JSFacts.

Lemma drop_while_map (f : N → N) (p : N → bool) (s : jsstring) :
  (∀ c, p (f c) = p c) → drop_while p (map f s) = map f (drop_while p s).
Proof.
  intros Hp. induction s as [|c t IH]; simpl; [done|].
  rewrite Hp. by destruct (p c).
Qed.

Lemma drop_while_forallb (p q : N → bool) (s : jsstring) :
  forallb q s = true → forallb q (drop_while p s) = true.
Proof.
  induction s as [|c t IH]; simpl; [done|].
  intros [Hc Ht]%andb_prop. destruct (p c); [auto|].
  simpl. by rewrite Hc, Ht.
Qed.

Lemma forallb_rev (q : N → bool) (s : jsstring) :
  forallb q (rev s) = forallb q s.
Proof.
  induction s as [|c t IH]; simpl; [done|].
  rewrite forallb_app, IH. simpl. rewrite andb_true_r. apply andb_comm.
Qed.

Lemma trim_forallb (q : N → bool) (s : jsstring) :
  forallb q s = true → forallb q (trim s) = true.
Proof.
  intros Hs. unfold trim, trimEnd, trimStart.
  rewrite forallb_rev. apply drop_while_forallb.
  rewrite forallb_rev. by apply drop_while_forallb.
Qed.

Lemma is_ascii_trim (s : jsstring) : is_ascii s = true → is_ascii (trim s) = true.
Proof. apply trim_forallb. Qed.

Lemma is_ws_ascii_lower (c : N) : is_ws (ascii_lower c) = is_ws c.
Proof.
  unfold ascii_lower.
  destruct ((65 <=? c) && (c <=? 90))%N eqn:E; [|done].
  apply andb_prop in E as [E1%N.leb_le E2%N.leb_le].
  unfold is_ws.
  repeat match goal with
  | |- context [(?a =? ?b)%N] => destruct (N.eqb_spec a b); [lia|]
  | |- context [(?a <=? ?b)%N] => destruct (N.leb_spec a b); try lia
  end; reflexivity.
Qed.

Lemma trim_map_ascii_lower (s : jsstring) :
  trim (map ascii_lower s) = map ascii_lower (trim s).
Proof.
  unfold trim, trimEnd, trimStart.
  rewrite drop_while_map by apply is_ws_ascii_lower.
  rewrite <- map_rev, drop_while_map by apply is_ws_ascii_lower.
  by rewrite map_rev.
Qed.

Lemma ascii_lower_idem (c : N) : ascii_lower (ascii_lower c) = ascii_lower c.
Proof.
  unfold ascii_lower.
  destruct ((65 <=? c) && (c <=? 90))%N eqn:E; [|by rewrite E].
  apply andb_prop in E as [E1%N.leb_le E2%N.leb_le].
  destruct (N.leb_spec 65 (c + 32)), (N.leb_spec (c + 32) 90); simpl; lia.
Qed.

Lemma is_ascii_map_lower (s : jsstring) :
  is_ascii s = true → is_ascii (map ascii_lower s) = true.
Proof.
  unfold is_ascii. induction s as [|c t IH]; simpl; [done|].
  intros [Hc Ht]%andb_prop. rewrite IH by done. rewrite andb_true_r.
  apply N.ltb_lt in Hc. apply N.ltb_lt. unfold ascii_lower.
  destruct ((65 <=? c) && (c <=? 90))%N eqn:E; [|done].
  apply andb_prop in E as [E1%N.leb_le E2%N.leb_le]. lia.
Qed.

Lemma map_ascii_lower_idem (s : jsstring) :
  map ascii_lower (map ascii_lower s) = map ascii_lower s.
Proof. rewrite map_map. apply map_ext, ascii_lower_idem. Qed.

Lemma map_ascii_lower_trimmed (s : jsstring) :
  trim s = s → trim (map ascii_lower s) = map ascii_lower s.
Proof. intros Hs. by rewrite trim_map_ascii_lower, Hs. Qed.

(** The ASCII-only case mapping: an instance of the assumed interface. *)
Definition ascii_case : CaseMapping :=
  Build_CaseMapping (map ascii_lower) (λ s _, eq_refl)
    map_ascii_lower_idem map_ascii_lower_trimmed.

End JSFacts.

(** ** Tool policy *)

Module ToolPolicyFacts.
Import ToolPolicy JSFacts.

Lemma drop_while_idem (p : N → bool) (s : jsstring) :
  drop_while p (drop_while p s) = drop_while p s.
Proof.
  induction s as [|c t IH]; simpl; [done|].
  destruct (p c) eqn:E; [done|]. simpl. by rewrite E.
Qed.

Lemma drop_while_snoc (p : N → bool) (s : jsstring) (c : N) :
  p c = false → drop_while p (s ++ [c]) = drop_while p s ++ [c].
Proof.
  intros Hc. induction s as [|d t IH]; simpl; [by rewrite Hc|].
  by destruct (p d).
Qed.

Lemma trimStart_trimEnd (s : jsstring) :
  trimStart s = s → trimStart (trimEnd s) = trimEnd s.
Proof.
  destruct s as [|c t]; [done|]. unfold trimStart, trimEnd. simpl.
  destruct (is_ws c) eqn:E.
  - intros Heq. exfalso.
    assert (Hlen : length (drop_while is_ws t) ≤ length t).
    { clear. induction t as [|d t IH]; simpl; [lia|].
      destruct (is_ws d); simpl; lia. }
    rewrite Heq in Hlen. simpl in Hlen. lia.
  - intros _. rewrite drop_while_snoc by done.
    rewrite rev_app_distr. simpl. by rewrite E.
Qed.

Lemma trim_idem (s : jsstring) : trim (trim s) = trim s.
Proof.
  unfold trim.
  rewrite trimStart_trimEnd by apply drop_while_idem.
  unfold trimEnd. by rewrite rev_involutive, drop_while_idem.
Qed.

Section WithCaseMapping.
Context `{CaseMapping}.

Lemma normalizeToolName_idem (name : jsstring) :
  normalizeToolName (normalizeToolName name) = normalizeToolName name.
Proof.
  unfold normalizeToolName.
  rewrite toLowerCase_trimmed by apply trim_idem.
  apply toLowerCase_idem.
Qed.

Lemma normalizeToolName_ascii (name : jsstring) :
  is_ascii name = true →
  normalizeToolName name = normalizeToolName (H:=ascii_case) name.
Proof.
  intros Hn. unfold normalizeToolName.
  by rewrite toLowerCase_ascii by by apply is_ascii_trim.
Qed.

Lemma compilePattern_ascii (pattern : jsstring) :
  is_ascii pattern = true →
  compilePattern pattern = compilePattern (H:=ascii_case) pattern.
Proof. intros Hp. unfold compilePattern. by rewrite normalizeToolName_ascii. Qed.

Lemma compilePatterns_ascii (patterns : list jsstring) :
  forallb is_ascii patterns = true →
  compilePatterns patterns = compilePatterns (H:=ascii_case) patterns.
Proof.
  unfold compilePatterns. induction patterns as [|p ps IH]; simpl; [done|].
  intros [Hp Hps]%andb_prop. by rewrite compilePattern_ascii, IH.
Qed.

Lemma isToolAllowed_ascii (name : jsstring) (policy : ToolPolicy.ToolPolicy) :
  is_ascii name = true →
  forallb is_ascii (default [] (deny policy)) = true →
  forallb is_ascii (default [] (allow policy)) = true →
  isToolAllowed name (Some policy)
  = isToolAllowed (H:=ascii_case) name (Some policy).
Proof.
  intros Hn Hd Ha. unfold isToolAllowed.
  by rewrite normalizeToolName_ascii, !compilePatterns_ascii.
Qed.

Lemma matchesAny_true_iff (name : jsstring) (patterns : list CompiledPattern) :
  matchesAny name patterns = true
  ↔ ∃ pattern, pattern ∈ patterns ∧ matchesOne name pattern = true.
Proof.
  induction patterns as [|p ps IH]; simpl.
  - split; [done|]. intros (? & Hin & _). by apply elem_of_nil in Hin.
  - destruct (matchesOne name p) eqn:E.
    + split; [|done]. intros _. exists p. split; [left|done].
    + rewrite IH. split.
      * intros (q & Hin & Hq). exists q. split; [by right|done].
      * intros (q & Hin & Hq). apply elem_of_cons in Hin as [->|Hin].
        -- congruence.
        -- by exists q.
Qed.

Lemma matchesAny_compilePatterns (name : jsstring) (patterns : list jsstring) :
  matchesAny name (compilePatterns patterns) = true
  ↔ ∃ p, p ∈ patterns ∧ matchesOne name (compilePattern p) = true.
Proof.
  rewrite matchesAny_true_iff. unfold compilePatterns. split.
  - intros (cp & Hin & Hm). apply list_elem_of_fmap in Hin as (p & -> & Hp).
    by exists p.
  - intros (p & Hp & Hm). exists (compilePattern p). split; [|done].
    apply list_elem_of_fmap. by exists p.
Qed.

End WithCaseMapping.

(** C1. [isToolAllowed] allows when no policy is given. Given a policy, a
    name (as normalized) that matches some compiled deny pattern is denied
    whatever the allow list holds; otherwise an empty allow list allows;
    otherwise the name is allowed exactly when it matches some compiled
    allow pattern. So ["exec"] is denied under [{deny: ["exec*"]}] and
    ["exec_python"] is denied under
    [{allow: ["exec*"], deny: ["exec_python"]}]. *)
Theorem C1_isToolAllowed_decision `{CaseMapping} :
  (∀ name, isToolAllowed name None = true)
  ∧ (∀ name policy,
       let n := normalizeToolName name in
       let denies := default [] (deny policy) in
       let allows := default [] (allow policy) in
       let denied :=
         ∃ d, d ∈ denies ∧ matchesOne n (compilePattern d) = true in
       let allowed :=
         ∃ a, a ∈ allows ∧ matchesOne n (compilePattern a) = true in
       (denied → isToolAllowed name (Some policy) = false)
       ∧ (¬ denied → allows = [] → isToolAllowed name (Some policy) = true)
       ∧ (¬ denied → allows ≠ [] →
          (isToolAllowed name (Some policy) = true ↔ allowed)))
  ∧ isToolAllowed (str "exec")
      (Some {| allow := None; deny := Some [str "exec*"] |}) = false
  ∧ isToolAllowed (str "exec_python")
      (Some {| allow := Some [str "exec*"];
               deny := Some [str "exec_python"] |}) = false.
Proof.
  split; [done|]. split.
  - intros name policy n denies allows denied allowed.
    unfold isToolAllowed. fold n. fold denies. fold allows.
    destruct (matchesAny n (compilePatterns denies)) eqn:Ed.
    + apply matchesAny_compilePatterns in Ed.
      split; [done|]. split; intros Hnd; by destruct Hnd.
    + assert (Hnd : ¬ denied).
      { intros Hd. apply matchesAny_compilePatterns in Hd. congruence. }
      split; [done|]. split.
      * intros _ ->. done.
      * intros _ Hne. unfold compilePatterns at 1.
        rewrite length_map.
        destruct allows as [|a l]; [done|]. simpl Nat.eqb.
        apply matchesAny_compilePatterns.
  - split; (rewrite isToolAllowed_ascii by reflexivity); vm_compute; reflexivity.
Qed.

(** *** The escaping chain of [compilePattern] *)

Lemma is_syntax_char_special (c : N) : is_syntax_char c = is_regex_special c.
Proof.
  unfold is_syntax_char, is_regex_special.
  repeat match goal with
  | |- context [(c =? ?k)%N] =>
      destruct (N.eqb_spec c k); [subst; vm_compute; reflexivity|]
  end; reflexivity.
Qed.

Lemma escapeRegex_no_leading_star (s : jsstring) :
  starts_with_star (escapeRegex s) = false.
Proof.
  destruct s as [|c t]; [done|]. unfold escapeRegex. simpl.
  destruct (is_regex_special c) eqn:E; [done|]. simpl.
  destruct (N.eqb_spec c 42); [subst; discriminate E|done].
Qed.

Lemma replaceAll_escaped (s : jsstring) :
  replaceAll (str "\*") (str ".*") (escapeRegex s)
  = flat_map wildcard_source s.
Proof.
  unfold replaceAll. change (str "\*") with [92%N; 42%N].
  induction s as [|c t IH]; [done|].
  change (escapeRegex (c :: t))
    with ((if is_regex_special c then [92%N; c] else [c]) ++ escapeRegex t).
  change (flat_map wildcard_source (c :: t))
    with (wildcard_source c ++ flat_map wildcard_source t).
  rewrite <- IH. unfold wildcard_source.
  pose proof (escapeRegex_no_leading_star t) as Hhd.
  destruct (N.eqb_spec c 42) as [->|Hc42]; [done|].
  destruct (is_regex_special c) eqn:Hsp.
  - cbn -[N.eqb]. change (92 =? 92)%N with true.
    rewrite (proj2 (N.eqb_neq 42 c)) by done. cbn -[N.eqb]. f_equal.
    destruct (N.eqb_spec 92 c) as [<-|Hc92]; [|done].
    destruct (escapeRegex t) as [|d u]; [done|]. simpl in Hhd.
    cbn -[N.eqb]. rewrite N.eqb_sym, Hhd. done.
  - assert (c ≠ 92%N) by (intros ->; discriminate Hsp).
    cbn -[N.eqb]. rewrite (proj2 (N.eqb_neq 92 c)) by done. done.
Qed.

Lemma wildcard_source_no_leading_star (s : jsstring) :
  starts_with_star (flat_map wildcard_source s ++ [36%N]) = false.
Proof.
  destruct s as [|c t]; [done|]. simpl. unfold wildcard_source at 1.
  destruct (N.eqb_spec c 42) as [->|Hc]; [done|].
  destruct (is_regex_special c); simpl; [done|]. by apply N.eqb_neq.
Qed.

Lemma parse_wildcard_source (s : jsstring) :
  parse_items (flat_map wildcard_source s ++ [36%N])
  = Some (map wildcard_item s, true).
Proof.
  induction s as [|c t IH]; [done|].
  change (flat_map wildcard_source (c :: t))
    with (wildcard_source c ++ flat_map wildcard_source t).
  change (map wildcard_item (c :: t))
    with (wildcard_item c :: map wildcard_item t).
  pose proof (wildcard_source_no_leading_star t) as Hhd.
  rewrite <- app_assoc.
  set (R := flat_map wildcard_source t ++ [36%N]) in *.
  unfold wildcard_source, wildcard_item.
  destruct (N.eqb_spec c 42) as [->|Hc42].
  - change (str ".*" ++ R) with (46%N :: 42%N :: R).
    cbn. by rewrite IH.
  - destruct (is_regex_special c) eqn:Hsp.
    + change ([92%N; c] ++ R) with (92%N :: c :: R).
      cbn -[is_syntax_char N.eqb].
      change (92 =? 36)%N with false. change (92 =? 92)%N with true.
      cbv iota. rewrite is_syntax_char_special, Hsp.
      destruct R as [|q u]; [discriminate IH|].
      simpl in Hhd. by rewrite Hhd, IH.
    + assert (c ≠ 36%N) by (intros ->; discriminate Hsp).
      assert (c ≠ 92%N) by (intros ->; discriminate Hsp).
      assert (c ≠ 46%N) by (intros ->; discriminate Hsp).
      change ([c] ++ R) with (c :: R).
      cbn -[is_syntax_char N.eqb].
      rewrite !(proj2 (N.eqb_neq c _)) by done.
      rewrite is_syntax_char_special, Hsp. cbv iota. simpl andb. cbv iota.
      destruct R as [|q u]; [discriminate IH|].
      simpl in Hhd. by rewrite Hhd, IH.
Qed.

Lemma match_items_star (eol : bool) (a : RAtom) (r : list RItem) (s : jsstring) :
  match_items eol (IStar a :: r) s
  = match_items eol r s
    || match s with
       | c :: s' => atom_matches a c && match_items eol (IStar a :: r) s'
       | [] => false
       end.
Proof. by destruct s. Qed.

Lemma match_star_dot_iff (r : list RItem) (s : jsstring) :
  match_items true (IStar ADot :: r) s = true
  ↔ ∃ s1 s2, s = s1 ++ s2
      ∧ Forall (λ c, is_line_terminator c = false) s1
      ∧ match_items true r s2 = true.
Proof.
  induction s as [|c t IH]; rewrite match_items_star.
  - rewrite orb_false_r. split.
    + intros Hm. by exists [], [].
    + intros (s1 & s2 & Heq & _ & Hm).
      symmetry in Heq. apply app_eq_nil in Heq as [-> ->]. done.
  - split.
    + intros [Hm|[Hc Hm]%andb_prop]%orb_prop.
      * by exists [], (c :: t).
      * apply IH in Hm as (s1 & s2 & -> & Hs1 & Hm).
        exists (c :: s1), s2. split; [done|]. split; [|done].
        constructor; [|done]. simpl in Hc. by apply negb_true_iff.
    + intros (s1 & s2 & Heq & Hs1 & Hm). apply orb_true_iff.
      destruct s1 as [|d s1]; simpl in Heq.
      * left. by subst.
      * right. injection Heq as <- ->. inversion Hs1 as [|? ? Hd Hs1']; subst.
        apply andb_true_iff. split; [simpl; by rewrite Hd|].
        apply IH. by exists s1, s2.
Qed.

Lemma match_wildcard_items (p s : jsstring) :
  match_items true (map wildcard_item p) s = true ↔ wildcard_match p s.
Proof.
  revert s. induction p as [|c p IH]; intros s.
  - simpl. rewrite bool_decide_eq_true. split.
    + intros ->. constructor.
    + by inversion 1.
  - change (map wildcard_item (c :: p))
      with (wildcard_item c :: map wildcard_item p).
    unfold wildcard_item at 1. destruct (N.eqb_spec c 42) as [->|Hc].
    + rewrite match_star_dot_iff. split.
      * intros (s1 & s2 & -> & Hs1 & Hm). constructor; [done|]. by apply IH.
      * inversion 1 as [|? ? ? Hne|? s1 s2 Hs1 Hm]; subst; [done|].
        exists s1, s2. split; [done|]. split; [done|]. by apply IH.
    + destruct s as [|d s]; simpl.
      * split; [done|]. by inversion 1.
      * rewrite andb_true_iff, IH, N.eqb_eq. split.
        -- intros [-> Hm]. by constructor.
        -- inversion 1; subst; done.
Qed.

(** [compilePattern] never hands [new RegExp] a text that is no regular
    expression. *)
Lemma compilePattern_regex_parses `{CaseMapping} (pattern source : jsstring) :
  compilePattern pattern = Regex source →
  RegExp_new source
  = Some {| re_bol := true;
            re_items := map wildcard_item (normalizeToolName pattern);
            re_eol := true |}.
Proof.
  unfold compilePattern. repeat case_bool_decide; try done.
  destruct (negb _); [done|]. intros [= <-].
  rewrite replaceAll_escaped. change (str "^") with [94%N].
  change (str "$") with [36%N]. simpl.
  by rewrite parse_wildcard_source.
Qed.

(** C2. A pattern with a wildcard is compiled by escaping every
    regex-significant unit, then turning each escaped wildcard into the
    any-sequence token, between the two anchors. The text so built is a
    regular expression in which every unit of the normalized pattern but
    the wildcard stands for itself, so the compiled pattern matches exactly
    the wildcard language of the normalized pattern; a pattern without
    wildcard matches its normalized text only. For ["a.b*"], ["a.bcd"]
    matches and ["axbcd"] does not. *)
Theorem C2_wildcard_compilation `{CaseMapping} :
  (∀ pattern,
     let n := normalizeToolName pattern in
     includes 42%N n = true → n ≠ str "*" →
     let source :=
       str "^" ++ replaceAll (str "\*") (str ".*") (escapeRegex n) ++ str "$" in
     compilePattern pattern = Regex source
     ∧ source = str "^" ++ flat_map wildcard_source n ++ str "$"
     ∧ RegExp_new source
       = Some {| re_bol := true; re_items := map wildcard_item n;
                 re_eol := true |}
     ∧ ∀ name,
         matchesAny name [compilePattern pattern] = true
         ↔ wildcard_match n name)
  ∧ (∀ pattern name,
       let n := normalizeToolName pattern in
       includes 42%N n = false →
       matchesAny name [compilePattern pattern] = true ↔ name = n)
  ∧ matchesAny (str "a.bcd") (compilePatterns [str "a.b*"]) = true
  ∧ matchesAny (str "axbcd") (compilePatterns [str "a.b*"]) = false.
Proof.
  split; [|split].
  2:{ intros pattern name n Hstar. unfold compilePattern. fold n.
      case_bool_decide as Hnil.
      - simpl. rewrite Hnil. case_bool_decide; split; (done || congruence).
      - case_bool_decide as Hall; [by rewrite Hall in Hstar|].
        rewrite Hstar. simpl. case_bool_decide; split; (done || congruence). }
  - intros pattern n Hstar Hne source.
    assert (Hcp : compilePattern pattern = Regex source).
    { unfold compilePattern. fold n.
      rewrite bool_decide_eq_false_2 by (by intros ->).
      rewrite bool_decide_eq_false_2 by done.
      by rewrite Hstar. }
    pose proof (compilePattern_regex_parses _ _ Hcp) as Hre. fold n in Hre.
    split; [done|]. split; [unfold source; by rewrite replaceAll_escaped|].
    split; [done|]. intros name. simpl. rewrite Hcp. simpl.
    unfold regex_test. rewrite Hre. unfold RegExp_test. simpl.
    rewrite <- match_wildcard_items.
    by destruct (match_items _ _ _).
  - split; (rewrite compilePatterns_ascii by reflexivity); vm_compute;
      reflexivity.
Qed.

(** C2 at the pattern ["a.b*"]. *)
Lemma C2_wildcard_compilation_witness :
  includes 42%N (normalizeToolName (H:=ascii_case) (str "a.b*")) = true
  ∧ normalizeToolName (H:=ascii_case) (str "a.b*") ≠ str "*"
  ∧ compilePattern (H:=ascii_case) (str "a.b*") = Regex (str "^a\.b.*$")
  ∧ wildcard_match (str "a.b*") (str "a.bcd")
  ∧ ¬ wildcard_match (str "a.b*") (str "axbcd").
Proof.
  assert (Hstar : includes 42%N (normalizeToolName (H:=ascii_case) (str "a.b*"))
                  = true) by reflexivity.
  assert (Hne : normalizeToolName (H:=ascii_case) (str "a.b*") ≠ str "*")
    by discriminate.
  destruct (proj1 (C2_wildcard_compilation (H:=ascii_case)) (str "a.b*")
              Hstar Hne) as (Hcompile & _ & _ & Hmatch).
  split; [done|]. split; [done|]. split; [exact Hcompile|]. split.
  - apply (Hmatch (str "a.bcd")). reflexivity.
  - intros Hm. apply (Hmatch (str "axbcd")) in Hm. discriminate Hm.
Defined.

(** C10. The decision is taken on the trimmed, lower-cased tool name: a
    name and its normalized form get the same answer under every policy. *)
Theorem C10_isToolAllowed_normalizes_name `{CaseMapping} :
  ∀ (name : jsstring) (policy : option ToolPolicy.ToolPolicy),
    isToolAllowed name policy = isToolAllowed (normalizeToolName name) policy
    ∧ isToolAllowed name policy = isToolAllowed (toLowerCase (trim name)) policy.
Proof.
  intros name policy. split; [|fold (normalizeToolName name)];
    (destruct policy as [policy|]; [|done]);
    unfold isToolAllowed; by rewrite normalizeToolName_idem.
Qed.

End ToolPolicyFacts.

(** ** Command names *)

Module SanitizeFacts.
Import Skills JSFacts.

Lemma Forall_drop_while (Q : N → Prop) (p : N → bool) (s : jsstring) :
  Forall Q s → Forall Q (drop_while p s).
Proof.
  induction 1 as [|c t Hc Ht IH]; simpl; [done|].
  destruct (p c); [done|]. by constructor.
Qed.

Lemma Forall_take_while (Q : N → Prop) (p : N → bool) (s : jsstring) :
  Forall Q s → Forall Q (take_while p s).
Proof.
  induction 1 as [|c t Hc Ht IH]; simpl; [done|].
  destruct (p c); [|done]. by constructor.
Qed.

Lemma Forall_trim (Q : N → Prop) (s : jsstring) : Forall Q s → Forall Q (trim s).
Proof.
  intros Hs. unfold trim, trimEnd, trimStart.
  apply List.Forall_rev, Forall_drop_while.
  by apply List.Forall_rev, Forall_drop_while.
Qed.

Lemma Forall_strip_underscores (Q : N → Prop) (s : jsstring) :
  Forall Q s → Forall Q (strip_underscores s).
Proof.
  intros Hs. unfold strip_underscores.
  apply List.Forall_rev, Forall_drop_while.
  by apply List.Forall_rev, Forall_drop_while.
Qed.

(** What a run replacement leaves is made of the replacement text and of
    the units outside the class. *)
Lemma Forall_replace_runs_from (Q : N → Prop) (p : N → bool)
    (rep : jsstring) (in_run : bool) (s : jsstring) :
  Forall Q rep → (∀ c, p c = false → Q c) →
  Forall Q (replace_runs_from p rep in_run s).
Proof.
  intros Hrep Hq. revert in_run.
  induction s as [|c t IH]; intros in_run; simpl; [done|].
  destruct (p c) eqn:E.
  - apply Forall_app. split; [by destruct in_run|apply IH].
  - constructor; [by apply Hq|apply IH].
Qed.

Lemma Forall_replace_runs_keep (Q : N → Prop) (p : N → bool)
    (rep : jsstring) (in_run : bool) (s : jsstring) :
  Forall Q rep → Forall Q s → Forall Q (replace_runs_from p rep in_run s).
Proof.
  intros Hrep Hs. revert in_run.
  induction Hs as [|c t Hc Ht IH]; intros in_run; simpl; [done|].
  destruct (p c).
  - apply Forall_app. split; [by destruct in_run|apply IH].
  - constructor; [done|apply IH].
Qed.

Section WithCaseMapping.
Context `{CaseMapping}.

(** Before the cut to 32 units and the fallback: lower-cased, runs outside
    the alphabet and runs of underscores collapsed, underscores trimmed. *)
Lemma sanitize_normalized_alphabet (raw : jsstring) :
  Forall (λ c, is_command_char c = true)
    (strip_underscores
       (replace_runs is_underscore (str "_")
          (replace_runs (λ c, negb (is_command_char c)) (str "_")
             (toLowerCase raw)))).
Proof.
  apply Forall_strip_underscores. unfold replace_runs.
  apply Forall_replace_runs_keep; [by repeat constructor|].
  apply Forall_replace_runs_from; [by repeat constructor|].
  intros c Hc. by apply negb_false_iff.
Qed.

Lemma sanitizeCommandName_alphabet (raw : jsstring) :
  Forall (λ c, is_command_char c = true) (sanitizeCommandName raw).
Proof.
  unfold sanitizeCommandName.
  pose proof (sanitize_normalized_alphabet raw) as Hn.
  apply (Forall_take _ COMMAND_MAX_LENGTH) in Hn. unfold slice0.
  destruct (take _ _); [|done].
  unfold COMMAND_FALLBACK. by repeat constructor.
Qed.

Lemma sanitizeCommandName_length (raw : jsstring) :
  1 ≤ length (sanitizeCommandName raw) ≤ COMMAND_MAX_LENGTH.
Proof.
  unfold sanitizeCommandName, slice0.
  match goal with |- context [take ?n ?s] =>
    pose proof (length_take_le s n) as Hlen;
    assert (Hle : length (take n s) ≤ n) by (rewrite length_take; lia);
    destruct (take n s) as [|c t]
  end.
  - unfold COMMAND_FALLBACK, COMMAND_MAX_LENGTH. simpl. lia.
  - simpl in *. lia.
Qed.

End WithCaseMapping.

(** C4. For every input, the sanitized command name has between 1 and 32
    units, all in [[a-z0-9_]]; an input that normalizes to the empty string
    gives exactly ["skill"], as the empty input and an input of punctuation
    only do. *)
Theorem C4_sanitizeCommandName_shape `{CaseMapping} :
  (∀ raw : jsstring,
     let normalized :=
       strip_underscores
         (replace_runs is_underscore (str "_")
            (replace_runs (λ c, negb (is_command_char c)) (str "_")
               (toLowerCase raw))) in
     1 ≤ length (sanitizeCommandName raw) ≤ 32
     ∧ Forall (λ c, (97 ≤ c ≤ 122 ∨ 48 ≤ c ≤ 57 ∨ c = 95)%N)
         (sanitizeCommandName raw)
     ∧ (normalized = [] → sanitizeCommandName raw = str "skill")
     ∧ (normalized ≠ [] → sanitizeCommandName raw = take 32 normalized)
     ∧ (Forall (λ c, is_command_char c = false) (toLowerCase raw) →
        sanitizeCommandName raw = str "skill"))
  ∧ sanitizeCommandName [] = str "skill"
  ∧ sanitizeCommandName (str "!!!") = str "skill"
  ∧ sanitizeCommandName (str "__ -- __") = str "skill"
  ∧ sanitizeCommandName (str "Deploy Service") = str "deploy_service".
Proof.
  split.
  2:{ unfold sanitizeCommandName.
      rewrite (toLowerCase_ascii []), (toLowerCase_ascii (str "!!!")),
        (toLowerCase_ascii (str "__ -- __")),
        (toLowerCase_ascii (str "Deploy Service")) by reflexivity.
      repeat split; vm_compute; reflexivity. }
  intros raw normalized. split; [apply sanitizeCommandName_length|].
  split.
  { eapply Forall_impl; [apply sanitizeCommandName_alphabet|].
    intros c. unfold is_command_char. cbv beta.
    rewrite !orb_true_iff, !andb_true_iff, !N.leb_le, N.eqb_eq. tauto. }
  split; [|split].
  - intros Hn. unfold sanitizeCommandName. fold normalized. by rewrite Hn.
  - intros Hn. unfold sanitizeCommandName. fold normalized.
    unfold slice0, COMMAND_MAX_LENGTH.
    destruct normalized as [|c t]; [done|]. done.
  - intros Hlow. unfold sanitizeCommandName.
    assert (Hrun : ∀ s,
      Forall (λ c, is_command_char c = false) s →
      replace_runs_from (λ c, negb (is_command_char c)) (str "_") true s = []).
    { induction 1 as [|c t Hc Ht IH]; simpl; [done|]. by rewrite Hc. }
    unfold replace_runs at 2.
    destruct Hlow as [|c t Hc Ht]; [done|].
    simpl. rewrite Hc. simpl. by rewrite Hrun.
Qed.

End SanitizeFacts.

(** ** Prompt formatting *)

Module PromptFacts.
Import SkillPrimitives.

Lemma escapeXml_escaped (s : jsstring) : xml_escaped (escapeXml s).
Proof.
  induction s as [|c t IH]; [constructor|].
  change (escapeXml (c :: t))
    with ((if is_xml_reserved c then XML_ESCAPE c else [c]) ++ escapeXml t).
  destruct (is_xml_reserved c) eqn:E; [|by constructor].
  apply xe_entity; [|done]. unfold XML_ESCAPE, xml_entities.
  unfold is_xml_reserved in E.
  repeat match goal with
  | |- context [(c =? ?k)%N] => destruct (N.eqb_spec c k); [set_solver|]
  end.
  discriminate E.
Qed.

Lemma escapeXml_no_raw (s : jsstring) :
  Forall (λ c, c ≠ 60 ∧ c ≠ 62 ∧ c ≠ 34 ∧ c ≠ 39)%N (escapeXml s).
Proof.
  induction s as [|c t IH]; [constructor|].
  change (escapeXml (c :: t))
    with ((if is_xml_reserved c then XML_ESCAPE c else [c]) ++ escapeXml t).
  apply Forall_app. split; [|done].
  unfold XML_ESCAPE, is_xml_reserved.
  repeat match goal with
  | |- context [(c =? ?k)%N] =>
      destruct (N.eqb_spec c k);
      [subst; simpl; repeat constructor; done|]
  end.
  simpl. repeat constructor; done.
Qed.

Lemma filter_idem {A : Type} (f : A → bool) (l : list A) :
  List.filter f (List.filter f l) = List.filter f l.
Proof.
  induction l as [|x l IH]; simpl; [done|].
  destruct (f x) eqn:E; simpl; [rewrite E|]; by rewrite ?IH.
Qed.

(** C7. The prompt is built from the skills whose [disableModelInvocation]
    is not set. With none left it is the empty string; otherwise it is the
    header, the lines of each visible skill and the closing tag. In every
    rendered field the five reserved units occur only as their entities:
    no raw [<], [>] or quote is left, and every [&] starts an entity. *)
Theorem C7_formatSkillsForPrompt :
  (∀ skills : list Skill.t,
     let visible :=
       List.filter (λ s, negb (Skill.disableModelInvocation s)) skills in
     (∀ s, In s visible ↔ In s skills ∧ Skill.disableModelInvocation s = false)
     ∧ formatSkillsForPrompt skills = formatSkillsForPrompt visible
     ∧ (visible = [] → formatSkillsForPrompt skills = [])
     ∧ (visible ≠ [] →
        formatSkillsForPrompt skills
        = join [10%N]
            (prompt_header ++ flat_map skill_lines visible
             ++ [str "</available_skills>"])
        ∧ formatSkillsForPrompt skills ≠ []))
  ∧ (∀ s : Skill.t,
       skill_lines s
       = [ str "  <skill>";
           str "    <name>" ++ escapeXml (Skill.name s) ++ str "</name>";
           str "    <description>" ++ escapeXml (Skill.description s)
             ++ str "</description>";
           str "    <location>" ++ escapeXml (Skill.filePath s)
             ++ str "</location>";
           str "  </skill>" ])
  ∧ (∀ field : jsstring,
       xml_escaped (escapeXml field)
       ∧ Forall (λ c, c ≠ 60 ∧ c ≠ 62 ∧ c ≠ 34 ∧ c ≠ 39)%N (escapeXml field))
  ∧ escapeXml [60; 38; 34; 62; 39]%N = str "&lt;&amp;&quot;&gt;&apos;"
  ∧ escapeXml (str "a < b & c") = str "a &lt; b &amp; c".
Proof.
  split; [|split; [done|split; [|split; reflexivity]]].
  - intros skills visible. split; [|split; [|split]].
    + intros s. unfold visible. rewrite filter_In, negb_true_iff. done.
    + unfold formatSkillsForPrompt, visible. by rewrite filter_idem.
    + intros Hv. unfold formatSkillsForPrompt. fold visible. by rewrite Hv.
    + intros Hv. unfold formatSkillsForPrompt. fold visible.
      destruct visible as [|s l]; [done|]. split; [done|].
      discriminate.
  - intros field. split; [apply escapeXml_escaped|apply escapeXml_no_raw].
Qed.

End PromptFacts.

(** ** Scanning *)

Module ScanFacts.
Import SkillPrimitives.

(** Induction on a directory tree: a listed directory has the property when
    its entries have it. *)
Lemma DirNode_ind (P : DirNode → Prop) :
  P NotDir →
  P (Dir Throws) →
  (∀ entries, Forall (λ e, P e.2) entries → P (Dir (Returns entries))) →
  ∀ node, P node.
Proof.
  intros HN HT HD. fix IH 1. intros [|[entries|]]; [done| |done].
  apply HD. induction entries as [|[entryName child] rest IHrest].
  - constructor.
  - constructor; [apply IH|apply IHrest].
Qed.

Section WithEnvironment.
Context `{CaseMapping} `{PathModule} (fs : FileSystem).

Lemma loadSkillFromFile_cases (filePath baseDir source : jsstring) :
  loadSkillFromFile fs filePath baseDir source = Returns None
  ∨ ∃ content skill,
      readFile fs filePath = Returns content
      ∧ loadSkillFromFile fs filePath baseDir source = Returns (Some skill)
      ∧ Skill.description skill
        = or_else (trim <$> extractFrontmatter content !! str "description") []
      ∧ described skill.
Proof.
  unfold loadSkillFromFile.
  destruct (readFile fs filePath) as [content|]; simpl; [|by left].
  case_bool_decide as Hd; [by left|]. right.
  eexists content, _. split; [done|]. split; [done|]. split; done.
Qed.

Lemma push_opt_described (skills : list Skill.t) (filePath baseDir source : jsstring) :
  Forall described skills →
  ∃ skill,
    loadSkillFromFile fs filePath baseDir source = Returns skill
    ∧ Forall described (push_opt skills skill).
Proof.
  intros Hs.
  destruct (loadSkillFromFile_cases filePath baseDir source)
    as [->|(content & skill & _ & -> & _ & Hd)].
  - by exists None.
  - exists (Some skill). split; [done|]. simpl.
    apply Forall_app. split; [done|]. by constructor.
Qed.

Lemma scanSubdirs_returns (node : DirNode) :
  ∀ dir source,
    ∃ skills,
      scanSubdirs fs node dir source = Returns skills
      ∧ Forall described skills.
Proof.
  induction node as [| |entries IH] using DirNode_ind; intros dir source;
    [by exists []|by exists []|].
  simpl.
  assert (Hloop : ∀ acc, Forall described acc →
    ∃ skills,
      (fix loop (entries : list (jsstring * DirNode)) (skills : list Skill.t)
         : outcome (list Skill.t) :=
         match entries with
         | [] => Returns skills
         | (entryName, child) :: rest =>
             if skipped entryName then loop rest skills
             else if negb (isDirectory child) then loop rest skills
             else
               let fullPath := path_join dir entryName in
               bind (loadSkillFromFile fs
                       (path_join fullPath (str "SKILL.md")) fullPath source)
                 (λ skill,
                    let skills := push_opt skills skill in
                    bind (scanSubdirs fs child fullPath source)
                      (λ sub, loop rest (skills ++ sub)))
         end) entries acc = Returns skills
      ∧ Forall described skills); [|by apply Hloop].
  induction IH as [|[entryName child] rest Hchild _ IHrest]; intros acc Hacc.
  - by exists acc.
  - destruct (skipped entryName); [by apply IHrest|].
    destruct (negb (isDirectory child)); [by apply IHrest|].
    cbv zeta.
    destruct (push_opt_described acc
                (path_join (path_join dir entryName) (str "SKILL.md"))
                (path_join dir entryName) source Hacc) as (skill & -> & Hpush).
    simpl bind. simpl in Hchild.
    destruct (Hchild (path_join dir entryName) source) as (sub & -> & Hsub).
    simpl bind. apply IHrest. apply Forall_app. done.
Qed.

Lemma loadSkillsFromDir_loop_returns (dir source : jsstring)
    (entries : list (jsstring * DirNode)) :
  ∀ acc, Forall described acc →
    ∃ skills,
      loadSkillsFromDir_loop fs dir source entries acc = Returns skills
      ∧ Forall described skills.
Proof.
  induction entries as [|[entryName child] rest IH]; intros acc Hacc.
  - by exists acc.
  - simpl. destruct (skipped entryName); [by apply IH|].
    destruct (isDirectory child).
    + destruct (push_opt_described acc
                  (path_join (path_join dir entryName) (str "SKILL.md"))
                  (path_join dir entryName) source Hacc)
        as (skill & -> & Hpush).
      simpl bind.
      destruct (scanSubdirs_returns child (path_join dir entryName) source)
        as (sub & -> & Hsub).
      simpl bind. apply IH. apply Forall_app. done.
    + destruct (endsWith (str ".md") entryName); [|by apply IH].
      destruct (push_opt_described acc (path_join dir entryName) dir source
                  Hacc) as (skill & -> & Hpush).
      simpl bind. by apply IH.
Qed.

Lemma loadSkillsFromDir_returns (dir source : jsstring) :
  ∃ skills,
    loadSkillsFromDir fs dir source = Returns skills
    ∧ Forall described skills.
Proof.
  unfold loadSkillsFromDir. destruct (readdir (dirAt fs dir)) as [entries|].
  - by apply loadSkillsFromDir_loop_returns.
  - by exists [].
Qed.

End WithEnvironment.

(** C8. A scan returns and never throws, whatever the file system holds.
    When the root cannot be listed (no such directory, not a directory, no
    permission) the result is empty. A candidate file that cannot be read,
    or whose frontmatter has no [description] or one that trims to the
    empty string, gives no skill, and no error either: every skill a scan
    returns has a description. *)
Theorem C8_scan_never_fails `{CaseMapping} `{PathModule} :
  ∀ (fs : FileSystem) (dir source : jsstring),
    (∃ skills,
       loadSkillsFromDir fs dir source = Returns skills
       ∧ Forall (λ s, Skill.description s ≠ []) skills)
    ∧ (readdir (dirAt fs dir) = Throws →
       loadSkillsFromDir fs dir source = Returns [])
    ∧ (dirAt fs dir = NotDir → loadSkillsFromDir fs dir source = Returns [])
    ∧ (∀ filePath baseDir,
         (∃ skill,
            loadSkillFromFile fs filePath baseDir source = Returns skill)
         ∧ (readFile fs filePath = Throws →
            loadSkillFromFile fs filePath baseDir source = Returns None)
         ∧ (∀ content,
              readFile fs filePath = Returns content →
              let description :=
                extractFrontmatter content !! str "description" in
              (description = None ∨ ∃ d, description = Some d ∧ trim d = []) →
              loadSkillFromFile fs filePath baseDir source = Returns None)).
Proof.
  intros fs dir source. split; [apply loadSkillsFromDir_returns|].
  split; [|split].
  - intros Hdir. unfold loadSkillsFromDir. by rewrite Hdir.
  - intros Hdir. unfold loadSkillsFromDir. by rewrite Hdir.
  - intros filePath baseDir. split; [|split].
    + destruct (loadSkillFromFile_cases fs filePath baseDir source)
        as [->|(? & skill & _ & -> & _)]; eauto.
    + intros Hread. unfold loadSkillFromFile. by rewrite Hread.
    + intros content Hread description Hd.
      unfold loadSkillFromFile. rewrite Hread. simpl. fold description.
      destruct Hd as [->|(d & -> & Hd)]; simpl; [done|]. by rewrite Hd.
Qed.

(** C8 on the example file system: a root that is not there, and a note
    whose description is white space. *)
Lemma C8_scan_never_fails_witness :
  loadSkillsFromDir (H:=JSFacts.ascii_case) (H0:=Examples.posix_path)
    Examples.deploy_fs (str "/nowhere") (str "managed") = Returns []
  ∧ loadSkillFromFile (H:=JSFacts.ascii_case) (H0:=Examples.posix_path)
      Examples.deploy_fs (str "/work/skills/notes.md") (str "/work/skills")
      (str "workspace") = Returns None.
Proof.
  destruct (C8_scan_never_fails (H:=JSFacts.ascii_case)
              (H0:=Examples.posix_path) Examples.deploy_fs
              (str "/nowhere") (str "managed")) as (_ & _ & Hroot & _).
  destruct (C8_scan_never_fails (H:=JSFacts.ascii_case)
              (H0:=Examples.posix_path) Examples.deploy_fs
              (str "/work/skills") (str "workspace")) as (_ & _ & _ & Hfile).
  destruct (Hfile (str "/work/skills/notes.md") (str "/work/skills"))
    as (_ & _ & Hdrop).
  split; [by apply Hroot|].
  apply (Hdrop (Examples.text [ str "---"; str "name: notes";
                                str "description:   "; str "---" ]));
    [reflexivity|].
  right. exists (str " "). split; vm_compute; reflexivity.
Defined.

End ScanFacts.

(** ** ASCII text

    On ASCII text every case mapping is the ASCII one, so what the code
    does with ASCII inputs can be computed. *)

Module AsciiFacts.
Import Skills JSFacts SanitizeFacts.

Lemma take_while_forallb (p q : N → bool) (s : jsstring) :
  forallb q s = true → forallb q (take_while p s) = true.
Proof.
  induction s as [|c t IH]; simpl; [done|].
  intros [Hc Ht]%andb_prop. destruct (p c); [|done].
  simpl. by rewrite Hc, IH.
Qed.

Lemma take_forallb (q : N → bool) (n : nat) (s : jsstring) :
  forallb q s = true → forallb q (take n s) = true.
Proof.
  revert n. induction s as [|c t IH]; intros [|n]; simpl; try done.
  intros [Hc Ht]%andb_prop. by rewrite Hc, IH.
Qed.

Lemma last_forallb (q : N → bool) (s : jsstring) (w : N) :
  forallb q s = true → last s = Some w → q w = true.
Proof.
  induction s as [|c t IH]; [done|]. simpl.
  intros [Hc Ht]%andb_prop. destruct t as [|d u]; [by intros [= <-]|].
  intros Hl. by apply IH.
Qed.

Lemma replace_runs_forallb (q p : N → bool) (rep : jsstring) (b : bool)
    (s : jsstring) :
  forallb q rep = true → forallb q s = true →
  forallb q (replace_runs_from p rep b s) = true.
Proof.
  intros Hrep. revert b. induction s as [|c t IH]; intros b; simpl; [done|].
  intros [Hc Ht]%andb_prop. destruct (p c).
  - rewrite forallb_app, IH by done. by destruct b; simpl; rewrite ?Hrep.
  - simpl. by rewrite Hc, IH.
Qed.

Lemma strip_underscores_forallb (q : N → bool) (s : jsstring) :
  forallb q s = true → forallb q (strip_underscores s) = true.
Proof.
  intros Hs. unfold strip_underscores.
  rewrite forallb_rev. apply drop_while_forallb.
  rewrite forallb_rev. by apply drop_while_forallb.
Qed.

Lemma decimal_from_digits (fuel : nat) (n : N) (acc : jsstring) :
  Forall (λ c, 48 ≤ c ≤ 57)%N acc →
  Forall (λ c, 48 ≤ c ≤ 57)%N (decimal_from fuel n acc).
Proof.
  assert (Hdigit : ∀ k, (48 ≤ 48 + k mod 10 ≤ 57)%N).
  { intros k. assert (Hm : (k mod 10 < 10)%N) by (by apply N.mod_lt).
    revert Hm. generalize (k mod 10)%N. intros m Hm. lia. }
  revert n acc. induction fuel as [|fuel IH]; intros n acc Hacc; simpl.
  - by constructor.
  - destruct (n <? 10)%N; [by constructor|]. apply IH. by constructor.
Qed.

Lemma decimal_digits (n : N) : Forall (λ c, 48 ≤ c ≤ 57)%N (decimal n).
Proof. by apply decimal_from_digits. Qed.

Lemma decimal_from_nonempty (fuel : nat) (n : N) (acc : jsstring) :
  decimal_from fuel n acc ≠ [].
Proof.
  revert n acc. induction fuel as [|fuel IH]; intros n acc; simpl; [done|].
  destruct (n <? 10)%N; [done|]. apply IH.
Qed.

Lemma Forall_is_ascii (Q : N → Prop) (s : jsstring) :
  (∀ c, Q c → (c < 128)%N) → Forall Q s → is_ascii s = true.
Proof.
  intros HQ. unfold is_ascii. induction 1 as [|c t Hc Ht IH]; simpl; [done|].
  rewrite IH, andb_true_r. apply N.ltb_lt. by apply HQ.
Qed.

Lemma is_command_char_bounds (c : N) :
  is_command_char c = true ↔ (97 ≤ c ≤ 122 ∨ 48 ≤ c ≤ 57 ∨ c = 95)%N.
Proof.
  unfold is_command_char.
  rewrite !orb_true_iff, !andb_true_iff, !N.leb_le, N.eqb_eq. tauto.
Qed.

Lemma command_chars_ascii (s : jsstring) :
  Forall (λ c, is_command_char c = true) s → is_ascii s = true.
Proof.
  apply Forall_is_ascii. intros c Hc%is_command_char_bounds. lia.
Qed.

Lemma is_ascii_decimal (n : N) : is_ascii (decimal n) = true.
Proof.
  eapply Forall_is_ascii; [|apply decimal_digits]. intros c Hc. simpl in Hc. lia.
Qed.

Lemma is_ascii_app (s t : jsstring) :
  is_ascii s = true → is_ascii t = true → is_ascii (s ++ t) = true.
Proof. unfold is_ascii. intros Hs Ht. by rewrite forallb_app, Hs, Ht. Qed.

Lemma ascii_lower_command_char (c : N) :
  is_command_char c = true → ascii_lower c = c.
Proof.
  intros Hc%is_command_char_bounds. unfold ascii_lower.
  destruct (N.leb_spec 65 c), (N.leb_spec c 90); simpl; try done; lia.
Qed.

Section WithCaseMapping.
Context `{CaseMapping}.

(** A text over the command alphabet is its own lower case. *)
Lemma toLowerCase_command_chars (s : jsstring) :
  Forall (λ c, is_command_char c = true) s → toLowerCase s = s.
Proof.
  intros Hs. rewrite toLowerCase_ascii by by apply command_chars_ascii.
  induction Hs as [|c t Hc Ht IH]; simpl; [done|].
  by rewrite ascii_lower_command_char, IH.
Qed.

Lemma sanitizeCommandName_ascii (raw : jsstring) :
  is_ascii raw = true →
  sanitizeCommandName raw = sanitizeCommandName (H:=ascii_case) raw.
Proof. intros Hr. unfold sanitizeCommandName. by rewrite toLowerCase_ascii. Qed.

Lemma sanitizeCommandName_is_ascii (raw : jsstring) :
  is_ascii (sanitizeCommandName raw) = true.
Proof. apply command_chars_ascii, sanitizeCommandName_alphabet. Qed.

Lemma candidate_is_ascii (base : jsstring) (i : N) :
  is_ascii base = true → is_ascii (candidate base i) = true.
Proof.
  intros Hb. unfold candidate, slice0.
  apply is_ascii_app; [by apply take_forallb|].
  apply is_ascii_app; [done|apply is_ascii_decimal].
Qed.

Lemma fallback_is_ascii (base : jsstring) :
  is_ascii base = true → is_ascii (fallback_name base) = true.
Proof.
  intros Hb. unfold fallback_name, slice0.
  apply is_ascii_app; [by apply take_forallb|done].
Qed.

Lemma resolve_loop_ascii (base : jsstring) (used : gset jsstring)
    (fuel : nat) (i : N) :
  is_ascii base = true →
  resolve_loop base used fuel i = resolve_loop (H:=ascii_case) base used fuel i.
Proof.
  intros Hb. revert i. induction fuel as [|fuel IH]; intros i; simpl; [done|].
  rewrite toLowerCase_ascii by by apply candidate_is_ascii.
  by rewrite IH.
Qed.

Lemma resolveUniqueCommandName_ascii (base : jsstring) (used : gset jsstring) :
  is_ascii base = true →
  resolveUniqueCommandName base used
  = resolveUniqueCommandName (H:=ascii_case) base used.
Proof.
  intros Hb. unfold resolveUniqueCommandName.
  by rewrite toLowerCase_ascii, resolve_loop_ascii.
Qed.

Lemma resolve_loop_is_ascii (base : jsstring) (used : gset jsstring)
    (fuel : nat) (i : N) :
  is_ascii base = true → is_ascii (resolve_loop base used fuel i) = true.
Proof.
  intros Hb. revert i. induction fuel as [|fuel IH]; intros i; simpl.
  - by apply fallback_is_ascii.
  - destruct (i <? 1000)%N; [|by apply fallback_is_ascii].
    destruct (negb _); [by apply candidate_is_ascii|apply IH].
Qed.

Lemma resolveUniqueCommandName_is_ascii (base : jsstring) (used : gset jsstring) :
  is_ascii base = true → is_ascii (resolveUniqueCommandName base used) = true.
Proof.
  intros Hb. unfold resolveUniqueCommandName.
  destruct (negb _); [done|by apply resolve_loop_is_ascii].
Qed.

End WithCaseMapping.

Section Transfer.
Context `{CaseMapping}.

Lemma name_step_ascii (state : gset jsstring * list jsstring) (n : jsstring) :
  is_ascii n = true →
  name_step state n = name_step (H:=ascii_case) state n.
Proof.
  intros Hn. destruct state as [used names]. unfold name_step.
  rewrite sanitizeCommandName_ascii by done.
  rewrite resolveUniqueCommandName_ascii
    by apply (sanitizeCommandName_is_ascii (H:=ascii_case)).
  rewrite toLowerCase_ascii; [done|].
  apply (resolveUniqueCommandName_is_ascii (H:=ascii_case)).
  apply (sanitizeCommandName_is_ascii (H:=ascii_case)).
Qed.

Lemma command_names_ascii (skillNames : list jsstring) :
  forallb is_ascii skillNames = true →
  command_names skillNames = command_names (H:=ascii_case) skillNames.
Proof.
  unfold command_names. generalize (∅ : gset jsstring, [] : list jsstring).
  induction skillNames as [|n l IH]; intros state; simpl; [done|].
  intros [Hn Hl]%andb_prop. by rewrite name_step_ascii, IH.
Qed.

(** The names of the synthesized commands depend on the skill names of the
    invocable entries only. *)
Lemma build_step_names (entries : list SkillEntry.t)
    (used : gset jsstring) (specs : list SkillCommandSpec.t) :
  foldl name_step (used, map SkillCommandSpec.name specs)
    (map (λ e, Skill.name (SkillEntry.skill e)) entries)
  = ((foldl build_step (used, specs) entries).1,
     map SkillCommandSpec.name (foldl build_step (used, specs) entries).2).
Proof.
  revert used specs. induction entries as [|e l IH]; intros used specs;
    [done|].
  simpl. rewrite <- IH. by rewrite map_app.
Qed.

Lemma buildSkillCommandSpecs_names (entries : list SkillEntry.t) :
  map SkillCommandSpec.name (buildSkillCommandSpecs entries)
  = command_names
      (map (λ e, Skill.name (SkillEntry.skill e))
         (List.filter
            (λ e, SkillInvocationPolicy.userInvocable (SkillEntry.invocation e))
            entries)).
Proof.
  unfold buildSkillCommandSpecs, command_names.
  by rewrite (build_step_names _ ∅ []).
Qed.

End Transfer.

End AsciiFacts.

(** ** Merging *)

Module MergeFacts.
Import Skills SkillPrimitives JSFacts AsciiFacts ScanFacts.

Lemma Map_get_set_eq (k : jsstring) (v : Skill.t) (m : list (jsstring * Skill.t)) :
  Map_get k (Map_set k v m) = Some v.
Proof.
  unfold Map_get. induction m as [|[k' v'] m IH]; simpl.
  - by rewrite bool_decide_eq_true_2.
  - case_bool_decide as Hk; simpl.
    + by rewrite bool_decide_eq_true_2.
    + by rewrite bool_decide_eq_false_2.
Qed.

Lemma Map_get_set_ne (k k' : jsstring) (v : Skill.t)
    (m : list (jsstring * Skill.t)) :
  k' ≠ k → Map_get k' (Map_set k v m) = Map_get k' m.
Proof.
  intros Hne. unfold Map_get. induction m as [|[k0 v0] m IH]; simpl.
  - by rewrite bool_decide_eq_false_2.
  - case_bool_decide as Hk; simpl.
    + subst k0. by rewrite !bool_decide_eq_false_2.
    + by destruct (bool_decide (k0 = k')).
Qed.

Lemma Map_set_keys (k x : jsstring) (v : Skill.t)
    (m : list (jsstring * Skill.t)) :
  In x (map fst (Map_set k v m)) ↔ x = k ∨ In x (map fst m).
Proof.
  induction m as [|[k0 v0] m IH]; simpl; [intuition congruence|].
  case_bool_decide as Hk; simpl; [intuition congruence|].
  rewrite IH. intuition congruence.
Qed.

Lemma Map_set_NoDup (k : jsstring) (v : Skill.t) (m : list (jsstring * Skill.t)) :
  List.NoDup (map fst m) → List.NoDup (map fst (Map_set k v m)).
Proof.
  induction m as [|[k0 v0] m IH]; simpl.
  - intros _. repeat constructor. by intros [].
  - intros Hnd. inversion Hnd as [|? ? Hk0 Hm]; subst.
    case_bool_decide as Hk; simpl.
    + subst k0. by constructor.
    + constructor; [|by apply IH].
      rewrite Map_set_keys. intuition congruence.
Qed.

Lemma Map_set_keyed (v : Skill.t) (m : list (jsstring * Skill.t)) :
  keyed m → keyed (Map_set (Skill.name v) v m).
Proof.
  unfold keyed. induction 1 as [|[k0 v0] m Hkv Hm IH]; simpl.
  - by repeat constructor.
  - case_bool_decide; by constructor.
Qed.

Lemma Map_set_In (k : jsstring) (v x : Skill.t) (m : list (jsstring * Skill.t)) :
  In x (Map_values (Map_set k v m)) → x = v ∨ In x (Map_values m).
Proof.
  unfold Map_values. induction m as [|[k0 v0] m IH]; simpl.
  - intros [<-|[]]. by left.
  - case_bool_decide; simpl.
    + intros [<-|Hx]; [by left|by right; right].
    + intros [<-|Hx]; [by right; left|].
      destruct (IH Hx); [by left|by right; right].
Qed.

Lemma merge_into_NoDup (skills : list Skill.t) (m : list (jsstring * Skill.t)) :
  List.NoDup (map fst m) → List.NoDup (map fst (merge_into m skills)).
Proof.
  revert m. induction skills as [|s l IH]; intros m Hm; [done|].
  apply IH. by apply Map_set_NoDup.
Qed.

Lemma merge_into_keyed (skills : list Skill.t) (m : list (jsstring * Skill.t)) :
  keyed m → keyed (merge_into m skills).
Proof.
  revert m. induction skills as [|s l IH]; intros m Hm; [done|].
  apply IH. by apply Map_set_keyed.
Qed.

Lemma merge_into_In (skills : list Skill.t) (m : list (jsstring * Skill.t))
    (x : Skill.t) :
  In x (Map_values (merge_into m skills)) → In x skills ∨ In x (Map_values m).
Proof.
  revert m. induction skills as [|s l IH]; intros m; [by right|].
  intros [Hx|[->|Hx]%Map_set_In]%IH.
  - left. by right.
  - left. by left.
  - by right.
Qed.

(** Last write wins: the value under a name is the last skill of that name
    that was merged in, and what was there before if there is none. *)
Lemma merge_into_get (skills : list Skill.t) (m : list (jsstring * Skill.t))
    (n : jsstring) :
  Map_get n (merge_into m skills)
  = match last (List.filter (λ s, bool_decide (Skill.name s = n)) skills) with
    | Some s => Some s
    | None => Map_get n m
    end.
Proof.
  revert m. induction skills as [|s l IH]; intros m; [done|].
  change (merge_into m (s :: l))
    with (merge_into (Map_set (Skill.name s) s m) l).
  rewrite IH. simpl. case_bool_decide as Hn.
  - rewrite last_cons. subst n. rewrite Map_get_set_eq.
    by destruct (last _).
  - by rewrite Map_get_set_ne.
Qed.

Lemma keyed_find (m : list (jsstring * Skill.t)) (n : jsstring) :
  keyed m →
  List.find (λ s, bool_decide (Skill.name s = n)) (Map_values m) = Map_get n m.
Proof.
  unfold Map_get, Map_values.
  induction 1 as [|[k v] m Hkv Hm IH]; simpl; [done|].
  simpl in Hkv. rewrite Hkv. by destruct (bool_decide (k = n)).
Qed.

Lemma keyed_names (m : list (jsstring * Skill.t)) :
  keyed m → map Skill.name (Map_values m) = map fst m.
Proof.
  unfold Map_values. induction 1 as [|[k v] m Hkv Hm IH]; simpl; [done|].
  simpl in Hkv. by rewrite Hkv, IH.
Qed.

Section WithEnvironment.
Context `{CaseMapping} `{PathModule} (fs : FileSystem).

Lemma map_skill_enrich (skills : list Skill.t) :
  map SkillEntry.skill (map (enrich fs) skills) = skills.
Proof. induction skills as [|s l IH]; simpl; by rewrite ?IH. Qed.

End WithEnvironment.

(** C5. The merge is keyed on the skill name as it is written and the last
    write wins: the merged skills have distinct names, each came from one
    of the two scans, and the skill found under a name is the last one of
    that name in the managed scan followed by the workspace scan. So for
    ["foo"] in both, the workspace record is the one kept, and
    ["Deploy Service"] (managed) and ["deploy_service"] (workspace) are
    both kept, in that order; when both may be invoked, their commands are
    [deploy_service] and [deploy_service_2]. *)
Theorem C5_merge_last_write_wins `{CaseMapping} `{PathModule} :
  ∀ (fs : FileSystem) (workspaceDir managedDir : jsstring)
    (managed workspace : list Skill.t),
    loadSkillsFromDir fs managedDir (str "managed") = Returns managed →
    loadSkillsFromDir fs (path_join workspaceDir (str "skills"))
      (str "workspace") = Returns workspace →
    ∃ entries,
      loadSkillEntries fs workspaceDir managedDir = Returns entries
      ∧ let skills := map SkillEntry.skill entries in
        List.NoDup (map Skill.name skills)
        ∧ (∀ s, In s skills → In s managed ∨ In s workspace)
        ∧ (∀ n,
             List.find (λ s, bool_decide (Skill.name s = n)) skills
             = last (List.filter (λ s, bool_decide (Skill.name s = n))
                       (managed ++ workspace)))
        ∧ (∀ A B,
             In A managed → Skill.name A = Skill.name B →
             last (List.filter
                     (λ s, bool_decide (Skill.name s = Skill.name B))
                     workspace) = Some B →
             List.find (λ s, bool_decide (Skill.name s = Skill.name A)) skills
             = Some B)
        ∧ (∀ A B,
             managed = [A] → workspace = [B] →
             Skill.name A = str "foo" → Skill.name B = str "foo" →
             skills = [B])
        ∧ (∀ A B,
             managed = [A] → workspace = [B] →
             Skill.name A = str "Deploy Service" →
             Skill.name B = str "deploy_service" →
             skills = [A; B]
             ∧ (Forall
                  (λ e, SkillInvocationPolicy.userInvocable
                          (SkillEntry.invocation e) = true) entries →
                map SkillCommandSpec.name (buildSkillCommandSpecs entries)
                = [str "deploy_service"; str "deploy_service_2"])).
Proof.
  intros fs workspaceDir managedDir managed workspace Hm Hw.
  eexists. split.
  { unfold loadSkillEntries. rewrite Hm. simpl bind. rewrite Hw. done. }
  cbv zeta. rewrite map_skill_enrich.
  assert (Hkeyed : keyed (merge_into (merge_into [] managed) workspace)).
  { apply merge_into_keyed, merge_into_keyed. constructor. }
  assert (Hfind : ∀ n,
    List.find (λ s, bool_decide (Skill.name s = n))
      (Map_values (merge_into (merge_into [] managed) workspace))
    = last (List.filter (λ s, bool_decide (Skill.name s = n))
              (managed ++ workspace))).
  { intros n. rewrite keyed_find, !merge_into_get by done.
    rewrite List.filter_app, last_app.
    destruct (last (List.filter _ workspace)); [done|].
    by destruct (last (List.filter _ managed)). }
  split; [|split; [|split; [done|split; [|split]]]].
  - rewrite keyed_names by done.
    apply merge_into_NoDup, merge_into_NoDup. constructor.
  - intros s Hs. apply merge_into_In in Hs as [Hs|Hs]; [by right|].
    apply merge_into_In in Hs as [Hs|Hs]; [by left|]. destruct Hs.
  - intros A B HA Hname HB. rewrite Hfind, List.filter_app, last_app.
    rewrite Hname. by rewrite HB.
  - intros A B -> -> HA HB. unfold merge_into. simpl.
    rewrite HA, HB. by rewrite bool_decide_eq_true_2.
  - intros A B -> -> HA HB. split.
    + unfold merge_into. simpl. rewrite HA, HB.
      by rewrite bool_decide_eq_false_2.
    + intros Hui. rewrite buildSkillCommandSpecs_names.
      replace (List.filter _ _) with
        (map (enrich fs) (Map_values (merge_into (merge_into [] [A]) [B]))).
      2:{ symmetry. apply forallb_filter_id. apply forallb_forall.
          intros e He. by apply (proj1 (List.Forall_forall _ _) Hui). }
      rewrite map_map. unfold merge_into. simpl. rewrite HA, HB.
      rewrite bool_decide_eq_false_2 by done. simpl.
      rewrite HA, HB. rewrite command_names_ascii by reflexivity.
      vm_compute. reflexivity.
Qed.

(** The scans of the example file system and the hypotheses of C5 there. *)
Lemma C5_merge_witness :
  let fs := Examples.deploy_fs in
  let managed := [Examples.deploy_managed] in
  let workspace := [Examples.deploy_workspace] in
  ∃ entries,
    loadSkillEntries (H:=ascii_case) (H0:=Examples.posix_path) fs
      (str "/work") (str "/managed") = Returns entries
    ∧ map SkillEntry.skill entries
      = [Examples.deploy_managed; Examples.deploy_workspace]
    ∧ map SkillCommandSpec.name (buildSkillCommandSpecs (H:=ascii_case) entries)
      = [str "deploy_service"; str "deploy_service_2"].
Proof.
  intros fs managed workspace.
  destruct (C5_merge_last_write_wins (H:=ascii_case)
              (H0:=Examples.posix_path) fs (str "/work") (str "/managed")
              managed workspace)
    as (entries & Hload & _ & _ & _ & _ & _ & Hdeploy);
    [vm_compute; reflexivity|vm_compute; reflexivity|].
  destruct (Hdeploy Examples.deploy_managed Examples.deploy_workspace
              eq_refl eq_refl eq_refl eq_refl) as [Hskills Hnames].
  exists entries. split; [done|]. split; [done|]. apply Hnames.
  vm_compute in Hload. injection Hload as <-. repeat constructor.
Defined.

End MergeFacts.

(** ** Command matching *)

Module MatchFacts.
Import Skills JSFacts AsciiFacts.

Lemma find_ext_In {A : Type} (f g : A → bool) (l : list A) :
  (∀ x, In x l → f x = g x) → List.find f l = List.find g l.
Proof.
  induction l as [|x l IH]; intros Hfg; simpl; [done|].
  rewrite <- (Hfg x) by by left. rewrite IH; [done|].
  intros y Hy. apply Hfg. by right.
Qed.

Lemma token_and_rest_ascii (s token : jsstring) (rest : option jsstring) :
  is_ascii s = true → token_and_rest s = Some (token, rest) →
  is_ascii token = true ∧ (∀ r, rest = Some r → is_ascii r = true).
Proof.
  intros Hs. unfold token_and_rest.
  pose proof (take_while_forallb (λ c, negb (is_ws c)) _ s Hs) as Htok.
  pose proof (drop_while_forallb (λ c, negb (is_ws c)) _ s Hs) as Hrest.
  destruct (take_while _ s) as [|t0 tk]; [done|].
  destruct (drop_while _ s) as [|r0 rest'].
  { intros [= <- <-]. split; [done|]. by intros r. }
  pose proof (drop_while_forallb is_ws _ _ Hrest) as Htail.
  destruct (drop_while is_ws (r0 :: rest')) as [|c t].
  - destruct (last rest') as [w|] eqn:Hlast; [|done].
    intros [= <- <-]. split; [done|]. intros r [= <-].
    simpl in Hrest. apply andb_prop in Hrest as [_ Hrest].
    unfold is_ascii. simpl. rewrite andb_true_r.
    exact (last_forallb (λ c, c <? 128)%N rest' w Hrest Hlast).
  - intros [= <- <-]. split; [done|]. by intros r [= <-].
Qed.

Section Transfer.
Context `{CaseMapping}.

Lemma normalizeForLookup_ascii (value : jsstring) :
  is_ascii value = true →
  normalizeForLookup value = normalizeForLookup (H:=ascii_case) value.
Proof.
  intros Hv. unfold normalizeForLookup.
  by rewrite toLowerCase_ascii by by apply is_ascii_trim.
Qed.

Lemma findSkillCommand_ascii (commands : list SkillCommandSpec.t)
    (rawName : jsstring) :
  ascii_commands commands = true → is_ascii rawName = true →
  findSkillCommand commands rawName
  = findSkillCommand (H:=ascii_case) commands rawName.
Proof.
  intros Hc Hr. unfold findSkillCommand.
  pose proof (is_ascii_trim _ Hr) as Ht.
  destruct (trim rawName) as [|c t] eqn:Etrim; [done|].
  rewrite (toLowerCase_ascii (c :: t)) by done.
  rewrite (normalizeForLookup_ascii (c :: t)) by done.
  apply find_ext_In. intros entry Hentry.
  unfold ascii_commands in Hc. rewrite forallb_forall in Hc.
  apply Hc, andb_prop in Hentry as [Hn Hs].
  by rewrite !toLowerCase_ascii, !normalizeForLookup_ascii.
Qed.

Lemma dispatch_skill_ascii (rest : option jsstring)
    (commands : list SkillCommandSpec.t) :
  ascii_commands commands = true →
  (∀ r, rest = Some r → is_ascii r = true) →
  dispatch_skill rest commands
  = dispatch_skill (H:=ascii_case) rest commands.
Proof.
  intros Hc Hr. unfold dispatch_skill.
  destruct rest as [r|]; simpl; [|done].
  pose proof (is_ascii_trim _ (Hr r eq_refl)) as Ht.
  destruct (trim r) as [|c t]; [done|].
  destruct (token_and_rest (c :: t)) as [[target tail]|] eqn:Etok; [|done].
  apply token_and_rest_ascii in Etok as [Htarget _]; [|done].
  by rewrite findSkillCommand_ascii.
Qed.

Lemma direct_invocation_ascii (commandName : jsstring)
    (rest : option jsstring) (commands : list SkillCommandSpec.t) :
  ascii_commands commands = true →
  direct_invocation commandName rest commands
  = direct_invocation (H:=ascii_case) commandName rest commands.
Proof.
  intros Hc. unfold direct_invocation.
  rewrite (find_ext_In _
    (λ entry, str_eqb (@toLowerCase ascii_case (SkillCommandSpec.name entry))
                commandName)); [done|].
  intros entry Hentry.
  unfold ascii_commands in Hc. rewrite forallb_forall in Hc.
  apply Hc, andb_prop in Hentry as [Hn Hs].
  by rewrite toLowerCase_ascii.
Qed.

Lemma resolveCommandInvocation_ascii (input : jsstring)
    (commands : list SkillCommandSpec.t) :
  is_ascii input = true → ascii_commands commands = true →
  resolveCommandInvocation input commands
  = resolveCommandInvocation (H:=ascii_case) input commands.
Proof.
  intros Hi Hc. unfold resolveCommandInvocation.
  pose proof (is_ascii_trim _ Hi) as Ht.
  destruct (negb _); [done|].
  destruct (command_match (trim input)) as [[token rest]|] eqn:Em; [|done].
  assert (Htok : is_ascii token = true
                 ∧ ∀ r, rest = Some r → is_ascii r = true).
  { unfold command_match in Em. destruct (trim input) as [|c t]; [done|].
    destruct (c =? 47)%N; [|discriminate Em].
    apply andb_prop in Ht as [_ Ht].
    exact (token_and_rest_ascii t token rest Ht Em). }
  destruct Htok as [Htok Hrest].
  rewrite toLowerCase_ascii by by apply is_ascii_trim.
  change (@toLowerCase ascii_case (trim token))
    with (map ascii_lower (trim token)).
  destruct (map ascii_lower (trim token)) as [|c t]; [done|].
  destruct (str_eqb _ _).
  - by apply dispatch_skill_ascii.
  - by apply direct_invocation_ascii.
Qed.

End Transfer.

End MatchFacts.

Module CommandFacts.
Import Skills JSFacts AsciiFacts MatchFacts.

Lemma length_take_drop_while (p : N → bool) (s : jsstring) :
  length (take_while p s) + length (drop_while p s) = length s.
Proof.
  induction s as [|c t IH]; simpl; [done|].
  destruct (p c); simpl; lia.
Qed.

Lemma length_drop_while_le (p : N → bool) (s : jsstring) :
  length (drop_while p s) ≤ length s.
Proof. pose proof (length_take_drop_while p s). lia. Qed.

Lemma length_trim_le (s : jsstring) : length (trim s) ≤ length s.
Proof.
  unfold trim, trimEnd, trimStart. rewrite length_rev.
  etrans; [apply length_drop_while_le|]. rewrite length_rev.
  apply length_drop_while_le.
Qed.

Lemma last_Some_length {A : Type} (l : list A) (x : A) :
  last l = Some x → 1 ≤ length l.
Proof. destruct l; [done|]. simpl. lia. Qed.

(** The second group of the token match is shorter than the text. *)
Lemma token_and_rest_shorter (s token tail : jsstring) :
  token_and_rest s = Some (token, Some tail) → length tail < length s.
Proof.
  unfold token_and_rest.
  pose proof (length_take_drop_while (λ c, negb (is_ws c)) s) as Hlen.
  destruct (take_while _ s) as [|t0 tk]; [done|].
  destruct (drop_while _ s) as [|r0 rest'] eqn:Erest; [done|].
  pose proof (length_drop_while_le is_ws (r0 :: rest')) as Hle.
  destruct (drop_while is_ws (r0 :: rest')) as [|c t].
  - destruct (last rest') as [w|] eqn:Hlast; [|done].
    apply last_Some_length in Hlast. intros [= _ <-]. simpl in *. lia.
  - intros [= _ <-]. simpl in *. lia.
Qed.

Section WithCaseMapping.
Context `{CaseMapping}.

Lemma resolveUniqueCommandName_empty (base : jsstring) :
  resolveUniqueCommandName base ∅ = base.
Proof.
  unfold resolveUniqueCommandName, Set_has.
  by rewrite bool_decide_eq_false_2 by set_solver.
Qed.

(** The command list of one invocable entry. *)
Lemma buildSkillCommandSpecs_single (entry : SkillEntry.t) :
  SkillInvocationPolicy.userInvocable (SkillEntry.invocation entry) = true →
  buildSkillCommandSpecs [entry]
  = [ {| SkillCommandSpec.name :=
           sanitizeCommandName (Skill.name (SkillEntry.skill entry));
         SkillCommandSpec.skillName := Skill.name (SkillEntry.skill entry);
         SkillCommandSpec.description :=
           command_description (SkillEntry.skill entry) |} ].
Proof.
  intros Hui. unfold buildSkillCommandSpecs. simpl. rewrite Hui. simpl.
  by rewrite resolveUniqueCommandName_empty.
Qed.

Lemma command_match_startsWith (trimmed token : jsstring)
    (rest : option jsstring) :
  command_match trimmed = Some (token, rest) →
  startsWith (str "/") trimmed = true.
Proof.
  destruct trimmed as [|c t]; [done|].
  change (startsWith (str "/") (c :: t)) with ((47 =? c)%N && true).
  unfold command_match. rewrite N.eqb_sym.
  by destruct (47 =? c)%N.
Qed.

Lemma resolve_skill_keyword (input token : jsstring) (rest : option jsstring)
    (commands : list SkillCommandSpec.t) :
  command_match (trim input) = Some (token, rest) →
  toLowerCase (trim token) = str "skill" →
  resolveCommandInvocation input commands = dispatch_skill rest commands.
Proof.
  intros Hm Htok. unfold resolveCommandInvocation.
  rewrite (command_match_startsWith _ _ _ Hm), Hm. simpl. by rewrite Htok.
Qed.

Lemma dispatch_skill_Some (rest : option jsstring)
    (commands : list SkillCommandSpec.t) (m : SkillMatch.t) :
  dispatch_skill rest commands = Some m →
  ∃ remainder target tail,
    rest = Some remainder
    ∧ trim remainder ≠ []
    ∧ token_and_rest (trim remainder) = Some (target, tail)
    ∧ findSkillCommand commands target = Some (SkillMatch.command m)
    ∧ SkillMatch.args m = nonempty (trim <$> tail).
Proof.
  unfold dispatch_skill. destruct rest as [remainder|]; simpl; [|done].
  destruct (trim remainder) as [|c t] eqn:Et; [done|].
  destruct (token_and_rest (c :: t)) as [[target tail]|] eqn:Etok; [|done].
  destruct (findSkillCommand commands target) as [cmd|] eqn:Ef; [|done].
  intros [= <-]. exists remainder, target, tail. rewrite Et. done.
Qed.

(** What the keyword branch answers is never what the direct branch would
    answer for the same input: the arguments differ. *)
Lemma dispatch_skill_not_direct (rest : option jsstring)
    (commands : list SkillCommandSpec.t) (commandName : jsstring)
    (m : SkillMatch.t) :
  direct_invocation commandName rest commands = Some m →
  dispatch_skill rest commands ≠ Some m.
Proof.
  intros Hd Ha.
  apply dispatch_skill_Some in Ha
    as (remainder & target & tail & -> & Hne & Htok & _ & Hargs).
  unfold direct_invocation in Hd.
  destruct (List.find _ commands) as [cmd|]; [|done].
  injection Hd as <-. simpl in Hargs.
  destruct (trim remainder) as [|c t] eqn:Et; [done|]. simpl in Hargs.
  destruct tail as [tail|]; [|done]. simpl in Hargs.
  apply token_and_rest_shorter in Htok.
  pose proof (length_trim_le tail) as Hle.
  destruct (trim tail) as [|c' t']; [done|].
  injection Hargs as Hc Ht. rewrite <- Hc, <- Ht in Hle. simpl in *. lia.
Qed.

End WithCaseMapping.

End CommandFacts.

Module InvocationFacts.
Import Skills JSFacts AsciiFacts MatchFacts CommandFacts.

Section WithCaseMapping.
Context `{CaseMapping}.

Lemma sanitize_deploy_service :
  sanitizeCommandName (str "Deploy Service") = str "deploy_service".
Proof. rewrite sanitizeCommandName_ascii by reflexivity. reflexivity. Qed.

Lemma sanitize_punctuation :
  sanitizeCommandName (str "!!!") = str "skill".
Proof. rewrite sanitizeCommandName_ascii by reflexivity. reflexivity. Qed.

End WithCaseMapping.

(** C6, as the code has it. With the commands of a skill named
    ["Deploy Service"], the input ["/skill Deploy args here"] resolves to
    nothing: the target ["Deploy"] is neither the command name
    [deploy_service] nor the skill name, exactly or normalized. The input
    ["/skill deploy-service args here"] resolves, by the normalized
    comparison with the command name and not by an exact one, to the
    command of ["Deploy Service"] with the arguments ["args here"]. *)
Theorem C6_skill_keyword_target `{CaseMapping} :
  ∀ entry : SkillEntry.t,
    Skill.name (SkillEntry.skill entry) = str "Deploy Service" →
    SkillInvocationPolicy.userInvocable (SkillEntry.invocation entry) = true →
    let commands := buildSkillCommandSpecs [entry] in
    let deploy :=
      {| SkillCommandSpec.name := str "deploy_service";
         SkillCommandSpec.skillName := str "Deploy Service";
         SkillCommandSpec.description :=
           command_description (SkillEntry.skill entry) |} in
    commands = [deploy]
    ∧ resolveCommandInvocation (str "/skill Deploy args here") commands = None
    ∧ findSkillCommand commands (str "Deploy") = None
    ∧ resolveCommandInvocation (str "/skill deploy-service args here") commands
      = Some {| SkillMatch.command := deploy;
                SkillMatch.args := Some (str "args here") |}
    ∧ toLowerCase (str "deploy_service") ≠ toLowerCase (str "deploy-service")
    ∧ toLowerCase (str "Deploy Service") ≠ toLowerCase (str "deploy-service")
    ∧ normalizeForLookup (str "deploy_service")
      = normalizeForLookup (str "deploy-service").
Proof.
  intros entry Hname Hui commands deploy.
  assert (Hcmds : commands = [deploy]).
  { unfold commands. rewrite buildSkillCommandSpecs_single by done.
    by rewrite Hname, sanitize_deploy_service. }
  rewrite Hcmds. split; [done|].
  split; [by rewrite resolveCommandInvocation_ascii by reflexivity|].
  split; [by rewrite findSkillCommand_ascii by reflexivity|].
  split; [by rewrite resolveCommandInvocation_ascii by reflexivity|].
  rewrite (toLowerCase_ascii (str "deploy_service")) by reflexivity.
  rewrite (toLowerCase_ascii (str "deploy-service")) by reflexivity.
  rewrite (toLowerCase_ascii (str "Deploy Service")) by reflexivity.
  rewrite (normalizeForLookup_ascii (str "deploy_service")) by reflexivity.
  rewrite (normalizeForLookup_ascii (str "deploy-service")) by reflexivity.
  split; [by vm_compute|]. split; [by vm_compute|]. by vm_compute.
Qed.

Lemma C6_skill_keyword_target_witness :
  let entry := Examples.entry_named (str "Deploy Service") in
  let commands := buildSkillCommandSpecs (H:=ascii_case) [entry] in
  resolveCommandInvocation (H:=ascii_case)
    (str "/skill Deploy args here") commands = None
  ∧ (SkillMatch.args <$>
       resolveCommandInvocation (H:=ascii_case)
         (str "/skill deploy-service args here") commands)
    = Some (Some (str "args here")).
Proof.
  intros entry commands.
  destruct (C6_skill_keyword_target (H:=ascii_case) entry eq_refl eq_refl)
    as (_ & Hmiss & _ & Hhit & _).
  split; [exact Hmiss|]. fold commands in Hhit. by rewrite Hhit.
Defined.

(** C6 as the specification words it does not hold: no command is found for
    ["/skill Deploy args here"]. *)
Lemma C6_counterexample :
  ¬ ∃ m,
      resolveCommandInvocation (H:=ascii_case) (str "/skill Deploy args here")
        (buildSkillCommandSpecs (H:=ascii_case)
           [Examples.entry_named (str "Deploy Service")]) = Some m.
Proof. intros [m Hm]. vm_compute in Hm. discriminate Hm. Qed.

(** C9. An input whose first token is the keyword [skill] (in any case) is
    answered by the keyword branch, whatever the commands are: with nothing
    after the keyword there is no match, and a match is the command found
    for the token after the keyword, with what follows that token as
    arguments. It is never the answer the direct branch would give for the
    token [skill]. So a command named [skill], as the one of a skill named
    ["!!!"], is not reached by ["/skill"] or ["/skill now"]. *)
Theorem C9_skill_keyword_shadows `{CaseMapping} :
  (∀ (input : jsstring) (commands : list SkillCommandSpec.t)
     (token : jsstring) (rest : option jsstring),
     command_match (trim input) = Some (token, rest) →
     toLowerCase (trim token) = str "skill" →
     resolveCommandInvocation input commands = dispatch_skill rest commands
     ∧ (rest = None → resolveCommandInvocation input commands = None)
     ∧ (∀ m, resolveCommandInvocation input commands = Some m →
          ∃ remainder target tail,
            rest = Some remainder
            ∧ token_and_rest (trim remainder) = Some (target, tail)
            ∧ findSkillCommand commands target = Some (SkillMatch.command m)
            ∧ SkillMatch.args m = nonempty (trim <$> tail))
     ∧ (∀ m, direct_invocation (str "skill") rest commands = Some m →
          resolveCommandInvocation input commands ≠ Some m))
  ∧ (∀ commands, resolveCommandInvocation (str "/skill") commands = None)
  ∧ (∀ commands, resolveCommandInvocation (str " /SKILL ") commands = None)
  ∧ (let commands := buildSkillCommandSpecs [Examples.entry_named (str "!!!")] in
     map SkillCommandSpec.name commands = [str "skill"]
     ∧ resolveCommandInvocation (str "/skill") commands = None
     ∧ resolveCommandInvocation (str "/skill now") commands = None
     ∧ (SkillMatch.args <$>
          direct_invocation (str "skill") (Some (str "now")) commands)
       = Some (Some (str "now"))).
Proof.
  assert (Hgen : ∀ (input : jsstring) (commands : list SkillCommandSpec.t)
     (token : jsstring) (rest : option jsstring),
     command_match (trim input) = Some (token, rest) →
     toLowerCase (trim token) = str "skill" →
     resolveCommandInvocation input commands = dispatch_skill rest commands).
  { intros. by eapply resolve_skill_keyword. }
  assert (Hbare : ∀ input commands,
     is_ascii input = true →
     command_match (trim input) = Some (str "skill", None) ∨
     command_match (trim input) = Some (str "SKILL", None) →
     resolveCommandInvocation input commands = None).
  { intros input commands Hi [Hm|Hm];
      rewrite (Hgen _ _ _ _ Hm); try done;
      by rewrite toLowerCase_ascii by reflexivity. }
  split; [|split; [|split]].
  - intros input commands token rest Hm Htok.
    rewrite (Hgen _ _ _ _ Hm Htok).
    split; [done|]. split; [by intros ->|]. split.
    + intros m (remainder & target & tail & ? & _ & ? & ? & ?)%dispatch_skill_Some.
      by exists remainder, target, tail.
    + intros m Hd. by eapply dispatch_skill_not_direct.
  - intros commands. apply Hbare; [done|by left].
  - intros commands. apply Hbare; [done|by right].
  - cbv zeta. rewrite buildSkillCommandSpecs_single by done.
    change (Skill.name (SkillEntry.skill (Examples.entry_named (str "!!!"))))
      with (str "!!!").
    rewrite sanitize_punctuation.
    split; [done|]. split; [apply Hbare; [done|by left]|].
    split; [by rewrite resolveCommandInvocation_ascii by reflexivity|].
    by rewrite direct_invocation_ascii by reflexivity.
Qed.

(** The general part of C9 at the input ["/Skill deploy now"] and the
    commands of a skill named ["!!!"]. *)
Lemma C9_skill_keyword_shadows_witness :
  let commands :=
    buildSkillCommandSpecs (H:=ascii_case) [Examples.entry_named (str "!!!")] in
  command_match (trim (str "/Skill deploy now"))
  = Some (str "Skill", Some (str "deploy now"))
  ∧ @toLowerCase ascii_case (trim (str "Skill")) = str "skill"
  ∧ resolveCommandInvocation (H:=ascii_case) (str "/Skill deploy now") commands
    = dispatch_skill (H:=ascii_case) (Some (str "deploy now")) commands.
Proof.
  intros commands. split; [reflexivity|]. split; [reflexivity|].
  refine (proj1 (proj1 (C9_skill_keyword_shadows (H:=ascii_case))
                   (str "/Skill deploy now") commands (str "Skill")
                   (Some (str "deploy now")) _ _));
    vm_compute; reflexivity.
Defined.

End InvocationFacts.

(** ** Collision resolution *)

Module CollisionFacts.
Import Skills JSFacts SanitizeFacts AsciiFacts.

Section WithCaseMapping.
Context `{CaseMapping}.

Lemma candidate_in_candidates (base : jsstring) (i : N) :
  (2 ≤ i < 1000)%N → In (candidate base i) (candidates base).
Proof.
  intros Hi. unfold candidates. apply in_map_iff.
  exists (N.to_nat i). split; [by rewrite N2Nat.id|].
  apply in_seq. lia.
Qed.

Lemma resolve_loop_pool (base : jsstring) (used : gset jsstring)
    (fuel : nat) (i : N) :
  (2 ≤ i)%N →
  In (resolve_loop base used fuel i) (fallback_name base :: candidates base).
Proof.
  revert i. induction fuel as [|fuel IH]; intros i Hi; cbn [resolve_loop];
    [by left|].
  destruct (N.ltb_spec i 1000); [|by left].
  destruct (negb _).
  - right. by apply candidate_in_candidates.
  - apply IH. lia.
Qed.

(** Whatever is in use, the answer is one of the 1000 names of the pool. *)
Lemma resolveUniqueCommandName_pool (base : jsstring) (used : gset jsstring) :
  In (resolveUniqueCommandName base used) (name_pool base).
Proof.
  unfold resolveUniqueCommandName, name_pool.
  destruct (negb _); [by left|]. right. by apply resolve_loop_pool.
Qed.

Lemma name_pool_length (base : jsstring) : length (name_pool base) = 1000.
Proof.
  change (length (name_pool base)) with (S (S (length (candidates base)))).
  unfold candidates. by rewrite length_map, length_seq.
Qed.

Lemma name_step_pool (base : jsstring) (skillNames : list jsstring) :
  Forall (λ n, sanitizeCommandName n = base) skillNames →
  ∀ state,
    incl state.2 (name_pool base) →
    incl (foldl name_step state skillNames).2 (name_pool base)
    ∧ length (foldl name_step state skillNames).2
      = length state.2 + length skillNames.
Proof.
  induction 1 as [|n l Hn Hl IH]; intros [used names] Hincl; simpl.
  { split; [done|lia]. }
  destruct (IH ({[toLowerCase
                    (resolveUniqueCommandName (sanitizeCommandName n) used)]}
                ∪ used,
                names ++ [resolveUniqueCommandName (sanitizeCommandName n) used]))
    as [Hin Hlen].
  - simpl. apply incl_app; [done|]. intros x [<-|[]]. rewrite Hn.
    apply resolveUniqueCommandName_pool.
  - split; [done|]. rewrite Hlen. simpl. rewrite length_app. simpl. lia.
Qed.

Lemma NoDup_map_inj {A B : Type} (f : A → B) (l : list A) :
  (∀ x y, f x = f y → x = y) → List.NoDup l → List.NoDup (map f l).
Proof.
  intros Hf. induction 1 as [|x l Hx Hl IH]; simpl; constructor; [|done].
  intros (y & Hxy & Hy)%in_map_iff. apply Hf in Hxy. by subst.
Qed.

(** More than 1000 skills with one base cannot all get different names. *)
Lemma command_names_collide (base : jsstring) (skillNames : list jsstring) :
  Forall (λ n, sanitizeCommandName n = base) skillNames →
  1000 < length skillNames →
  ¬ List.NoDup (command_names skillNames).
Proof.
  intros Hbase Hlen Hnd.
  destruct (name_step_pool base skillNames Hbase (∅, [])) as [Hin Hl];
    [by intros x []|].
  fold (command_names skillNames) in Hin, Hl.
  pose proof (NoDup_incl_length Hnd Hin) as Hle.
  rewrite name_pool_length, Hl in Hle. simpl in Hle. lia.
Qed.

End WithCaseMapping.

(** *** Up to 999 commands the names are distinct *)

Lemma take_while_app_stop (p : N → bool) (l r : jsstring) (c : N) :
  Forall (λ d, p d = true) l → p c = false →
  take_while p (l ++ c :: r) = l.
Proof.
  intros Hl Hc. induction Hl as [|d l Hd Hl IH]; simpl; [by rewrite Hc|].
  by rewrite Hd, IH.
Qed.

Lemma is_digit_bounds (c : N) : Syntax.is_digit c = true ↔ (48 ≤ c ≤ 57)%N.
Proof. unfold Syntax.is_digit. rewrite andb_true_iff, !N.leb_le. done. Qed.

(** The digits a name ends with, last digit first. *)
Lemma candidate_digits (base : jsstring) (i : N) :
  take_while Syntax.is_digit (rev (candidate base i)) = rev (decimal i).
Proof.
  unfold candidate. rewrite !rev_app_distr, <- app_assoc.
  change (rev (str "_")) with [95%N]. simpl app at 2.
  apply take_while_app_stop; [|done].
  apply List.Forall_rev. eapply Forall_impl; [apply decimal_digits|].
  intros c Hc. by apply is_digit_bounds.
Qed.

Lemma fallback_digits (base : jsstring) :
  take_while Syntax.is_digit (rev (fallback_name base)) = [].
Proof. unfold fallback_name. by rewrite rev_app_distr. Qed.

Lemma undecimal_decimal (i : nat) :
  2 ≤ i < 1000 → undecimal (decimal (N.of_nat i)) = N.of_nat i.
Proof.
  intros Hi.
  assert (Hall : forallb
    (λ k, (undecimal (decimal (N.of_nat k)) =? N.of_nat k)%N) (seq 2 998)
    = true) by (vm_compute; reflexivity).
  rewrite forallb_forall in Hall. apply N.eqb_eq, Hall, in_seq. lia.
Qed.

Lemma candidates_NoDup (base : jsstring) : List.NoDup (candidates base).
Proof.
  unfold candidates.
  assert (Hinj : ∀ l, (∀ k, In k l → 2 ≤ k < 1000) → List.NoDup l →
    List.NoDup (map (λ k, candidate base (N.of_nat k)) l)).
  { induction l as [|k l IH]; intros Hl Hnd; simpl; [constructor|].
    inversion Hnd as [|? ? Hk Hnd']; subst. constructor.
    - intros (k' & Heq & Hk')%in_map_iff.
      apply (f_equal (λ s, take_while Syntax.is_digit (rev s))) in Heq.
      rewrite !candidate_digits in Heq.
      apply (f_equal (@rev N)) in Heq. rewrite !rev_involutive in Heq.
      apply (f_equal undecimal) in Heq.
      rewrite !undecimal_decimal in Heq
        by (apply Hl; (by left) || (by right)).
      apply Nat2N.inj in Heq. by subst.
    - apply IH; [|done]. intros k' Hk'. apply Hl. by right. }
  apply Hinj; [|apply List.seq_NoDup].
  intros k Hk%in_seq. lia.
Qed.

Lemma fallback_not_candidate (base : jsstring) :
  ¬ In (fallback_name base) (candidates base).
Proof.
  unfold candidates. intros (k & Heq & _)%in_map_iff.
  apply (f_equal (λ s, take_while Syntax.is_digit (rev s))) in Heq.
  rewrite candidate_digits, fallback_digits in Heq.
  apply (f_equal (@rev N)) in Heq. rewrite rev_involutive in Heq.
  by apply decimal_from_nonempty in Heq.
Qed.

Lemma candidates_length (base : jsstring) : length (candidates base) = 998.
Proof. unfold candidates. by rewrite length_map, length_seq. Qed.

Section Unique.
Context `{CaseMapping}.

#[local] Abbreviation alphabet := (Forall (λ c, is_command_char c = true)).

Lemma candidate_alphabet (base : jsstring) (i : N) :
  alphabet base → alphabet (candidate base i).
Proof.
  intros Hb. unfold candidate, slice0. apply Forall_app. split.
  { by apply Forall_take. }
  apply Forall_app. split; [by repeat constructor|].
  eapply Forall_impl; [apply decimal_digits|].
  intros c Hc. apply is_command_char_bounds. simpl in Hc. lia.
Qed.

Lemma fallback_alphabet (base : jsstring) :
  alphabet base → alphabet (fallback_name base).
Proof.
  intros Hb. unfold fallback_name, slice0. apply Forall_app. split.
  { by apply Forall_take. }
  by repeat constructor.
Qed.

(** What the loop answers: the first candidate from [i] on that is not in
    use, or the fallback when all of them are. *)
Lemma resolve_loop_spec (base : jsstring) (used : gset jsstring)
    (fuel : nat) (i : N) :
  alphabet base → (1000 ≤ i + N.of_nat fuel)%N →
  (∃ j, (i ≤ j < 1000)%N
        ∧ resolve_loop base used fuel i = candidate base j
        ∧ candidate base j ∉ used)
  ∨ (resolve_loop base used fuel i = fallback_name base
     ∧ ∀ j, (i ≤ j < 1000)%N → candidate base j ∈ used).
Proof.
  intros Hb. revert i. induction fuel as [|fuel IH]; intros i Hfuel;
    cbn [resolve_loop].
  { right. split; [done|]. intros j Hj. lia. }
  destruct (N.ltb_spec i 1000) as [Hi|Hi].
  2:{ right. split; [done|]. intros j Hj. lia. }
  rewrite toLowerCase_command_chars by by apply candidate_alphabet.
  unfold Set_has. case_bool_decide as Hin; cbn [negb].
  - destruct (IH (i + 1)%N) as [(j & Hj & Hr & Hfree)|[Hr Hall]]; [lia|..].
    + left. exists j. split; [lia|done].
    + right. split; [done|]. intros j Hj.
      destruct (N.eq_dec j i) as [->|Hne]; [done|]. apply Hall. lia.
  - left. exists i. split; [lia|done].
Qed.

Lemma resolveUniqueCommandName_spec (base : jsstring) (used : gset jsstring) :
  alphabet base →
  alphabet (resolveUniqueCommandName base used)
  ∧ (resolveUniqueCommandName base used ∉ used
     ∨ (resolveUniqueCommandName base used = fallback_name base
        ∧ ∀ c, In c (candidates base) → c ∈ used)).
Proof.
  intros Hb. unfold resolveUniqueCommandName.
  rewrite toLowerCase_command_chars by done.
  unfold Set_has. case_bool_decide as Hin; cbn [negb]; [|by split; [|left]].
  destruct (resolve_loop_spec base used 1000 2 Hb)
    as [(j & Hj & -> & Hfree)|[-> Hall]]; [lia|..].
  - split; [by apply candidate_alphabet|by left].
  - split; [by apply fallback_alphabet|]. right. split; [done|].
    unfold candidates. intros c (k & <- & Hk%in_seq)%in_map_iff.
    apply Hall. lia.
Qed.

Lemma name_step_distinct (state : gset jsstring * list jsstring)
    (skillName : jsstring) :
  names_distinct state → length state.2 < 999 →
  names_distinct (name_step state skillName).
Proof.
  destruct state as [used names]. intros (Hused & Hnd & Halpha) Hlen.
  simpl in *. unfold name_step.
  pose proof (sanitizeCommandName_alphabet skillName) as Hbase.
  destruct (resolveUniqueCommandName_spec (sanitizeCommandName skillName)
              used Hbase) as [Hu Hcases].
  set (unique := resolveUniqueCommandName (sanitizeCommandName skillName) used)
    in *.
  rewrite toLowerCase_command_chars by done.
  assert (Hfresh : ¬ In unique names).
  { destruct Hcases as [Hfree|[Hfall Hall]]; [by rewrite <- Hused|].
    intros Hin.
    assert (Hincl : incl (candidates (sanitizeCommandName skillName)) names).
    { intros c Hc. by apply Hused, Hall. }
    pose proof (@NoDup_length_incl _
                  (candidates (sanitizeCommandName skillName)) names
                  (candidates_NoDup (sanitizeCommandName skillName))) as Hback.
    rewrite candidates_length in Hback.
    apply (fallback_not_candidate (sanitizeCommandName skillName)).
    rewrite <- Hfall. apply Hback; [lia|done|done]. }
  split; [|split]; simpl.
  - intros n. rewrite elem_of_union, elem_of_singleton, Hused, in_app_iff.
    simpl. intuition congruence.
  - apply List.NoDup_app;
      [done|apply List.NoDup_cons; [by intros []|apply List.NoDup_nil]|].
    intros x Hx [<-|[]]. by apply Hfresh.
  - apply Forall_app. split; [done|]. by constructor.
Qed.

Lemma command_names_distinct (skillNames : list jsstring) :
  ∀ state,
    names_distinct state → length state.2 + length skillNames ≤ 999 →
    names_distinct (foldl name_step state skillNames).
Proof.
  induction skillNames as [|n l IH]; intros state Hst Hlen; [done|].
  simpl in Hlen. simpl. apply IH.
  - apply name_step_distinct; [done|lia].
  - destruct state as [used names]. unfold name_step. simpl.
    rewrite length_app. simpl. simpl in Hlen. lia.
Qed.

(** With at most 999 entries that the user may invoke, no two commands
    have the same name, and every name is in lower case already. *)
Lemma buildSkillCommandSpecs_distinct (entries : list SkillEntry.t) :
  length (List.filter
            (λ e, SkillInvocationPolicy.userInvocable (SkillEntry.invocation e))
            entries) ≤ 999 →
  List.NoDup (map SkillCommandSpec.name (buildSkillCommandSpecs entries))
  ∧ Forall (λ c, toLowerCase (SkillCommandSpec.name c) = SkillCommandSpec.name c)
      (buildSkillCommandSpecs entries).
Proof.
  intros Hlen.
  destruct (command_names_distinct
              (map (λ e, Skill.name (SkillEntry.skill e))
                 (List.filter
                    (λ e, SkillInvocationPolicy.userInvocable
                            (SkillEntry.invocation e)) entries))
              (∅, [])) as (_ & Hnd & Halpha).
  - split; [|split; constructor]. intros n. simpl. set_solver.
  - simpl. by rewrite length_map.
  - fold (command_names
            (map (λ e, Skill.name (SkillEntry.skill e))
               (List.filter
                  (λ e, SkillInvocationPolicy.userInvocable
                          (SkillEntry.invocation e)) entries))) in Hnd, Halpha.
    rewrite <- buildSkillCommandSpecs_names in Hnd, Halpha.
    split; [done|].
    apply (proj1 (List.Forall_map SkillCommandSpec.name _ _)) in Halpha.
    eapply Forall_impl; [exact Halpha|].
    intros c Hc. by apply toLowerCase_command_chars.
Qed.

End Unique.

(** C3, at the input that breaks it: 1001 skills that the user may invoke,
    with the distinct names ["a"], ["a!"], ["a!!"], ..., all of which
    sanitize to ["a"]. The synthesis gives 1001 commands and two of them
    have the same name: for one base the resolver has 1000 names to answer
    (the base, the candidates [_2] to [_999] and the fallback [_x]), and it
    answers the fallback without a look at the names in use. *)
Theorem C3_fallback_repeats_a_name `{CaseMapping} :
  let entries := Examples.same_base_entries 1001 in
  let commands := buildSkillCommandSpecs entries in
  length commands = 1001
  ∧ Forall (λ e, sanitizeCommandName (Skill.name (SkillEntry.skill e)) = str "a"
                 ∧ SkillInvocationPolicy.userInvocable (SkillEntry.invocation e)
                   = true) entries
  ∧ List.NoDup (map (λ e, Skill.name (SkillEntry.skill e)) entries)
  ∧ ¬ List.NoDup (map SkillCommandSpec.name commands).
Proof.
  intros entries commands.
  assert (Hentries : Forall
    (λ e, sanitizeCommandName (Skill.name (SkillEntry.skill e)) = str "a"
          ∧ SkillInvocationPolicy.userInvocable (SkillEntry.invocation e)
            = true) entries).
  { apply List.Forall_forall. intros e He.
    assert (Hb : (is_ascii (Skill.name (SkillEntry.skill e))
                  && bool_decide (sanitizeCommandName (H:=ascii_case)
                                    (Skill.name (SkillEntry.skill e)) = str "a")
                  && SkillInvocationPolicy.userInvocable
                       (SkillEntry.invocation e)) = true).
    { revert e He. apply forallb_forall. vm_compute. reflexivity. }
    apply andb_prop in Hb as [[Ha Hs]%andb_prop Hui].
    apply bool_decide_eq_true in Hs.
    by rewrite sanitizeCommandName_ascii. }
  assert (Hfilter :
    List.filter
      (λ e, SkillInvocationPolicy.userInvocable (SkillEntry.invocation e))
      entries = entries).
  { apply forallb_filter_id, forallb_forall. intros e He.
    by apply (proj1 (List.Forall_forall _ _) Hentries). }
  assert (Hnames : map SkillCommandSpec.name commands
    = command_names (map (λ e, Skill.name (SkillEntry.skill e)) entries)).
  { unfold commands. by rewrite buildSkillCommandSpecs_names, Hfilter. }
  assert (Hlen : length entries = 1001).
  { unfold entries, Examples.same_base_entries.
    by rewrite length_map, length_seq. }
  split; [|split; [done|split]].
  - rewrite <- (length_map SkillCommandSpec.name), Hnames.
    destruct (name_step_pool (str "a")
                (map (λ e, Skill.name (SkillEntry.skill e)) entries)) with
      (state := (∅ : gset jsstring, [] : list jsstring)) as [_ Hl].
    + apply Forall_map. eapply Forall_impl; [exact Hentries|]. by intros e [? _].
    + by intros x [].
    + unfold command_names. rewrite Hl, length_map, Hlen. reflexivity.
  - unfold entries, Examples.same_base_entries. rewrite map_map.
    apply NoDup_map_inj; [|apply List.seq_NoDup].
    intros i j Hij. apply (f_equal length) in Hij.
    cbn [Examples.entry_named SkillEntry.skill Skill.name] in Hij.
    rewrite !length_app, !repeat_length in Hij. lia.
  - rewrite Hnames. apply (command_names_collide (str "a")).
    + apply Forall_map. eapply Forall_impl; [exact Hentries|]. by intros e [? _].
    + rewrite length_map. lia.
Qed.

End CollisionFacts.

(** ** The definitions at work *)

Module ExampleFacts.
Import ToolPolicy SkillPrimitives Skills JSFacts Examples.

Example compile_exec_star :
  compilePattern (H:=ascii_case) (str " Exec* ") = Regex (str "^exec.*$").
Proof. reflexivity. Qed.

Example compile_dotted :
  compilePattern (H:=ascii_case) (str "a.b*") = Regex (str "^a\.b.*$")
  ∧ compilePattern (H:=ascii_case) (str "a.b") = Exact (str "a.b")
  ∧ compilePattern (H:=ascii_case) (str "*") = All.
Proof. repeat split. Qed.

Example star_stops_at_line_end :
  matchesAny [97; 10; 98]%N [compilePattern (H:=ascii_case) (str "a*")] = false
  ∧ matchesAny [97; 10; 98]%N [compilePattern (H:=ascii_case) (str "*")] = true.
Proof. split; reflexivity. Qed.

Example frontmatter_keys :
  extractFrontmatter
    (text [ str "---"; str "name: 'Deploy Service'"; str "no colon here";
            str "description:  Deploys"; str "---"; str "name: later" ])
  = <[str "description" := str "Deploys"]>
      (<[str "name" := str "Deploy Service"]> ∅).
Proof. vm_compute. reflexivity. Qed.

Example scan_missing_directory :
  loadSkillsFromDir (H:=ascii_case) (H0:=posix_path) deploy_fs
    (str "/nowhere") (str "managed") = Returns [].
Proof. reflexivity. Qed.

Example scan_workspace :
  loadSkillsFromDir (H:=ascii_case) (H0:=posix_path) deploy_fs
    (str "/work/skills") (str "workspace") = Returns [deploy_workspace].
Proof. vm_compute. reflexivity. Qed.

Example direct_invocation_with_arguments :
  let commands :=
    buildSkillCommandSpecs (H:=ascii_case)
      [entry_named (str "Deploy Service"); entry_named (str "deploy_service")] in
  map SkillCommandSpec.name commands
  = [str "deploy_service"; str "deploy_service_2"]
  ∧ (SkillMatch.args <$>
       resolveCommandInvocation (H:=ascii_case)
         (str "  /Deploy_Service_2   now  ") commands)
    = Some (Some (str "now")).
Proof. split; vm_compute; reflexivity. Qed.

Example long_base_is_cut_for_the_suffix :
  command_names (H:=ascii_case)
    [ str "abcdefghijklmnopqrstuvwxyz0123456789";
      str "ABCDEFGHIJKLMNOPQRSTUVWXYZ012345" ]
  = [ str "abcdefghijklmnopqrstuvwxyz012345";
      str "abcdefghijklmnopqrstuvwxyz0123_2" ].
Proof. vm_compute. reflexivity. Qed.

End ExampleFacts.

(** ** Tool sets and merged policies *)

Module ToolSetFacts.
Import ToolPolicy ToolSet JSFacts ToolPolicyFacts.

Lemma Set_values_foldl (xs seen : list jsstring) :
  let out :=
    foldl (λ seen x, if bool_decide (x ∈ seen) then seen else seen ++ [x])
      seen xs in
  (NoDup seen → NoDup out)
  ∧ (∀ x, x ∈ out ↔ x ∈ seen ∨ x ∈ xs)
  ∧ seen `prefix_of` out.
Proof.
  revert seen. induction xs as [|a xs IH]; intros seen; cbn.
  - split; [done|]. split; [|done]. intros x. rewrite elem_of_nil. tauto.
  - destruct (IH (if bool_decide (a ∈ seen) then seen else seen ++ [a]))
      as (Hnd & Hin & Hpre).
    case_bool_decide as Ha.
    + split; [done|]. split; [|done].
      intros x. rewrite Hin, elem_of_cons.
      split; [intros [?|?]; auto|intros [?|[->|?]]; auto].
    + split.
      { intros Hs. apply Hnd. apply NoDup_app. split; [done|].
        split; [|apply NoDup_singleton].
        intros y Hy ->%list_elem_of_singleton. done. }
      split.
      { intros x. rewrite Hin, elem_of_app, list_elem_of_singleton, elem_of_cons.
        tauto. }
      etrans; [|exact Hpre]. by apply prefix_app_r.
Qed.


Lemma Set_values_elem_of (xs : list jsstring) (x : jsstring) :
  x ∈ Set_values xs ↔ x ∈ xs.
Proof.
  unfold Set_values. rewrite (proj1 (proj2 (Set_values_foldl xs [])) x).
  rewrite elem_of_nil. tauto.
Qed.

Lemma Set_values_nil (xs : list jsstring) : Set_values xs = [] ↔ xs = [].
Proof.
  split; [|by intros ->].
  intros Hnil. destruct xs as [|a xs]; [done|].
  assert (a ∈ Set_values (a :: xs)) as Ha
    by (apply Set_values_elem_of; left).
  rewrite Hnil in Ha. by apply elem_of_nil in Ha.
Qed.



Lemma trimmed_nonempty_elem_of (xs : list jsstring) (x : jsstring) :
  x ∈ trimmed_nonempty xs ↔ x ≠ [] ∧ ∃ v, v ∈ xs ∧ trim v = x.
Proof.
  unfold trimmed_nonempty.
  rewrite list_elem_of_In, List.filter_In, <- list_elem_of_In, list_elem_of_fmap.
  rewrite negb_true_iff, bool_decide_eq_false.
  split.
  - intros ((v & -> & Hv) & Hne). eauto.
  - intros (Hne & v & Hv & <-). eauto.
Qed.


Lemma unique_or_undefined_default (xs : list jsstring) (x : jsstring) :
  x ∈ default [] (unique_or_undefined xs) ↔ x ∈ xs.
Proof.
  unfold unique_or_undefined. destruct xs as [|a xs]; [done|].
  change (Nat.ltb 0 (length (a :: xs))) with true. cbn [default].
  apply Set_values_elem_of.
Qed.

Lemma unique_or_undefined_length (xs : list jsstring) :
  Nat.eqb (length (default [] (unique_or_undefined xs))) 0
  = Nat.eqb (length xs) 0.
Proof.
  unfold unique_or_undefined. destruct xs as [|a xs]; [done|].
  change (Nat.ltb 0 (length (a :: xs))) with true. cbn [default].
  destruct (Set_values (a :: xs)) eqn:E; [|done].
  apply (proj1 (Set_values_nil _)) in E. discriminate.
Qed.

Lemma filter_filter_andb {A : Type} (f g : A → bool) (l : list A) :
  List.filter f (List.filter g l) = List.filter (λ x, g x && f x) l.
Proof.
  induction l as [|a l IH]; [done|]. cbn.
  destruct (g a); cbn; [destruct (f a)|]; by rewrite IH.
Qed.

Lemma filter_sublist {A : Type} (f : A → bool) (l : list A) :
  List.filter f l `sublist_of` l.
Proof.
  induction l as [|a l IH]; [done|]. cbn.
  destruct (f a); by constructor.
Qed.

Section WithCaseMapping.
Context `{CaseMapping}.

Lemma compilePattern_trim (p : jsstring) :
  compilePattern (trim p) = compilePattern p.
Proof. unfold compilePattern, normalizeToolName. by rewrite trim_idem. Qed.

Lemma toLowerCase_nil : toLowerCase [] = [].
Proof. by rewrite toLowerCase_ascii. Qed.

Lemma compilePattern_blank (p : jsstring) :
  trim p = [] → compilePattern p = Exact [].
Proof.
  intros Hp. unfold compilePattern, normalizeToolName.
  rewrite Hp, toLowerCase_nil. done.
Qed.

(** Two pattern lists that compile to the same patterns, up to order and
    repetition, match the same names. *)
Lemma matchesAny_same_patterns (name : jsstring) (ps qs : list jsstring) :
  (∀ c, c ∈ compilePatterns ps ↔ c ∈ compilePatterns qs) →
  matchesAny name (compilePatterns ps) = matchesAny name (compilePatterns qs).
Proof.
  intros Hsame. apply eq_true_iff_eq.
  rewrite !matchesAny_true_iff. by setoid_rewrite Hsame.
Qed.

Lemma matchesAny_app (name : jsstring) (ps qs : list CompiledPattern) :
  matchesAny name (ps ++ qs) = matchesAny name ps || matchesAny name qs.
Proof.
  induction ps as [|p ps IH]; [done|]. cbn.
  by destruct (matchesOne name p).
Qed.

(** The merged field matches what the patterns it is made from match, when
    none of them is blank. *)
Lemma cleaned_compile (xs : list jsstring) (c : CompiledPattern) :
  Forall (λ p, trim p ≠ []) xs →
  c ∈ compilePatterns (default [] (unique_or_undefined (trimmed_nonempty xs)))
  ↔ c ∈ compilePatterns xs.
Proof.
  intros Hxs. unfold compilePatterns. rewrite !list_elem_of_fmap.
  setoid_rewrite unique_or_undefined_default.
  setoid_rewrite trimmed_nonempty_elem_of.
  split.
  - intros (x & -> & _ & v & Hv & <-). exists v.
    by rewrite compilePattern_trim.
  - intros (v & -> & Hv). exists (trim v).
    rewrite compilePattern_trim. split; [done|].
    split; [|eauto]. by apply (proj1 (Forall_forall _ _) Hxs).
Qed.

Lemma cleaned_empty (xs : list jsstring) :
  Forall (λ p, trim p ≠ []) xs →
  Nat.eqb (length (compilePatterns
                     (default [] (unique_or_undefined (trimmed_nonempty xs))))) 0
  = Nat.eqb (length (compilePatterns xs)) 0.
Proof.
  intros Hxs. unfold compilePatterns. rewrite !length_map.
  rewrite unique_or_undefined_length.
  destruct xs as [|a xs]; [done|].
  apply Forall_cons in Hxs as [Ha _].
  unfold trimmed_nonempty. cbn [map List.filter].
  case_bool_decide; done.
Qed.

Lemma merge_fields (base extra : option ToolPolicy.ToolPolicy) :
  mergeToolPolicies base extra
  = match base, extra with
    | None, None => None
    | _, _ =>
        Some {| allow :=
                  unique_or_undefined
                    (trimmed_nonempty (default [] (base ≫= allow)
                                       ++ default [] (extra ≫= allow)));
                deny :=
                  unique_or_undefined
                    (trimmed_nonempty (default [] (base ≫= deny)
                                       ++ default [] (extra ≫= deny))) |}
    end.
Proof. by destruct base, extra. Qed.

Lemma isToolAllowed_merge (base extra : option ToolPolicy.ToolPolicy)
    (name : jsstring) :
  let allows := default [] (base ≫= allow) ++ default [] (extra ≫= allow) in
  let denies := default [] (base ≫= deny) ++ default [] (extra ≫= deny) in
  Forall (λ p, trim p ≠ []) allows →
  Forall (λ p, trim p ≠ []) denies →
  isToolAllowed name (mergeToolPolicies base extra)
  = isToolAllowed name (Some {| allow := Some allows; deny := Some denies |}).
Proof.
  intros allows denies Ha Hd.
  assert (isToolAllowed name
            (Some {| allow := unique_or_undefined (trimmed_nonempty allows);
                     deny := unique_or_undefined (trimmed_nonempty denies) |})
          = isToolAllowed name
              (Some {| allow := Some allows; deny := Some denies |})) as Hsome.
  { unfold isToolAllowed. cbn [allow deny].
    rewrite (matchesAny_same_patterns _
               (default [] (unique_or_undefined (trimmed_nonempty denies)))
               denies)
      by (intros c; by apply cleaned_compile).
    rewrite (matchesAny_same_patterns _
               (default [] (unique_or_undefined (trimmed_nonempty allows)))
               allows)
      by (intros c; by apply cleaned_compile).
    by rewrite (cleaned_empty allows) by done. }
  rewrite merge_fields.
  destruct base as [base|], extra as [extra|]; exact Hsome.
Qed.

Lemma isToolAllowed_deny_app (name : jsstring) (a : option (list jsstring))
    (d d' : list jsstring) :
  isToolAllowed name (Some {| allow := a; deny := Some (d ++ d') |})
  = isToolAllowed name (Some {| allow := a; deny := Some d |})
    && isToolAllowed name (Some {| allow := None; deny := Some d' |}).
Proof.
  unfold isToolAllowed, compilePatterns. cbn [allow deny].
  change (default [] (Some (d ++ d'))) with (d ++ d').
  change (default [] (Some d)) with d.
  change (default [] (Some d')) with d'.
  change (default [] (@None (list jsstring))) with (@nil jsstring).
  rewrite map_app, matchesAny_app. cbn [map length Nat.eqb matchesAny].
  destruct (matchesAny (normalizeToolName name) (map compilePattern d));
    [done|].
  destruct (matchesAny (normalizeToolName name) (map compilePattern d')); cbn.
  - by rewrite andb_false_r.
  - by rewrite andb_true_r.
Qed.

Lemma isToolAllowed_fields (name : jsstring) (policy : option ToolPolicy.ToolPolicy) :
  isToolAllowed name policy
  = isToolAllowed name
      (Some {| allow := Some (default [] (policy ≫= allow));
               deny := Some (default [] (policy ≫= deny)) |}).
Proof. by destruct policy as [[a d]|]. Qed.

End WithCaseMapping.

Section WithCaseMapping2.
Context `{CaseMapping}.

Lemma isToolAllowed_denied (name d : jsstring) (policy : ToolPolicy.ToolPolicy) :
  d ∈ default [] (deny policy) →
  matchesOne (normalizeToolName name) (compilePattern d) = true →
  isToolAllowed name (Some policy) = false.
Proof.
  intros Hd Hm. unfold isToolAllowed.
  rewrite (proj2 (matchesAny_compilePatterns _ _)); [done|eauto].
Qed.

Lemma compilePattern_star (p : jsstring) :
  normalizeToolName p = str "*" → compilePattern p = All.
Proof. intros Hp. unfold compilePattern. by rewrite Hp. Qed.

End WithCaseMapping2.

(** X1. [filterToolsByPolicy] keeps exactly the tools that [isToolAllowed]
    allows, in the order they had: without a policy the list comes back as
    it is; filtering again changes nothing; filtering a concatenation is
    filtering its parts; and a deny pattern that normalizes to the lone
    wildcard leaves no tool. *)
Theorem X1_filterToolsByPolicy_keeps_the_allowed `{CaseMapping} {Body : Type} :
  ∀ (tools : list (Tool Body)) (policy : option ToolPolicy.ToolPolicy),
    filterToolsByPolicy tools None = tools
    ∧ (∀ tool, In tool (filterToolsByPolicy tools policy)
               ↔ In tool tools ∧ isToolAllowed (name tool) policy = true)
    ∧ filterToolsByPolicy tools policy `sublist_of` tools
    ∧ filterToolsByPolicy (filterToolsByPolicy tools policy) policy
      = filterToolsByPolicy tools policy
    ∧ (∀ more, filterToolsByPolicy (tools ++ more) policy
               = filterToolsByPolicy tools policy
                 ++ filterToolsByPolicy more policy)
    ∧ (∀ p d, policy = Some p → d ∈ default [] (deny p) →
              normalizeToolName d = str "*" →
              filterToolsByPolicy tools policy = []).
Proof.
  intros tools policy. split; [done|].
  destruct policy as [policy|]; cbn [filterToolsByPolicy].
  - split; [intros tool; apply List.filter_In|].
    split; [apply filter_sublist|].
    split; [apply PromptFacts.filter_idem|].
    split; [intros more; apply List.filter_app|].
    intros p d [= <-] Hd Hstar.
    induction tools as [|t tools IH]; [done|]. cbn [List.filter].
    rewrite (isToolAllowed_denied _ d) by
      (try done; by rewrite (compilePattern_star d)).
    exact IH.
  - split; [intros tool; cbn; tauto|]. done.
Qed.


(** X3. A denial survives the merge: a name that a non-blank deny pattern of
    the base or of the extra matches is not allowed by the merged policy,
    whatever else the two policies hold. *)
Theorem X3_merge_keeps_denials `{CaseMapping} :
  ∀ (base extra : option ToolPolicy.ToolPolicy) (name d : jsstring),
    d ∈ default [] (base ≫= deny) ++ default [] (extra ≫= deny) →
    trim d ≠ [] →
    matchesOne (normalizeToolName name) (compilePattern d) = true →
    isToolAllowed name (mergeToolPolicies base extra) = false.
Proof.
  intros base extra name d Hd Hne Hm.
  rewrite merge_fields.
  destruct base as [base|], extra as [extra|];
    try (apply (isToolAllowed_denied _ (trim d));
         [cbn [deny]; apply unique_or_undefined_default,
            trimmed_nonempty_elem_of; eauto
         |by rewrite compilePattern_trim]).
  cbn in Hd. by apply elem_of_nil in Hd.
Qed.

Lemma X3_merge_keeps_denials_witness :
  isToolAllowed (H:=ascii_case) (str " Exec_Python")
    (mergeToolPolicies
       (Some {| allow := None; deny := Some [str "exec*"] |})
       (Some {| allow := Some [str "*"]; deny := None |})) = false.
Proof.
  apply (X3_merge_keeps_denials (H:=ascii_case) _ _ _ (str "exec*")).
  - vm_compute. left.
  - vm_compute. discriminate.
  - vm_compute. reflexivity.
Defined.

(** X4. With no blank pattern in them, two policies merge to the policy of
    their concatenated lists: the merged policy decides every name as the
    policy whose allow list is the two allow lists one after the other and
    whose deny list is the two deny lists one after the other. *)
Theorem X4_merge_is_concatenation `{CaseMapping} :
  ∀ (base extra : option ToolPolicy.ToolPolicy) (name : jsstring),
    let allows := default [] (base ≫= allow) ++ default [] (extra ≫= allow) in
    let denies := default [] (base ≫= deny) ++ default [] (extra ≫= deny) in
    Forall (λ p, trim p ≠ []) (allows ++ denies) →
    isToolAllowed name (mergeToolPolicies base extra)
    = isToolAllowed name (Some {| allow := Some allows; deny := Some denies |}).
Proof.
  intros base extra name allows denies [Ha Hd]%Forall_app.
  by apply isToolAllowed_merge.
Qed.

Lemma X4_merge_is_concatenation_witness :
  let base := Some {| allow := Some [str "read"]; deny := Some [str "exec*"] |} in
  let extra := Some {| allow := Some [str " Write "]; deny := None |} in
  isToolAllowed (H:=ascii_case) (str "write") (mergeToolPolicies base extra)
  = isToolAllowed (H:=ascii_case) (str "write")
      (Some {| allow := Some [str "read"; str " Write "];
               deny := Some [str "exec*"] |}).
Proof.
  intros base extra.
  apply (X4_merge_is_concatenation (H:=ascii_case) base extra (str "write")).
  vm_compute. repeat constructor; discriminate.
Defined.

(** X5. The merge can widen a policy. An allow list that holds only blank
    patterns allows no tool with a name; the merge drops the blank patterns,
    leaves the allow list out, and the merged policy allows every tool that
    is not denied. *)
Theorem X5_merge_drops_blank_allow `{CaseMapping} :
  ∀ (allows : list jsstring) (name : jsstring),
    allows ≠ [] →
    Forall (λ p, trim p = []) allows →
    normalizeToolName name ≠ [] →
    let policy := {| allow := Some allows; deny := None |} in
    isToolAllowed name (Some policy) = false
    ∧ mergeToolPolicies (Some policy) None
      = Some {| allow := None; deny := None |}
    ∧ isToolAllowed name (mergeToolPolicies (Some policy) None) = true.
Proof.
  intros allows name Hne Hblank Hname policy.
  assert (trimmed_nonempty (allows ++ []) = []) as Hclean.
  { rewrite app_nil_r. unfold trimmed_nonempty.
    clear Hne. induction Hblank as [|p ps Hp _ IH]; [done|].
    cbn. rewrite Hp. exact IH. }
  split.
  { unfold isToolAllowed. cbn [allow deny policy default from_option].
    change (default [] (Some allows)) with allows.
    change (matchesAny (normalizeToolName name) (compilePatterns [])) with false.
    cbv iota. unfold compilePatterns. rewrite length_map.
    destruct allows as [|a l]; [done|]. cbn [length Nat.eqb].
    apply not_true_iff_false. intros (p & Hp & Hm)%matchesAny_compilePatterns.
    rewrite compilePattern_blank in Hm
      by (by apply (proj1 (Forall_forall _ _) Hblank)).
    cbn in Hm. by apply bool_decide_eq_true in Hm. }
  assert (mergeToolPolicies (Some policy) None
          = Some {| allow := None; deny := None |}) as Hm.
  { unfold mergeToolPolicies. cbn [mbind option_bind allow deny policy default].
    change (default [] (Some allows)) with allows.
    change (default [] (@None (list jsstring))) with (@nil jsstring).
    change (id allows) with allows. by rewrite Hclean. }
  split; [done|]. by rewrite Hm.
Qed.

Lemma X5_merge_drops_blank_allow_witness :
  let policy := {| allow := Some [str " "]; deny := None |} in
  isToolAllowed (H:=ascii_case) (str "exec") (Some policy) = false
  ∧ isToolAllowed (H:=ascii_case) (str "exec")
      (mergeToolPolicies (Some policy) None) = true.
Proof.
  intros policy.
  assert ([str " "] ≠ []) as H1 by discriminate.
  assert (Forall (λ p, trim p = []) [str " "]) as H2
    by (repeat constructor).
  assert (normalizeToolName (H:=ascii_case) (str "exec") ≠ []) as H3
    by (vm_compute; discriminate).
  pose proof (X5_merge_drops_blank_allow (H:=ascii_case) _ _ H1 H2 H3)
    as (Hbefore & _ & Hafter).
  split; [exact Hbefore|exact Hafter].
Defined.

(** X6. Merging in a policy that only denies is filtering twice: when no
    pattern is blank and the extra policy has no allow pattern, the tools
    that pass the merged policy are the tools that pass the base policy and
    then the extra policy. *)
Theorem X6_filter_by_merged_denials `{CaseMapping} {Body : Type} :
  ∀ (tools : list (Tool Body)) (base extra : option ToolPolicy.ToolPolicy),
    default [] (extra ≫= allow) = [] →
    Forall (λ p, trim p ≠ [])
      (default [] (base ≫= allow) ++ default [] (base ≫= deny)
       ++ default [] (extra ≫= deny)) →
    filterToolsByPolicy tools (mergeToolPolicies base extra)
    = filterToolsByPolicy (filterToolsByPolicy tools base) extra.
Proof.
  intros tools base extra Hextra [Ha [Hd Hd']%Forall_app]%Forall_app.
  assert (∀ n, isToolAllowed n (mergeToolPolicies base extra)
               = isToolAllowed n base && isToolAllowed n extra) as Hdecide.
  { intros n. rewrite isToolAllowed_merge.
    - rewrite Hextra, app_nil_r, isToolAllowed_deny_app.
      rewrite <- isToolAllowed_fields. f_equal.
      rewrite (isToolAllowed_fields n extra), Hextra.
      unfold isToolAllowed. by cbn.
    - by rewrite Hextra, app_nil_r.
    - by apply Forall_app. }
  assert (∀ policy (l : list (Tool Body)),
            filterToolsByPolicy l policy
            = List.filter (λ tool, isToolAllowed (name tool) policy) l)
    as Hfilter.
  { intros [policy|] l; [done|]. cbn.
    induction l as [|t l IH]; [done|]. cbn. by rewrite <- IH. }
  rewrite !Hfilter, filter_filter_andb.
  apply List.filter_ext. intros tool. apply Hdecide.
Qed.

Lemma X6_filter_by_merged_denials_witness :
  let tools := [ {| name := str "read"; body := tt |};
                 {| name := str "exec"; body := tt |};
                 {| name := str "write"; body := tt |} ] in
  let base := Some {| allow := Some [str "read"; str "exec"]; deny := None |} in
  let extra := Some {| allow := None; deny := Some [str "ex*"] |} in
  filterToolsByPolicy (H:=ascii_case) tools (mergeToolPolicies base extra)
  = filterToolsByPolicy (H:=ascii_case)
      (filterToolsByPolicy (H:=ascii_case) tools base) extra.
Proof.
  intros tools base extra.
  apply (X6_filter_by_merged_denials (H:=ascii_case) tools base extra).
  - reflexivity.
  - vm_compute. repeat constructor; discriminate.
Defined.

End ToolSetFacts.

(** ** Frontmatter *)

Module FrontmatterFacts.
Import Syntax SkillPrimitives Skills Header.

Lemma before_close_eq (s : jsstring) :
  before_close s
  = if startsWith [10%N; 45%N; 45%N; 45%N] s
       || startsWith [13%N; 10%N; 45%N; 45%N; 45%N] s then Some []
    else match s with
         | [] => None
         | c :: t => b ← before_close t; Some (c :: b)
         end.
Proof. by destruct s. Qed.

Lemma startsWith_app (p l r : jsstring) :
  length p ≤ length l → startsWith p (l ++ r) = startsWith p l.
Proof.
  revert l. induction p as [|a p IH]; intros l Hlen; [by destruct l|].
  destruct l as [|b l]; cbn in Hlen; [lia|].
  cbn. rewrite IH by lia. done.
Qed.

Lemma startsWith_cons (a b : N) (p s : jsstring) :
  startsWith (a :: p) (b :: s) = (a =? b)%N && startsWith p s.
Proof. done. Qed.

Lemma startsWith_longer (p q s : jsstring) :
  startsWith p s = false → startsWith (p ++ q) s = false.
Proof.
  revert s. induction p as [|a p IH]; intros s; [done|].
  destruct s as [|b s]; [done|]. cbn.
  destruct (a =? b)%N; [apply IH|done].
Qed.

Lemma before_close_rest (block rest : jsstring) (cr : bool) :
  before_close (block ++ closing cr ++ rest) = before_close (block ++ closing cr).
Proof.
  induction block as [|c block IH].
  - by destruct cr.
  - rewrite (before_close_eq ((c :: block) ++ closing cr ++ rest)),
      (before_close_eq ((c :: block) ++ closing cr)).
    rewrite (app_assoc (c :: block)).
    rewrite !(startsWith_app _ ((c :: block) ++ closing cr) rest)
      by (rewrite length_app; destruct cr; cbn; lia).
    cbn [app]. rewrite <- IH, <- app_assoc. done.
Qed.

Lemma frontmatter_block_opening (cr : bool) (s : jsstring) :
  frontmatter_block (opening cr ++ s) = before_close s.
Proof. by destruct cr. Qed.

Ltac other_unit c :=
  destruct c as [|c]; [reflexivity|];
  repeat (destruct c as [c|c|]; try reflexivity; try (exfalso; congruence)).

Lemma frontmatter_block_eq (content : jsstring) :
  frontmatter_block content
  = if startsWith [45%N; 45%N; 45%N; 10%N] content
    then before_close (drop 4 content)
    else if startsWith [45%N; 45%N; 45%N; 13%N; 10%N] content
    then before_close (drop 5 content)
    else None.
Proof.
  destruct content as [|c1 content]; [done|].
  destruct (N.eqb_spec 45 c1) as [<-|H1];
    [|cbn [startsWith]; rewrite (proj2 (N.eqb_neq _ _) H1); cbn [andb];
      unfold frontmatter_block; other_unit c1].
  destruct content as [|c2 content]; [done|].
  destruct (N.eqb_spec 45 c2) as [<-|H2];
    [|cbn [startsWith]; rewrite (proj2 (N.eqb_neq _ _) H2); cbn [andb N.eqb Pos.eqb];
      unfold frontmatter_block; other_unit c2].
  destruct content as [|c3 content]; [done|].
  destruct (N.eqb_spec 45 c3) as [<-|H3];
    [|cbn [startsWith]; rewrite (proj2 (N.eqb_neq _ _) H3); cbn [andb N.eqb Pos.eqb];
      unfold frontmatter_block; other_unit c3].
  destruct content as [|c4 content]; [done|].
  destruct (N.eqb_spec 10 c4) as [<-|H4]; [reflexivity|].
  destruct (N.eqb_spec 13 c4) as [<-|H4'].
  - destruct content as [|c5 content]; [done|].
    destruct (N.eqb_spec 10 c5) as [<-|H5]; [reflexivity|].
    cbn [startsWith]. rewrite (proj2 (N.eqb_neq _ _) H5).
    cbn [andb N.eqb Pos.eqb]. unfold frontmatter_block. other_unit c5.
  - cbn [startsWith]. rewrite (proj2 (N.eqb_neq _ _) H4), (proj2 (N.eqb_neq _ _) H4').
    cbn [andb N.eqb Pos.eqb]. unfold frontmatter_block. other_unit c4.
Qed.

Lemma frontmatter_block_no_dashes (content : jsstring) :
  startsWith (str "---") content = false → frontmatter_block content = None.
Proof.
  intros Hs. rewrite frontmatter_block_eq.
  rewrite (startsWith_longer (str "---") [10%N]) by done.
  by rewrite (startsWith_longer (str "---") [13%N; 10%N]) by done.
Qed.


(** *** The loop over the lines *)

Lemma extractFrontmatter_eq (content : jsstring) :
  extractFrontmatter content
  = match frontmatter_block content with
    | None => ∅
    | Some block => foldl line_step ∅ (split_lines block)
    end.
Proof. reflexivity. Qed.

Lemma foldl_line_step_lookup (lines : list jsstring)
    (result : gmap jsstring jsstring) (key : jsstring) :
  foldl line_step result lines !! key
  = match last (List.filter (λ kv, bool_decide (kv.1 = key))
                  (omap frontmatter_line lines)) with
    | Some kv => Some (strip_quotes kv.2)
    | None => result !! key
    end.
Proof.
  revert result. induction lines as [|line lines IH]; intros result; [done|].
  cbn [foldl]. rewrite IH. unfold line_step.
  change (omap frontmatter_line (line :: lines))
    with (match frontmatter_line line with
          | Some kv => kv :: omap frontmatter_line lines
          | None => omap frontmatter_line lines
          end).
  destruct (frontmatter_line line) as [[k v]|]; [|done].
  cbn [List.filter fst]. case_bool_decide as Hk.
  - rewrite last_cons.
    destruct (last _) as [kv|]; [done|]. subst k. by rewrite lookup_insert_eq.
  - destruct (last _) as [kv|]; [done|]. by rewrite lookup_insert_ne.
Qed.

Lemma take_drop_while (p : N → bool) (s : jsstring) :
  take_while p s ++ drop_while p s = s.
Proof.
  induction s as [|c s IH]; [done|]. cbn.
  destruct (p c); [by rewrite <- IH at 3|done].
Qed.

Lemma take_while_self (p : N → bool) (s : jsstring) :
  forallb p (take_while p s) = true.
Proof.
  induction s as [|a s IH]; [done|]. cbn [take_while].
  destruct (p a) eqn:Ha; [|done]. cbn [forallb]. by rewrite Ha.
Qed.

(** What a line that is read gives: a key of the expected shape and a
    value that is a non-empty end of the line without line terminator. *)
Lemma frontmatter_line_Some (line key value : jsstring) :
  frontmatter_line line = Some (key, value) →
  plain_key key = true
  ∧ value ≠ []
  ∧ forallb (λ c, negb (is_line_terminator c)) value = true
  ∧ ∃ front, line = front ++ value.
Proof.
  unfold frontmatter_line. destruct line as [|c t]; [done|].
  destruct (is_alpha c) eqn:Hc; [|done].
  pose proof (take_drop_while is_key_char t) as Ht.
  destruct (drop_while is_key_char t) as [|colon rest] eqn:Hd; [done|].
  destruct (N.eqb_spec colon 58) as [->|Hcolon];
    [|destruct colon as [|colon]; [done|];
      repeat (destruct colon as [colon|colon|]; try done)].
  unfold line_value. destruct rest as [|r rest]; [done|].
  set (k := Nat.min _ _).
  destruct (forallb _ (drop k (r :: rest))) eqn:Hv; [|done].
  cbn. intros [= <- <-].
  split.
  { cbn [plain_key]. rewrite Hc. apply take_while_self. }
  split.
  { intros Hnil. apply (f_equal length) in Hnil.
    rewrite length_drop in Hnil. subst k. cbn in Hnil. lia. }
  split; [done|].
  exists (c :: take_while is_key_char t ++ 58%N :: take k (r :: rest)).
  rewrite <- Ht at 1. cbn. f_equal. rewrite <- app_assoc. f_equal. cbn.
  f_equal. by rewrite take_drop.
Qed.

Lemma forallb_last (q : N → bool) (s : jsstring) (c : N) :
  last s = Some c → q c = false → forallb q s = false.
Proof.
  intros Hlast Hq. induction s as [|a s IH]; [done|].
  rewrite last_cons in Hlast. cbn.
  destruct (last s) as [b|].
  - rewrite IH by done. apply andb_false_r.
  - injection Hlast as ->. by rewrite Hq.
Qed.

(** A line that ends with a line terminator is not read. *)
Lemma frontmatter_line_terminated (line : jsstring) (c : N) :
  last line = Some c → is_line_terminator c = true →
  frontmatter_line line = None.
Proof.
  intros Hlast Hc.
  destruct (frontmatter_line line) as [[key value]|] eqn:E; [|done].
  apply frontmatter_line_Some in E as (_ & Hne & Hv & front & ->).
  rewrite last_app in Hlast.
  destruct (last value) as [d|] eqn:Hd.
  - injection Hlast as ->.
    rewrite (forallb_last _ value c) in Hv; [done|done|by rewrite Hc].
  - destruct value; [done|]. rewrite last_cons in Hd.
    by destruct (last value).
Qed.


(** *** Where the block ends *)

Lemma before_close_units (l s : jsstring) :
  forallb no_break l = true →
  before_close (l ++ s) = (l ++.) <$> before_close s.
Proof.
  induction l as [|c l IH]; intros Hl.
  - cbn [app]. destruct (before_close s); reflexivity.
  - cbn in Hl. apply andb_true_iff in Hl as [Hc Hl].
    apply andb_true_iff in Hc as [H10 H13].
    apply negb_true_iff in H10, H13.
    cbn [app]. rewrite before_close_eq, !startsWith_cons.
    rewrite (N.eqb_sym 10), (N.eqb_sym 13), H10, H13. cbn [andb orb].
    rewrite IH by done. destruct (before_close s); reflexivity.
Qed.

Lemma before_close_line_end (cr : bool) (s : jsstring) :
  startsWith [45%N] s = false →
  before_close (line_end cr ++ s) = (line_end cr ++.) <$> before_close s.
Proof.
  intros Hs.
  assert (before_close (10%N :: s) = (10%N ::.) <$> before_close s) as H10.
  { rewrite before_close_eq, !startsWith_cons.
    cbn [N.eqb Pos.eqb andb orb].
    change (startsWith [45%N; 45%N; 45%N] s)
      with (startsWith ([45%N] ++ [45%N; 45%N]) s).
    rewrite startsWith_longer by done. destruct (before_close s); reflexivity. }
  destruct cr; [|exact H10].
  cbn [line_end app]. rewrite before_close_eq, !startsWith_cons.
  cbn [N.eqb Pos.eqb andb orb].
  change (startsWith [45%N; 45%N; 45%N] s)
    with (startsWith ([45%N] ++ [45%N; 45%N]) s).
  rewrite startsWith_longer by done. cbn [andb orb].
  rewrite H10. destruct (before_close s); reflexivity.
Qed.

Lemma join_cons (sep p q : jsstring) (rest : list jsstring) :
  join sep (p :: q :: rest) = p ++ sep ++ join sep (q :: rest).
Proof. done. Qed.

Lemma plain_line_units (line : jsstring) :
  plain_line line = true → forallb no_break line = true.
Proof. unfold plain_line. by intros [? _]%andb_true_iff. Qed.

Lemma lines_no_dash (cr cr' : bool) (lines : list jsstring) (rest : jsstring) :
  forallb plain_line lines = true →
  startsWith [45%N] (join (line_end cr) lines ++ closing cr' ++ rest) = false.
Proof.
  destruct lines as [|l ls]; [by destruct cr'|].
  cbn [forallb]. intros [Hl _]%andb_true_iff.
  unfold plain_line in Hl. apply andb_true_iff in Hl as [_ Hl].
  apply negb_true_iff in Hl.
  destruct l as [|c l].
  - destruct ls as [|l2 ls]; [by destruct cr'|]. rewrite join_cons.
    by destruct cr.
  - destruct ls as [|l2 ls]; [done|]. by rewrite join_cons.
Qed.

Lemma before_close_lines (cr cr' : bool) (lines : list jsstring)
    (rest : jsstring) :
  forallb plain_line lines = true →
  before_close (join (line_end cr) lines ++ closing cr' ++ rest)
  = Some (join (line_end cr) lines).
Proof.
  induction lines as [|l ls IH]; intros Hlines.
  - rewrite before_close_eq. by destruct cr'.
  - cbn [forallb] in Hlines. apply andb_true_iff in Hlines as [Hl Hls].
    destruct ls as [|l2 ls].
    + cbn [join]. rewrite before_close_units by by apply plain_line_units.
      rewrite (before_close_eq (closing cr' ++ rest)).
      replace (startsWith _ (closing cr' ++ rest) || startsWith _ (closing cr' ++ rest))
        with true by by destruct cr'.
      cbn. by rewrite app_nil_r.
    + rewrite join_cons, <- !app_assoc.
      rewrite before_close_units by by apply plain_line_units.
      rewrite before_close_line_end by by apply lines_no_dash.
      rewrite IH by done. done.
Qed.

(** *** The lines of a block *)

Lemma split_lines_feed (l t : jsstring) :
  forallb no_feed l = true → split_lines (l ++ 10%N :: t) = l :: split_lines t.
Proof.
  induction l as [|c l IH]; intros Hl; [done|].
  cbn in Hl. apply andb_true_iff in Hl as [Hc Hl].
  cbn [app split_lines]. unfold no_feed in Hc. apply negb_true_iff in Hc.
  rewrite Hc, IH by done. done.
Qed.

Lemma split_lines_one (l : jsstring) :
  forallb no_feed l = true → split_lines l = [l].
Proof.
  induction l as [|c l IH]; intros Hl; [done|].
  cbn in Hl. apply andb_true_iff in Hl as [Hc Hl].
  cbn [split_lines]. unfold no_feed in Hc. apply negb_true_iff in Hc.
  rewrite Hc, IH by done. done.
Qed.

Lemma plain_line_no_feed (line : jsstring) :
  plain_line line = true → forallb no_feed line = true.
Proof.
  intros Hl%plain_line_units. apply forallb_forall.
  intros c Hc. apply (proj1 (forallb_forall _ _) Hl) in Hc.
  unfold no_break in Hc. by apply andb_true_iff in Hc as [? _].
Qed.

Lemma split_lines_join (cr : bool) (lines : list jsstring) (final : jsstring) :
  forallb plain_line (lines ++ [final]) = true →
  split_lines (join (line_end cr) (lines ++ [final]))
  = map (λ l, l ++ if cr then [13%N] else []) lines ++ [final].
Proof.
  induction lines as [|l ls IH]; intros Hlines.
  - cbn in Hlines |- *. apply andb_true_iff in Hlines as [Hf _].
    by apply split_lines_one, plain_line_no_feed.
  - cbn [app forallb] in Hlines. apply andb_true_iff in Hlines as [Hl Hls].
    cbn [app map]. destruct (ls ++ [final]) as [|l2 ls'] eqn:E;
      [by destruct ls|].
    rewrite join_cons. unfold line_end at 1.
    rewrite <- (app_assoc _ [10%N]), app_assoc. cbn [app].
    rewrite split_lines_feed, IH; [done|done|].
    rewrite forallb_app, plain_line_no_feed by done. by destruct cr.
Qed.

(** *** Lines that give a key *)

Lemma take_while_stop (p : N → bool) (l r : jsstring) (c : N) :
  forallb p l = true → p c = false → take_while p (l ++ c :: r) = l.
Proof.
  intros Hl Hc. induction l as [|a l IH]; cbn.
  - by rewrite Hc.
  - cbn in Hl. apply andb_true_iff in Hl as [Ha Hl]. by rewrite Ha, IH.
Qed.

Lemma drop_while_stop (p : N → bool) (l r : jsstring) (c : N) :
  forallb p l = true → p c = false → drop_while p (l ++ c :: r) = c :: r.
Proof.
  intros Hl Hc. induction l as [|a l IH]; cbn.
  - by rewrite Hc.
  - cbn in Hl. apply andb_true_iff in Hl as [Ha Hl]. by rewrite Ha, IH.
Qed.

Lemma strip_quotes_plain (value : jsstring) :
  plain_value value = true → strip_quotes value = value.
Proof.
  unfold plain_value. intros [[_ Hhead]%andb_true_iff Hlast]%andb_true_iff.
  destruct value as [|c t]; [done|].
  apply andb_true_iff in Hhead as [_ Hq%negb_true_iff].
  unfold strip_quotes. rewrite Hq.
  destruct (last (c :: t)) as [d|] eqn:Hd; [|done].
  apply negb_true_iff in Hlast.
  apply last_Some in Hd as [front Hfront]. rewrite Hfront, rev_app_distr.
  cbn [rev app]. by rewrite Hlast.
Qed.

Lemma frontmatter_line_key_value (kv : jsstring * jsstring) :
  plain_key kv.1 = true → plain_value kv.2 = true →
  frontmatter_line (key_value kv) = Some kv.
Proof.
  destruct kv as [key value]. cbn [fst snd]. intros Hkey Hvalue.
  destruct key as [|c t]; [done|]. cbn in Hkey.
  apply andb_true_iff in Hkey as [Hc Ht].
  unfold plain_value in Hvalue.
  apply andb_true_iff in Hvalue as [[Hv Hhead]%andb_true_iff _].
  destruct value as [|v vs]; [done|].
  apply andb_true_iff in Hhead as [Hws%negb_true_iff _].
  unfold key_value, frontmatter_line. cbn [fst snd app str].
  rewrite Hc.
  change (t ++ str ": " ++ v :: vs) with (t ++ 58%N :: 32%N :: v :: vs).
  rewrite drop_while_stop, take_while_stop by done.
  unfold line_value. cbn [take_while is_ws]. 
  change (is_ws 32) with true. cbv iota. cbn [take_while]. rewrite Hws.
  cbn [length Nat.sub Nat.min drop]. rewrite Hv. done.
Qed.


Lemma is_key_char_no_break (c : N) : is_key_char c = true → no_break c = true.
Proof.
  intros Hc. unfold no_break.
  destruct (N.eqb_spec c 10) as [->|_]; [done|].
  destruct (N.eqb_spec c 13) as [->|_]; [done|]. done.
Qed.

Lemma not_terminator_no_break (c : N) :
  negb (is_line_terminator c) = true → no_break c = true.
Proof.
  unfold is_line_terminator, no_break.
  destruct (c =? 10)%N, (c =? 13)%N; done.
Qed.

Lemma forallb_impl (p q : N → bool) (s : jsstring) :
  (∀ c, p c = true → q c = true) → forallb p s = true → forallb q s = true.
Proof.
  intros Hpq Hs. apply forallb_forall. intros c Hc.
  apply Hpq, (proj1 (forallb_forall _ _) Hs), Hc.
Qed.

Lemma plain_key_value (kv : jsstring * jsstring) :
  plain_key kv.1 = true → plain_value kv.2 = true →
  plain_line (key_value kv) = true.
Proof.
  destruct kv as [key value]. cbn [fst snd]. intros Hkey Hvalue.
  destruct key as [|c t]; [done|]. cbn in Hkey.
  apply andb_true_iff in Hkey as [Hc Ht].
  unfold plain_value in Hvalue.
  apply andb_true_iff in Hvalue as [[Hv _]%andb_true_iff _].
  unfold plain_line, key_value. cbn [fst snd app forallb].
  apply andb_true_iff. split.
  - apply andb_true_iff. split.
    { apply is_key_char_no_break. unfold is_key_char, is_word. by rewrite Hc. }
    rewrite !forallb_app. apply andb_true_iff. split.
    { by apply (forallb_impl is_key_char), Ht; apply is_key_char_no_break. }
    apply andb_true_iff. split; [done|].
    by apply (forallb_impl (λ c, negb (is_line_terminator c))), Hv;
      apply not_terminator_no_break.
  - rewrite startsWith_cons.
    destruct (N.eqb_spec 45 c) as [<-|_]; [done|done].
Qed.

Lemma split_lines_lines (lines : list jsstring) :
  lines ≠ [] → forallb plain_line lines = true →
  split_lines (join [10%N] lines) = lines.
Proof.
  intros Hne Hlines.
  destruct (exists_last Hne) as (init & final & ->).
  rewrite (split_lines_join false) by done.
  f_equal. etrans; [|apply map_id]. apply map_ext.
  intros l. apply app_nil_r.
Qed.

Lemma foldl_key_values (pairs : list (jsstring * jsstring))
    (result : gmap jsstring jsstring) :
  forallb (λ kv, plain_key kv.1 && plain_value kv.2) pairs = true →
  foldl line_step result (map key_value pairs)
  = foldl (λ m kv, <[kv.1 := kv.2]> m) result pairs.
Proof.
  revert result. induction pairs as [|kv pairs IH]; intros result Hp; [done|].
  cbn [forallb] in Hp. apply andb_true_iff in Hp as [Hkv Hp].
  apply andb_true_iff in Hkv as [Hk Hv].
  cbn [map foldl]. rewrite <- IH by done. f_equal.
  unfold line_step. rewrite frontmatter_line_key_value by done.
  destruct kv as [k v]. by rewrite strip_quotes_plain.
Qed.

Lemma foldl_insert_list_to_map (pairs : list (jsstring * jsstring)) :
  foldl (λ (m : gmap jsstring jsstring) kv, <[kv.1 := kv.2]> m) ∅ pairs
  = list_to_map (rev pairs).
Proof.
  induction pairs as [|kv pairs IH] using rev_ind; [done|].
  rewrite foldl_app, rev_app_distr. cbn. by rewrite IH.
Qed.

Lemma foldl_unread (lines : list jsstring) (result : gmap jsstring jsstring) :
  Forall (λ l, frontmatter_line l = None) lines →
  foldl line_step result lines = result.
Proof.
  intros Hlines. revert result.
  induction Hlines as [|l ls Hl _ IH]; intros result; [done|].
  cbn [foldl]. rewrite IH. unfold line_step. by rewrite Hl.
Qed.

Lemma forallb_strip_quotes (q : N → bool) (value : jsstring) :
  forallb q value = true → forallb q (strip_quotes value) = true.
Proof.
  intros Hv. unfold strip_quotes.
  set (v := match value with c :: t => if is_quote c then t else value
                        | [] => [] end).
  assert (forallb q v = true) as Hq.
  { subst v. destruct value as [|c t]; [done|].
    destruct (is_quote c); [|done].
    cbn in Hv. by apply andb_true_iff in Hv as [_ ?]. }
  clearbody v. rewrite <- JSFacts.forallb_rev in Hq.
  destruct (rev v) as [|c t] eqn:E; [done|].
  destruct (is_quote c).
  - rewrite JSFacts.forallb_rev. cbn in Hq.
    by apply andb_true_iff in Hq as [_ ?].
  - by rewrite <- JSFacts.forallb_rev, E.
Qed.

Lemma extractFrontmatter_header (cr cr' : bool) (lines : list jsstring)
    (rest : jsstring) :
  forallb plain_line lines = true →
  extractFrontmatter
    (opening cr ++ join (line_end cr') lines ++ closing cr ++ rest)
  = foldl line_step ∅ (split_lines (join (line_end cr') lines)).
Proof.
  intros Hlines.
  by rewrite extractFrontmatter_eq, frontmatter_block_opening,
    before_close_lines.
Qed.

(** X7. Outside the header nothing is read: a content that does not start
    with three hyphens has no frontmatter, and what follows the closing
    delimiter of a header does not change what is read from it. Both
    parsers agree. *)
Theorem X7_frontmatter_reads_the_header_only :
  (∀ content,
     startsWith (str "---") content = false →
     extractFrontmatter content = ∅ ∧ parseFrontmatter content = ∅)
  ∧ (∀ (cr cr' : bool) (block rest : jsstring),
       extractFrontmatter (opening cr ++ block ++ closing cr' ++ rest)
       = extractFrontmatter (opening cr ++ block ++ closing cr')
       ∧ parseFrontmatter (opening cr ++ block ++ closing cr' ++ rest)
         = parseFrontmatter (opening cr ++ block ++ closing cr')).
Proof.
  split.
  - intros content Hs. change parseFrontmatter with extractFrontmatter.
    rewrite extractFrontmatter_eq.
    by rewrite frontmatter_block_no_dashes.
  - intros cr cr' block rest. change parseFrontmatter with extractFrontmatter.
    rewrite !extractFrontmatter_eq, !frontmatter_block_opening.
    by rewrite before_close_rest.
Qed.

(** X8. A key that is given twice has the value of the last line that gives
    it: looking a key up in the frontmatter is taking the last line of the
    block that is read with this key, without its quotes. *)
Theorem X8_frontmatter_last_line_wins :
  ∀ (content key : jsstring),
    extractFrontmatter content !! key
    = match frontmatter_block content with
      | None => None
      | Some block =>
          match last (List.filter (λ kv, bool_decide (kv.1 = key))
                        (omap frontmatter_line (split_lines block))) with
          | Some kv => Some (strip_quotes kv.2)
          | None => None
          end
      end
    ∧ parseFrontmatter content !! key = extractFrontmatter content !! key.
Proof.
  intros content key. split; [|done].
  rewrite extractFrontmatter_eq.
  destruct (frontmatter_block content) as [block|]; [|done].
  by rewrite foldl_line_step_lookup.
Qed.

(** X9. What the frontmatter holds: every key is a letter followed by word
    units or hyphens, and no value holds a line terminator. *)
Theorem X9_frontmatter_entries :
  ∀ (content key value : jsstring),
    extractFrontmatter content !! key = Some value →
    plain_key key = true
    ∧ forallb (λ c, negb (is_line_terminator c)) value = true.
Proof.
  intros content key value. rewrite extractFrontmatter_eq.
  destruct (frontmatter_block content) as [block|]; [|done].
  rewrite foldl_line_step_lookup.
  destruct (last _) as [kv|] eqn:Hlast; [|done].
  intros [= <-].
  apply last_Some in Hlast as [front Hfront].
  assert (In kv (List.filter (λ kv, bool_decide (kv.1 = key))
                   (omap frontmatter_line (split_lines block)))) as Hin
    by (rewrite Hfront; apply in_or_app; right; by left).
  apply List.filter_In in Hin as [Hin Hkey].
  apply bool_decide_eq_true in Hkey as <-.
  apply list_elem_of_In, list_elem_of_omap in Hin as (line & _ & Hline).
  destruct kv as [k v].
  apply frontmatter_line_Some in Hline as (Hk & _ & Hv & _).
  split; [done|]. by apply forallb_strip_quotes.
Qed.

Lemma X9_frontmatter_entries_witness :
  plain_key (str "name") = true
  ∧ forallb (λ c, negb (is_line_terminator c)) (str "Deploy") = true.
Proof.
  apply (X9_frontmatter_entries
           (header false [str "name: 'Deploy'"; str "description: x"])).
  vm_compute. reflexivity.
Defined.

(** X10. Reading back a header: a header of key-value lines, with line
    feeds as line ends, whose keys are letters followed by word units or
    hyphens and whose values are on one line, without white space in front
    and without a quote at either end, is read as the map of its pairs, a
    later pair replacing an earlier one with the same key. *)
Theorem X10_header_round_trip :
  ∀ (pairs : list (jsstring * jsstring)) (rest : jsstring),
    forallb (λ kv, plain_key kv.1 && plain_value kv.2) pairs = true →
    extractFrontmatter (header false (map key_value pairs) ++ rest)
    = list_to_map (rev pairs)
    ∧ parseFrontmatter (header false (map key_value pairs) ++ rest)
      = list_to_map (rev pairs).
Proof.
  intros pairs rest Hpairs. change parseFrontmatter with extractFrontmatter.
  assert (forallb plain_line (map key_value pairs) = true) as Hlines.
  { apply forallb_forall. intros l (kv & <- & Hkv)%in_map_iff.
    apply (proj1 (forallb_forall _ _) Hpairs) in Hkv.
    apply andb_true_iff in Hkv as [? ?]. by apply plain_key_value. }
  assert (extractFrontmatter (header false (map key_value pairs) ++ rest)
          = list_to_map (rev pairs)) as Hread; [|done].
  unfold header. rewrite <- !app_assoc.
  rewrite (extractFrontmatter_header false false) by done.
  destruct pairs as [|kv pairs]; [done|].
  change (line_end false) with [10%N].
  rewrite split_lines_lines by done.
  by rewrite foldl_key_values, foldl_insert_list_to_map.
Qed.

Lemma X10_header_round_trip_witness :
  extractFrontmatter
    (header false [str "name: Deploy Service"; str "description: Ships it";
                   str "name: deploy"]
     ++ 10%N :: str "Steps.")
  = list_to_map [ (str "name", str "deploy");
                  (str "description", str "Ships it");
                  (str "name", str "Deploy Service") ].
Proof.
  exact (proj1 (X10_header_round_trip
                  [ (str "name", str "Deploy Service");
                    (str "description", str "Ships it");
                    (str "name", str "deploy") ]
                  (10%N :: str "Steps.") eq_refl)).
Defined.

(** X11. Carriage returns hide keys. A line that ends with a line terminator
    is not read as a key; so of a header whose lines end with a carriage
    return and a line feed, only the last line is read. *)
Theorem X11_crlf_header_keeps_last_line :
  (∀ (line : jsstring) (c : N),
     last line = Some c → is_line_terminator c = true →
     frontmatter_line line = None)
  ∧ (∀ (lines : list jsstring) (final rest : jsstring),
       forallb plain_line (lines ++ [final]) = true →
       extractFrontmatter (header true (lines ++ [final]) ++ rest)
       = line_step ∅ final
       ∧ parseFrontmatter (header true (lines ++ [final]) ++ rest)
         = line_step ∅ final)
  ∧ extractFrontmatter
      (header true [str "name: deploy"; str "description: Ships it"])
    = {[ str "description" := str "Ships it" ]}.
Proof.
  split; [exact frontmatter_line_terminated|]. split; [|vm_compute; reflexivity].
  intros lines final rest Hlines. change parseFrontmatter with extractFrontmatter.
  assert (extractFrontmatter (header true (lines ++ [final]) ++ rest)
          = line_step ∅ final) as Hread; [|done].
  unfold header. rewrite <- !app_assoc.
  rewrite (extractFrontmatter_header true true) by done.
  rewrite split_lines_join by done.
  rewrite foldl_app.
  rewrite (foldl_unread (map (λ l, l ++ [13%N]) lines)); [reflexivity|].
  apply List.Forall_map, Forall_forall. intros l _.
  apply (frontmatter_line_terminated _ 13); [apply last_snoc|done].
Qed.

End FrontmatterFacts.

(** ** Invocation policy *)

Module SwitchFacts.
Import Skills.

Ltac literal_units :=
  repeat match goal with
         | |- context [str ?s] =>
             let v := eval vm_compute in (str s) in change (str s) with v
         end.

Lemma parseBool_true `{CaseMapping} (value : option jsstring) (fallback : bool) :
  parseBool value fallback = true
  ↔ (∃ v, value = Some v
          ∧ toLowerCase (trim v) ∈ [str "true"; str "yes"; str "1"])
    ∨ (fallback = true
       ∧ ¬ ∃ v, value = Some v
                ∧ toLowerCase (trim v) ∈ [str "false"; str "no"; str "0"]).
Proof.
  destruct value as [v|]; cbn [parseBool].
  2:{ split; [intros ->; right; split; [done|]; by intros (? & ? & _)|].
      intros [(? & ? & _)|[-> _]]; done. }
  assert (∀ words : list jsstring,
            (∃ v', Some v = Some v' ∧ toLowerCase (trim v') ∈ words)
            ↔ toLowerCase (trim v) ∈ words) as Hsaid.
  { intros words. split; [by intros (? & [= <-] & ?)|eauto]. }
  rewrite !Hsaid, !elem_of_cons, !elem_of_nil.
  generalize (toLowerCase (trim v)). intros w. literal_units.
  repeat case_bool_decide; cbn [orb]; intuition congruence.
Qed.

(** X12. The switches of the frontmatter. [parseBool] answers true exactly
    when the value, trimmed and in lower case, is one of true, yes, 1, or
    when the fallback is true and the value is none of false, no, 0 (or is
    missing); both copies of [parseBool] agree. Hence a skill is kept from
    the commands only by a user-invocable key that says false, no or 0, and
    kept from the model only by a disable-model-invocation key that says
    true, yes or 1; an empty frontmatter gives the defaults. *)
Theorem X12_invocation_switches `{CaseMapping} :
  (∀ (value : option jsstring) (fallback : bool),
     let said (words : list jsstring) :=
       ∃ v, value = Some v ∧ toLowerCase (trim v) ∈ words in
     (parseBool value fallback = true
      ↔ said [str "true"; str "yes"; str "1"]
        ∨ (fallback = true ∧ ¬ said [str "false"; str "no"; str "0"]))
     ∧ SkillPrimitives.parseBool value fallback = parseBool value fallback)
  ∧ (∀ fm : gmap jsstring jsstring,
       let policy := resolveInvocationPolicy fm in
       let said (key : jsstring) (words : list jsstring) :=
         ∃ v, fm !! key = Some v ∧ toLowerCase (trim v) ∈ words in
       (SkillInvocationPolicy.userInvocable policy = false
        ↔ said (str "user-invocable") [str "false"; str "no"; str "0"])
       ∧ (SkillInvocationPolicy.disableModelInvocation policy = true
          ↔ said (str "disable-model-invocation")
              [str "true"; str "yes"; str "1"]))
  ∧ resolveInvocationPolicy ∅
    = {| SkillInvocationPolicy.userInvocable := true;
         SkillInvocationPolicy.disableModelInvocation := false |}.
Proof.
  split; [|split; [|done]].
  - intros value fallback said. split; [apply parseBool_true|done].
  - intros fm policy said. subst policy said. cbv beta.
    cbn [resolveInvocationPolicy SkillInvocationPolicy.userInvocable
           SkillInvocationPolicy.disableModelInvocation].
    split.
    + rewrite <- not_true_iff_false, parseBool_true. split.
      * intros Hn. destruct (fm !! str "user-invocable") as [v|] eqn:E.
        2:{ exfalso. apply Hn. right. split; [done|]. by intros (? & ? & _). }
        exists v. split; [done|].
        destruct (decide (toLowerCase (trim v)
                          ∈ [str "false"; str "no"; str "0"])) as [?|Hno];
          [done|].
        exfalso. apply Hn. right. split; [done|].
        intros (v' & [= <-] & ?). done.
      * intros (v & Hv & Hin) [(v' & Hv' & Hyes)|[_ Hno]].
        -- rewrite Hv in Hv'. injection Hv' as <-.
           revert Hin Hyes. rewrite !elem_of_cons, !elem_of_nil.
           generalize (toLowerCase (trim v)). intros w. literal_units.
           intuition congruence.
        -- apply Hno. eauto.
    + rewrite parseBool_true. split; [|by left].
      intros [?|[? _]]; done.
Qed.

End SwitchFacts.

(** ** Synthesized commands *)

Module SynthesisFacts.
Import Skills SanitizeFacts AsciiFacts CollisionFacts.

Lemma decimal_short (i : nat) :
  2 ≤ i < 1000 → length (decimal (N.of_nat i)) ≤ 3.
Proof.
  intros Hi.
  assert (forallb (λ k, length (decimal (N.of_nat k)) <=? 3) (seq 2 998)
          = true) as Hall by (vm_compute; reflexivity).
  rewrite forallb_forall in Hall. apply Nat.leb_le, Hall, in_seq. lia.
Qed.

(** Every name [resolveUniqueCommandName] can answer has between 1 and 32
    units. *)
Lemma name_pool_lengths (base : jsstring) :
  1 ≤ length base ≤ COMMAND_MAX_LENGTH →
  Forall (λ n, 1 ≤ length n ≤ COMMAND_MAX_LENGTH) (name_pool base).
Proof.
  unfold COMMAND_MAX_LENGTH. intros Hbase. unfold name_pool.
  apply Forall_cons. split; [done|].
  apply Forall_cons. split.
  { unfold fallback_name, slice0, COMMAND_MAX_LENGTH.
    rewrite length_app, length_take.
    change (Nat.max 1 (32 - 2)) with 30. change (length (str "_x")) with 2.
    lia. }
  unfold candidates. apply Forall_forall. intros n Hn.
  apply list_elem_of_In, in_map_iff in Hn as (i & <- & Hi).
  apply in_seq in Hi.
  pose proof (decimal_short i ltac:(lia)) as Hd.
  unfold candidate, slice0, COMMAND_MAX_LENGTH.
  rewrite !length_app, length_take. change (length (str "_")) with 1.
  lia.
Qed.

Section WithCaseMapping.
Context `{CaseMapping}.

(** What every command name is like, however many there are. *)
#[local] Abbreviation well_named :=
  (λ n : jsstring,
     1 ≤ length n ≤ COMMAND_MAX_LENGTH
     ∧ Forall (λ c, is_command_char c = true) n).

Lemma resolveUniqueCommandName_well_named (raw : jsstring)
    (used : gset jsstring) :
  well_named (resolveUniqueCommandName (sanitizeCommandName raw) used).
Proof.
  split.
  - pose proof (name_pool_lengths (sanitizeCommandName raw)
                  (sanitizeCommandName_length raw)) as Hpool.
    apply (proj1 (Forall_forall _ _) Hpool), list_elem_of_In,
      resolveUniqueCommandName_pool.
  - apply resolveUniqueCommandName_spec, sanitizeCommandName_alphabet.
Qed.

Lemma command_names_well_named (skillNames : list jsstring) :
  ∀ state, Forall well_named state.2 →
           Forall well_named (foldl name_step state skillNames).2.
Proof.
  induction skillNames as [|n ns IH]; intros [used names] Hstate; [done|].
  cbn [foldl]. apply IH. cbn [name_step snd]. apply Forall_app. split; [done|].
  apply Forall_singleton, resolveUniqueCommandName_well_named.
Qed.

Lemma build_step_fields (entries : list SkillEntry.t) :
  ∀ used specs,
    map SkillCommandSpec.skillName (foldl build_step (used, specs) entries).2
    = map SkillCommandSpec.skillName specs
      ++ map (λ e, Skill.name (SkillEntry.skill e)) entries
    ∧ map SkillCommandSpec.description
        (foldl build_step (used, specs) entries).2
      = map SkillCommandSpec.description specs
        ++ map (λ e, command_description (SkillEntry.skill e)) entries.
Proof.
  induction entries as [|e es IH]; intros used specs.
  - cbn. by rewrite !app_nil_r.
  - cbn [foldl build_step].
    destruct (IH ({[toLowerCase
                      (resolveUniqueCommandName
                         (sanitizeCommandName (Skill.name (SkillEntry.skill e)))
                         used)]} ∪ used)
                (specs ++
                   [{| SkillCommandSpec.name :=
                         resolveUniqueCommandName
                           (sanitizeCommandName
                              (Skill.name (SkillEntry.skill e))) used;
                       SkillCommandSpec.skillName :=
                         Skill.name (SkillEntry.skill e);
                       SkillCommandSpec.description :=
                         command_description (SkillEntry.skill e) |}]))
      as [-> ->].
    rewrite !map_app, <- !app_assoc. done.
Qed.

Lemma command_description_length (skill : Skill.t) :
  length (command_description skill) ≤ DESCRIPTION_MAX_LENGTH.
Proof.
  unfold command_description, DESCRIPTION_MAX_LENGTH, slice0.
  destruct (Nat.ltb_spec 100 (length (or_else (Some (trim (Skill.description skill)))
                                        (Skill.name skill)))) as [Hlong|Hshort];
    [|done].
  rewrite length_app, length_take. change (length [8230%N]) with 1. lia.
Qed.

End WithCaseMapping.

Lemma commands_well_named `{CaseMapping} (entries : list SkillEntry.t) :
  Forall (λ c, 1 ≤ length (SkillCommandSpec.name c) ≤ COMMAND_MAX_LENGTH
               ∧ Forall (λ u, is_command_char u = true)
                   (SkillCommandSpec.name c))
    (buildSkillCommandSpecs entries).
Proof.
  apply (proj1 (List.Forall_map SkillCommandSpec.name
                  (λ n, 1 ≤ length n ≤ COMMAND_MAX_LENGTH
                        ∧ Forall (λ u, is_command_char u = true) n) _)).
  rewrite buildSkillCommandSpecs_names.
  apply (command_names_well_named _ (∅, [])), Forall_nil_2.
Qed.

(** X13. The commands of [buildSkillCommandSpecs], however many entries
    there are: one command for each user-invocable entry, in their order,
    with the name of the skill and its description as [command_description]
    makes it; every command name has between 1 and 32 units, all of them
    lower-case letters, digits or underscores; no description is longer
    than 100 units. *)
Theorem X13_buildSkillCommandSpecs_shape `{CaseMapping} :
  ∀ entries : list SkillEntry.t,
    let invocable :=
      List.filter
        (λ e, SkillInvocationPolicy.userInvocable (SkillEntry.invocation e))
        entries in
    let commands := buildSkillCommandSpecs entries in
    map SkillCommandSpec.skillName commands
    = map (λ e, Skill.name (SkillEntry.skill e)) invocable
    ∧ map SkillCommandSpec.description commands
      = map (λ e, command_description (SkillEntry.skill e)) invocable
    ∧ Forall (λ c, 1 ≤ length (SkillCommandSpec.name c) ≤ 32
                   ∧ Forall (λ u, is_command_char u = true)
                       (SkillCommandSpec.name c)
                   ∧ length (SkillCommandSpec.description c) ≤ 100)
        commands.
Proof.
  intros entries invocable commands.
  destruct (build_step_fields invocable ∅ []) as [Hskill Hdesc].
  split; [exact Hskill|]. split; [exact Hdesc|].
  pose proof (command_names_well_named
                (map (λ e, Skill.name (SkillEntry.skill e)) invocable)
                (∅, []) (Forall_nil_2 _)) as Hnames.
  fold (command_names (map (λ e, Skill.name (SkillEntry.skill e)) invocable))
    in Hnames.
  subst invocable. rewrite <- buildSkillCommandSpecs_names in Hnames.
  fold commands in Hnames.
  apply (proj1 (List.Forall_map SkillCommandSpec.name _ _)) in Hnames.
  assert (Forall (λ d, length d ≤ 100)
            (map SkillCommandSpec.description commands)) as Hd.
  { subst commands. unfold buildSkillCommandSpecs. rewrite Hdesc.
    apply List.Forall_map, Forall_forall. intros e _.
    apply command_description_length. }
  apply (proj1 (List.Forall_map SkillCommandSpec.description _ _)) in Hd.
  apply Forall_forall. intros c Hc.
  destruct (proj1 (Forall_forall _ _) Hnames c Hc) as [Hlen Halpha].
  split; [exact Hlen|]. split; [exact Halpha|].
  by apply (proj1 (Forall_forall _ _) Hd).
Qed.

(** X14. With at most 999 user-invocable entries no command name is given
    twice, also when the names are compared without regard to case. *)
Theorem X14_command_names_are_distinct `{CaseMapping} :
  ∀ entries : list SkillEntry.t,
    length (List.filter
              (λ e, SkillInvocationPolicy.userInvocable (SkillEntry.invocation e))
              entries) ≤ 999 →
    let names := map SkillCommandSpec.name (buildSkillCommandSpecs entries) in
    List.NoDup names
    ∧ List.NoDup (map toLowerCase names).
Proof.
  intros entries Hlen names.
  destruct (buildSkillCommandSpecs_distinct entries Hlen) as [Hnd Hlower].
  split; [exact Hnd|].
  replace (map toLowerCase names) with names; [exact Hnd|].
  subst names. rewrite map_map. apply map_ext_in. intros c Hc.
  symmetry. by apply (proj1 (List.Forall_forall _ _) Hlower).
Qed.

Lemma X14_command_names_are_distinct_witness :
  List.NoDup
    (map SkillCommandSpec.name
       (buildSkillCommandSpecs (H:=JSFacts.ascii_case)
          [ Examples.entry_named (str "Deploy Service");
            Examples.entry_named (str "deploy_service");
            Examples.entry_named (str "DEPLOY-SERVICE") ])).
Proof.
  refine (proj1 (X14_command_names_are_distinct (H:=JSFacts.ascii_case) _ _)).
  cbn. lia.
Defined.

End SynthesisFacts.

(** ** Reaching a command *)

Module ReachFacts.
Import Skills SanitizeFacts AsciiFacts CollisionFacts CommandFacts SynthesisFacts.

Lemma is_command_char_not_ws (c : N) :
  is_command_char c = true → is_ws c = false.
Proof.
  intros Hc%is_command_char_bounds.
  assert (48 ≤ c < 160)%N as Hrange by lia. unfold is_ws.
  rewrite (proj2 (N.leb_gt c 13)) by lia.
  rewrite (proj2 (N.leb_gt 8192 c)) by lia.
  rewrite !(proj2 (N.eqb_neq c _)) by lia.
  by destruct (9 <=? c)%N.
Qed.

Lemma trim_fixed (s : jsstring) (c d : N) :
  head s = Some c → last s = Some d → is_ws c = false → is_ws d = false →
  trim s = s.
Proof.
  intros Hhead Hlast Hc Hd. unfold trim, trimStart, trimEnd.
  destruct s as [|c' t]; [done|]. injection Hhead as ->.
  cbn [drop_while]. rewrite Hc.
  apply last_Some in Hlast as [front ->]. rewrite rev_app_distr.
  cbn [rev app drop_while]. rewrite Hd.
  cbn [rev]. by rewrite rev_involutive.
Qed.

Lemma length_drop_while_lt (p : N → bool) (c : N) (t : jsstring) :
  p c = true → length (drop_while p (c :: t)) < length (c :: t).
Proof.
  intros Hc. cbn [drop_while]. rewrite Hc.
  pose proof (length_drop_while_le p t). cbn. lia.
Qed.

(** A non-empty string that [trim] leaves as it is has no white space at
    either end. *)
Lemma trimmed_ends (s : jsstring) :
  trim s = s → s ≠ [] →
  ∃ c d, head s = Some c ∧ last s = Some d
         ∧ is_ws c = false ∧ is_ws d = false.
Proof.
  intros Htrim Hne. destruct s as [|c t]; [done|].
  assert (is_ws c = false) as Hc.
  { destruct (is_ws c) eqn:Hc; [|done]. exfalso.
    apply (f_equal length) in Htrim. unfold trim, trimEnd, trimStart in Htrim.
    rewrite length_rev in Htrim.
    pose proof (length_drop_while_le is_ws (rev (drop_while is_ws (c :: t)))).
    rewrite length_rev in *.
    pose proof (length_drop_while_lt is_ws c t Hc). lia. }
  unfold trim, trimStart in Htrim. cbn [drop_while] in Htrim.
  rewrite Hc in Htrim. unfold trimEnd in Htrim.
  destruct (rev (c :: t)) as [|d r] eqn:Hrev.
  { apply (f_equal length) in Hrev. rewrite length_rev in Hrev. done. }
  assert (last (c :: t) = Some d) as Hlast.
  { apply last_Some. exists (rev r).
    by rewrite <- (rev_involutive (c :: t)), Hrev. }
  exists c, d. split; [done|]. split; [done|]. split; [done|].
  destruct (is_ws d) eqn:Hd; [|done]. exfalso.
  apply (f_equal length) in Htrim. rewrite length_rev in Htrim.
  pose proof (length_drop_while_lt is_ws d r Hd) as Hlt.
  apply (f_equal length) in Hrev. rewrite length_rev in Hrev.
  rewrite Htrim, <- Hrev in Hlt. lia.
Qed.

Lemma take_while_all (p : N → bool) (s : jsstring) :
  forallb p s = true → take_while p s = s ∧ drop_while p s = [].
Proof.
  induction s as [|c s IH]; [done|]. cbn.
  intros [Hc Hs]%andb_true_iff. rewrite Hc.
  destruct (IH Hs) as [-> ->]. done.
Qed.

Lemma find_unique {A : Type} (f : A → jsstring) (l : list A) (x : A) :
  List.NoDup (map f l) → In x l →
  List.find (λ e, str_eqb (f e) (f x)) l = Some x.
Proof.
  induction l as [|a l IH]; [done|]. cbn [map List.find].
  intros Hnd Hin. apply List.NoDup_cons_iff in Hnd as [Ha Hnd].
  unfold str_eqb at 1. case_bool_decide as Hf.
  - destruct Hin as [->|Hin]; [done|].
    exfalso. apply Ha. rewrite Hf. by apply in_map.
  - destruct Hin as [->|Hin]; [done|]. by apply IH.
Qed.

Section WithCaseMapping.
Context `{CaseMapping}.

Lemma resolve_direct (input token : jsstring) (rest : option jsstring)
    (commands : list SkillCommandSpec.t) :
  command_match (trim input) = Some (token, rest) →
  toLowerCase (trim token) ≠ [] →
  toLowerCase (trim token) ≠ str "skill" →
  resolveCommandInvocation input commands
  = direct_invocation (toLowerCase (trim token)) rest commands.
Proof.
  intros Hm Hne Hskill. unfold resolveCommandInvocation.
  rewrite (command_match_startsWith _ _ _ Hm), Hm. cbn [negb].
  destruct (toLowerCase (trim token)) as [|c t] eqn:E; [done|].
  unfold str_eqb. by rewrite bool_decide_eq_false_2.
Qed.

End WithCaseMapping.

Lemma token_alone (n : jsstring) :
  n ≠ [] → forallb (λ c, negb (is_ws c)) n = true →
  token_and_rest n = Some (n, None).
Proof.
  intros Hne Hn. unfold token_and_rest.
  destruct (take_while_all _ n Hn) as [-> ->]. by destruct n.
Qed.

Lemma token_with_arguments (n gap args : jsstring) (a : N) :
  n ≠ [] → forallb (λ c, negb (is_ws c)) n = true →
  gap ≠ [] → forallb is_ws gap = true →
  head args = Some a → is_ws a = false →
  token_and_rest (n ++ gap ++ args) = Some (n, Some args).
Proof.
  intros Hne Hn Hgap Hws Hhead Ha. unfold token_and_rest.
  destruct gap as [|g gap]; [done|]. cbn in Hws.
  apply andb_true_iff in Hws as [Hg Hws].
  cbn [app].
  rewrite (FrontmatterFacts.take_while_stop _ n)
    by (try done; by rewrite Hg).
  rewrite (FrontmatterFacts.drop_while_stop _ n)
    by (try done; by rewrite Hg).
  destruct n as [|c n]; [done|].
  cbn [drop_while]. rewrite Hg.
  destruct args as [|a' args]; [done|]. injection Hhead as ->.
  assert (drop_while is_ws (gap ++ a :: args) = a :: args) as ->.
  { clear -Hws Ha. induction gap as [|g gap IH]; cbn.
    - by rewrite Ha.
    - cbn in Hws. apply andb_true_iff in Hws as [-> Hws]. by apply IH. }
  done.
Qed.

(** X15. With at most 999 user-invocable entries, every synthesized
    command whose name is not the keyword is what the slash followed by its
    name resolves to: alone, without arguments; followed by white space and
    a trimmed, non-empty text, with that text as the arguments. *)
Theorem X15_commands_are_reachable `{CaseMapping} :
  ∀ (entries : list SkillEntry.t) (cmd : SkillCommandSpec.t),
    length (List.filter
              (λ e, SkillInvocationPolicy.userInvocable (SkillEntry.invocation e))
              entries) ≤ 999 →
    let commands := buildSkillCommandSpecs entries in
    In cmd commands →
    SkillCommandSpec.name cmd ≠ str "skill" →
    resolveCommandInvocation (str "/" ++ SkillCommandSpec.name cmd) commands
    = Some {| SkillMatch.command := cmd; SkillMatch.args := None |}
    ∧ ∀ gap args : jsstring,
        gap ≠ [] → forallb is_ws gap = true →
        args ≠ [] → trim args = args →
        resolveCommandInvocation
          (str "/" ++ SkillCommandSpec.name cmd ++ gap ++ args) commands
        = Some {| SkillMatch.command := cmd; SkillMatch.args := Some args |}.
Proof.
  intros entries cmd Hlen commands Hin Hskill.
  destruct (buildSkillCommandSpecs_distinct entries Hlen) as [Hnd Hlower].
  fold commands in Hnd, Hlower.
  pose proof (proj1 (Forall_forall _ _) (commands_well_named entries) cmd
                (proj2 (list_elem_of_In _ _) Hin)) as [Hlength Halpha].
  set (n := SkillCommandSpec.name cmd) in *.
  assert (forallb (λ c, negb (is_ws c)) n = true) as Hn.
  { apply forallb_forall. intros c Hc%list_elem_of_In.
    apply (proj1 (Forall_forall _ _) Halpha) in Hc.
    by rewrite is_command_char_not_ws. }
  assert (n ≠ []) as Hne by (intros E; rewrite E in Hlength; cbn in Hlength; lia).
  assert (toLowerCase n = n) as Hlow by by apply toLowerCase_command_chars.
  assert (trim n = n) as Htrim.
  { destruct n as [|c t] eqn:En; [done|].
    destruct (last (c :: t)) as [d|] eqn:Hd; [|by apply last_None in Hd].
    apply (trim_fixed _ c d); [done|done| |].
    - apply is_command_char_not_ws. by apply Forall_cons in Halpha as [? _].
    - apply is_command_char_not_ws, (proj1 (Forall_forall _ _) Halpha).
      apply last_Some in Hd as [front ->]. apply elem_of_app. right. left. }
  assert (∀ rest,
            direct_invocation n rest commands
            = Some {| SkillMatch.command := cmd;
                      SkillMatch.args := nonempty (trim <$> rest) |}) as Hdirect.
  { intros rest. unfold direct_invocation.
    rewrite (MatchFacts.find_ext_In _
               (λ e, str_eqb (SkillCommandSpec.name e) (SkillCommandSpec.name cmd))).
    - by rewrite (find_unique SkillCommandSpec.name).
    - intros e He. by rewrite (proj1 (List.Forall_forall _ _) Hlower e He). }
  assert (∀ tail d, last (n ++ tail) = Some d → is_ws d = false →
                    trim (str "/" ++ n ++ tail) = str "/" ++ n ++ tail) as Hwhole.
  { intros tail d Hd Hws. apply (trim_fixed _ 47 d); [done| |done|done].
    change (str "/" ++ n ++ tail) with (47%N :: (n ++ tail)).
    rewrite last_cons, Hd. done. }
  split.
  - destruct (last n) as [d|] eqn:Hd; [|by apply last_None in Hd].
    assert (is_ws d = false) as Hws.
    { apply is_command_char_not_ws, (proj1 (Forall_forall _ _) Halpha).
      apply last_Some in Hd as [front ->]. apply elem_of_app. right. left. }
    rewrite <- (app_nil_r n) at 1.
    rewrite (resolve_direct _ n None).
    + rewrite Htrim, Hlow. apply Hdirect.
    + rewrite (Hwhole [] d) by (rewrite ?app_nil_r; done).
      rewrite app_nil_r. change (str "/" ++ n) with (47%N :: n).
      cbn [command_match]. rewrite N.eqb_refl. by apply token_alone.
    + by rewrite Htrim, Hlow.
    + by rewrite Htrim, Hlow.
  - intros gap args Hgap Hgapws Hargs Hargstrim.
    destruct (trimmed_ends args Hargstrim Hargs) as (a & d & Ha & Hd & Hwa & Hwd).
    rewrite (resolve_direct _ n (Some args)).
    + rewrite Htrim, Hlow, Hdirect. cbn [fmap option_fmap option_map].
      rewrite Hargstrim. by destruct args.
    + rewrite (Hwhole (gap ++ args) d).
      * change (str "/" ++ n ++ gap ++ args) with (47%N :: (n ++ gap ++ args)).
        cbn [command_match]. rewrite N.eqb_refl.
        by apply (token_with_arguments _ _ _ a).
      * rewrite !last_app, Hd. done.
      * done.
    + by rewrite Htrim, Hlow.
    + by rewrite Htrim, Hlow.
Qed.

Lemma X15_commands_are_reachable_witness :
  let entries := [ Examples.entry_named (str "Deploy Service");
                   Examples.entry_named (str "deploy_service") ] in
  let cmd := {| SkillCommandSpec.name := str "deploy_service_2";
                SkillCommandSpec.skillName := str "deploy_service";
                SkillCommandSpec.description := str "A skill" |} in
  resolveCommandInvocation (H:=JSFacts.ascii_case)
    (str "/deploy_service_2  now")
    (buildSkillCommandSpecs (H:=JSFacts.ascii_case) entries)
  = Some {| SkillMatch.command := cmd; SkillMatch.args := Some (str "now") |}.
Proof.
  intros entries cmd.
  refine (proj2 (X15_commands_are_reachable (H:=JSFacts.ascii_case)
                   entries cmd _ _ _) (str "  ") (str "now") _ _ _ _).
  - cbn. lia.
  - vm_compute. right. left. reflexivity.
  - vm_compute. discriminate.
  - discriminate.
  - reflexivity.
  - discriminate.
  - reflexivity.
Defined.

Lemma nonempty_trim (x : option jsstring) (a : jsstring) :
  nonempty (trim <$> x) = Some a → a ≠ [] ∧ trim a = a.
Proof.
  destruct x as [t|]; [|done]. cbn.
  destruct (trim t) as [|c r] eqn:E; [done|].
  intros [= <-]. split; [done|]. rewrite <- E. apply ToolPolicyFacts.trim_idem.
Qed.

(** X16. [resolveCommandInvocation] answers nothing for an input that,
    trimmed, does not start with a slash, and nothing when there is no
    command; when it answers, the command is one of the list, and the
    arguments, if any, are a non-empty trimmed text. *)
Theorem X16_resolve_answers_from_the_list `{CaseMapping} :
  ∀ (input : jsstring) (commands : list SkillCommandSpec.t),
    (startsWith (str "/") (trim input) = false →
     resolveCommandInvocation input commands = None)
    ∧ resolveCommandInvocation input [] = None
    ∧ ∀ m, resolveCommandInvocation input commands = Some m →
        In (SkillMatch.command m) commands
        ∧ startsWith (str "/") (trim input) = true
        ∧ ∀ a, SkillMatch.args m = Some a → a ≠ [] ∧ trim a = a.
Proof.
  intros input commands.
  assert (∀ commands m,
            resolveCommandInvocation input commands = Some m →
            In (SkillMatch.command m) commands
            ∧ startsWith (str "/") (trim input) = true
            ∧ ∀ a, SkillMatch.args m = Some a → a ≠ [] ∧ trim a = a) as Hsome.
  { clear commands. intros commands m. unfold resolveCommandInvocation.
    destruct (startsWith (str "/") (trim input)); [|done]. cbn [negb].
    destruct (command_match (trim input)) as [[token rest]|]; [|done].
    destruct (toLowerCase (trim token)) as [|c t]; [done|].
    destruct (str_eqb (c :: t) (str "skill")).
    - intros (remainder & target & tail & _ & _ & _ & Hfind & Hargs)
        %dispatch_skill_Some.
      split; [|split; [done|]].
      + unfold findSkillCommand in Hfind.
        destruct (trim target); [done|].
        by apply List.find_some in Hfind as [? _].
      + intros a Ha. rewrite Hargs in Ha. by apply nonempty_trim in Ha.
    - unfold direct_invocation.
      destruct (List.find _ commands) as [cmd|] eqn:Hfind; [|done].
      intros [= <-]. cbn [SkillMatch.command SkillMatch.args].
      split; [by apply List.find_some in Hfind as [? _]|]. split; [done|].
      intros a Ha. by apply nonempty_trim in Ha. }
  split; [|split; [|apply Hsome]].
  - intros Hs. unfold resolveCommandInvocation. by rewrite Hs.
  - destruct (resolveCommandInvocation input []) as [m|] eqn:E; [|done].
    by apply Hsome in E as [[] _].
Qed.

End ReachFacts.

(** ** Where skills come from *)

Module ProvenanceFacts.
Import Syntax SkillPrimitives ScanFacts.

Section WithEnvironment.
Context `{CaseMapping} `{PathModule} (fs : FileSystem).
Context (source : jsstring) (P : Skill.t → Prop).
Hypothesis loaded :
  ∀ filePath baseDir skill,
    loadSkillFromFile fs filePath baseDir source = Returns (Some skill) →
    P skill.

Lemma push_opt_kept (skills : list Skill.t) (filePath baseDir : jsstring) :
  Forall P skills →
  ∃ skill,
    loadSkillFromFile fs filePath baseDir source = Returns skill
    ∧ Forall P (push_opt skills skill).
Proof using loaded.
  intros Hs.
  destruct (loadSkillFromFile_cases fs filePath baseDir source)
    as [->|(content & skill & _ & Hload & _)].
  - by exists None.
  - exists (Some skill). split; [done|]. cbn.
    apply Forall_app. split; [done|]. apply Forall_singleton.
    by apply (loaded filePath baseDir).
Qed.

Lemma scanSubdirs_kept (node : DirNode) :
  ∀ dir,
    ∃ skills,
      scanSubdirs fs node dir source = Returns skills ∧ Forall P skills.
Proof using loaded.
  induction node as [| |entries IH] using DirNode_ind; intros dir;
    [by exists []|by exists []|].
  simpl.
  assert (Hloop : ∀ acc, Forall P acc →
    ∃ skills,
      (fix loop (entries : list (jsstring * DirNode)) (skills : list Skill.t)
         : outcome (list Skill.t) :=
         match entries with
         | [] => Returns skills
         | (entryName, child) :: rest =>
             if skipped entryName then loop rest skills
             else if negb (isDirectory child) then loop rest skills
             else
               let fullPath := path_join dir entryName in
               bind (loadSkillFromFile fs
                       (path_join fullPath (str "SKILL.md")) fullPath source)
                 (λ skill,
                    let skills := push_opt skills skill in
                    bind (scanSubdirs fs child fullPath source)
                      (λ sub, loop rest (skills ++ sub)))
         end) entries acc = Returns skills
      ∧ Forall P skills); [|by apply Hloop].
  induction IH as [|[entryName child] rest Hchild _ IHrest]; intros acc Hacc.
  - by exists acc.
  - destruct (skipped entryName); [by apply IHrest|].
    destruct (negb (isDirectory child)); [by apply IHrest|].
    cbv zeta.
    destruct (push_opt_kept acc
                (path_join (path_join dir entryName) (str "SKILL.md"))
                (path_join dir entryName) Hacc) as (skill & -> & Hpush).
    simpl bind. simpl in Hchild.
    destruct (Hchild (path_join dir entryName)) as (sub & -> & Hsub).
    simpl bind. apply IHrest. apply Forall_app. done.
Qed.

Lemma loadSkillsFromDir_loop_kept (dir : jsstring)
    (entries : list (jsstring * DirNode)) :
  ∀ acc, Forall P acc →
    ∃ skills,
      loadSkillsFromDir_loop fs dir source entries acc = Returns skills
      ∧ Forall P skills.
Proof using loaded.
  induction entries as [|[entryName child] rest IH]; intros acc Hacc.
  - by exists acc.
  - simpl. destruct (skipped entryName); [by apply IH|].
    destruct (isDirectory child).
    + destruct (push_opt_kept acc
                  (path_join (path_join dir entryName) (str "SKILL.md"))
                  (path_join dir entryName) Hacc)
        as (skill & -> & Hpush).
      simpl bind.
      destruct (scanSubdirs_kept child (path_join dir entryName))
        as (sub & -> & Hsub).
      simpl bind. apply IH. apply Forall_app. done.
    + destruct (endsWith (str ".md") entryName); [|by apply IH].
      destruct (push_opt_kept acc (path_join dir entryName) dir
                  Hacc) as (skill & -> & Hpush).
      simpl bind. by apply IH.
Qed.

Lemma loadSkillsFromDir_kept (dir : jsstring) :
  ∃ skills,
    loadSkillsFromDir fs dir source = Returns skills ∧ Forall P skills.
Proof using loaded.
  unfold loadSkillsFromDir. destruct (readdir (dirAt fs dir)) as [entries|].
  - by apply loadSkillsFromDir_loop_kept.
  - by exists [].
Qed.

End WithEnvironment.

Section WithEnvironment2.
Context `{CaseMapping} `{PathModule} (fs : FileSystem).

Lemma or_else_trim (value : option jsstring) (d : jsstring) :
  or_else (trim <$> value) [] = d → d ≠ [] →
  trim <$> value = Some d ∧ trim d = d.
Proof.
  destruct value as [v|]; cbn; [|by intros <-].
  destruct (trim v) as [|c t] eqn:E; [by intros <-|].
  intros <- _. split; [done|]. rewrite <- E. apply ToolPolicyFacts.trim_idem.
Qed.

(** What [loadSkillFromFile] makes of the file it reads. *)
Lemma loadSkillFromFile_Some (filePath baseDir source : jsstring)
    (skill : Skill.t) :
  loadSkillFromFile fs filePath baseDir source = Returns (Some skill) →
  ∃ content,
    readFile fs filePath = Returns content
    ∧ let fm := extractFrontmatter content in
      Skill.filePath skill = path_resolve filePath
      ∧ Skill.baseDir skill = path_resolve baseDir
      ∧ Skill.source skill = source
      ∧ trim <$> fm !! str "description" = Some (Skill.description skill)
      ∧ Skill.description skill ≠ []
      ∧ trim (Skill.description skill) = Skill.description skill
      ∧ Skill.disableModelInvocation skill
        = parseBool (fm !! str "disable-model-invocation") false
      ∧ Skill.name skill
        = or_else (trim <$> fm !! str "name")
            (or_else (Some (toLowerCase (path_basename baseDir)))
               (toLowerCase (path_basename_ext filePath (str ".md")))).
Proof.
  unfold loadSkillFromFile.
  destruct (readFile fs filePath) as [content|]; [|done].
  cbv zeta. case_bool_decide as Hd; [done|].
  intros [= <-]. exists content. split; [done|].
  cbn [Skill.filePath Skill.baseDir Skill.source Skill.description
         Skill.disableModelInvocation Skill.name].
  destruct (or_else_trim _ _ eq_refl Hd) as [Hdesc Htrim].
  repeat split; done.
Qed.

End WithEnvironment2.

(** Every scanned skill is what [loadSkillFromFile] made of some file. *)
Lemma scanned_from `{CaseMapping} `{PathModule} (fs : FileSystem)
    (dir source : jsstring) :
  ∃ skills,
    loadSkillsFromDir fs dir source = Returns skills
    ∧ Forall (λ skill,
                ∃ filePath baseDir,
                  loadSkillFromFile fs filePath baseDir source
                  = Returns (Some skill)) skills.
Proof. apply loadSkillsFromDir_kept. eauto. Qed.

(** X17. A scan always returns, and every skill it returns carries the
    source tag of the scan and a non-empty trimmed description, and was
    made from a file that could be read: its location is the resolved path
    of that file, its description the trimmed description of the
    frontmatter of that file, its flag what [parseBool] makes of the
    disable-model-invocation key, and its name the trimmed name of the
    frontmatter when that is not blank. *)
Theorem X17_scanned_skills_provenance `{CaseMapping} `{PathModule} :
  ∀ (fs : FileSystem) (dir source : jsstring),
    ∃ skills,
      loadSkillsFromDir fs dir source = Returns skills
      ∧ Forall
          (λ skill,
             Skill.source skill = source
             ∧ Skill.description skill ≠ []
             ∧ trim (Skill.description skill) = Skill.description skill
             ∧ ∃ file content,
                 readFile fs file = Returns content
                 ∧ Skill.filePath skill = path_resolve file
                 ∧ trim <$> extractFrontmatter content !! str "description"
                   = Some (Skill.description skill)
                 ∧ Skill.disableModelInvocation skill
                   = parseBool
                       (extractFrontmatter content
                          !! str "disable-model-invocation") false
                 ∧ ∀ name, extractFrontmatter content !! str "name" = Some name →
                           trim name ≠ [] → Skill.name skill = trim name)
          skills.
Proof.
  intros fs dir source.
  destruct (scanned_from fs dir source) as (skills & Hscan & Hfrom).
  exists skills. split; [done|].
  eapply Forall_impl; [exact Hfrom|]. cbv beta.
  intros skill (filePath & baseDir & Hload).
  apply loadSkillFromFile_Some in Hload
    as (content & Hread & Hpath & _ & Hsource & Hdesc & Hne & Htrim & Hflag
        & Hname).
  split; [done|]. split; [done|]. split; [done|].
  exists filePath, content. split; [done|]. split; [done|]. split; [done|].
  split; [done|].
  intros name Hfm Hnn. rewrite Hname, Hfm. cbn.
  by destruct (trim name).
Qed.

End ProvenanceFacts.

Module RelevantFacts.
Import SkillPrimitives Relevant ScanFacts.

Section WithEnvironment.
Context `{CaseMapping} `{PathModule} (fs : FileSystem).




End WithEnvironment.


End RelevantFacts.

(** ** Entries and the manager *)

Module EntryFacts.
Import Syntax SkillPrimitives Skills ScanFacts MergeFacts ProvenanceFacts.

Section WithEnvironment.
Context `{CaseMapping} `{PathModule} (fs : FileSystem).

(** [loadSkillEntries] returns, and what it returns. *)
Lemma loadSkillEntries_returns (workspaceDir managedDir : jsstring) :
  ∃ managed workspace,
    loadSkillsFromDir fs managedDir (str "managed") = Returns managed
    ∧ loadSkillsFromDir fs (path_join workspaceDir (str "skills"))
        (str "workspace") = Returns workspace
    ∧ loadSkillEntries fs workspaceDir managedDir
      = Returns (map (enrich fs)
                   (Map_values (merge_into (merge_into [] managed) workspace))).
Proof.
  destruct (loadSkillsFromDir_returns fs managedDir (str "managed"))
    as (managed & Hm & _).
  destruct (loadSkillsFromDir_returns fs (path_join workspaceDir (str "skills"))
              (str "workspace")) as (workspace & Hw & _).
  exists managed, workspace. split; [done|]. split; [done|].
  unfold loadSkillEntries. rewrite Hm. simpl bind. by rewrite Hw.
Qed.

Lemma merged_names_NoDup (managed workspace : list Skill.t) :
  List.NoDup
    (map Skill.name (Map_values (merge_into (merge_into [] managed) workspace))).
Proof.
  rewrite keyed_names
    by (apply merge_into_keyed, merge_into_keyed; constructor).
  apply merge_into_NoDup, merge_into_NoDup. constructor.
Qed.

Lemma loadSkillEntries_names (workspaceDir managedDir : jsstring)
    (entries : list SkillEntry.t) :
  loadSkillEntries fs workspaceDir managedDir = Returns entries →
  List.NoDup (map (λ e, Skill.name (SkillEntry.skill e)) entries).
Proof.
  destruct (loadSkillEntries_returns workspaceDir managedDir)
    as (managed & workspace & _ & _ & ->).
  intros [= <-]. rewrite <- (map_map SkillEntry.skill Skill.name).
  rewrite map_skill_enrich. apply merged_names_NoDup.
Qed.

End WithEnvironment.

(** What every entry of [loadSkillEntries] is: a skill of one of the two
    scans, enriched. *)
Lemma loadSkillEntries_entries `{CaseMapping} `{PathModule} (fs : FileSystem)
    (workspaceDir managedDir : jsstring) :
  ∃ entries,
    loadSkillEntries fs workspaceDir managedDir = Returns entries
    ∧ List.NoDup (map (λ e, Skill.name (SkillEntry.skill e)) entries)
    ∧ Forall (λ e,
                e = enrich fs (SkillEntry.skill e)
                ∧ ∃ filePath baseDir source,
                    (source = str "managed" ∨ source = str "workspace")
                    ∧ loadSkillFromFile fs filePath baseDir source
                      = Returns (Some (SkillEntry.skill e))) entries.
Proof.
  destruct (scanned_from fs managedDir (str "managed"))
    as (managed & Hm & Hmanaged).
  destruct (scanned_from fs (path_join workspaceDir (str "skills"))
              (str "workspace")) as (workspace & Hw & Hworkspace).
  eexists. split.
  { unfold loadSkillEntries. rewrite Hm. simpl bind. by rewrite Hw. }
  split.
  { rewrite <- (map_map SkillEntry.skill Skill.name), map_skill_enrich.
    apply merged_names_NoDup. }
  apply List.Forall_map, Forall_forall. intros skill Hskill%list_elem_of_In.
  split; [done|]. cbn [enrich SkillEntry.skill].
  apply merge_into_In in Hskill as [Hskill|Hskill].
  - apply list_elem_of_In in Hskill.
    destruct (proj1 (Forall_forall _ _) Hworkspace skill Hskill)
      as (filePath & baseDir & Hload).
    exists filePath, baseDir, (str "workspace"). split; [by right|done].
  - apply merge_into_In in Hskill as [Hskill|[]].
    apply list_elem_of_In in Hskill.
    destruct (proj1 (Forall_forall _ _) Hmanaged skill Hskill)
      as (filePath & baseDir & Hload).
    exists filePath, baseDir, (str "managed"). split; [by left|done].
Qed.

(** The flag of the policy is the flag of the skill when resolving a path
    does not change the file that is read. *)
Lemma entry_flags_agree `{CaseMapping} `{PathModule} (fs : FileSystem)
    (filePath baseDir source : jsstring) (skill : Skill.t) :
  (∀ p, readFile fs (path_resolve p) = readFile fs p) →
  loadSkillFromFile fs filePath baseDir source = Returns (Some skill) →
  SkillInvocationPolicy.disableModelInvocation
    (SkillEntry.invocation (enrich fs skill))
  = Skill.disableModelInvocation skill.
Proof.
  intros Hresolve
    (content & Hread & Hpath & _ & _ & _ & _ & _ & Hflag & _)
    %loadSkillFromFile_Some.
  cbn [enrich SkillEntry.invocation resolveInvocationPolicy
         SkillInvocationPolicy.disableModelInvocation].
  by rewrite Hpath, Hresolve, Hread, Hflag.
Qed.

(** X19. [loadSkillEntries] always returns. The skills of its entries have
    distinct names and a description, and come from the managed or the
    workspace scan; the policy of an entry is read off its frontmatter,
    which is that of the file when it can be read again; when it cannot,
    the frontmatter is empty and the entry stays invocable by the user and
    visible to the model. *)
Theorem X19_loadSkillEntries_returns `{CaseMapping} `{PathModule} :
  ∀ (fs : FileSystem) (workspaceDir managedDir : jsstring),
    ∃ entries,
      loadSkillEntries fs workspaceDir managedDir = Returns entries
      ∧ List.NoDup (map (λ e, Skill.name (SkillEntry.skill e)) entries)
      ∧ Forall
          (λ e,
             let skill := SkillEntry.skill e in
             (Skill.source skill = str "managed"
              ∨ Skill.source skill = str "workspace")
             ∧ Skill.description skill ≠ []
             ∧ SkillEntry.invocation e
               = resolveInvocationPolicy (SkillEntry.frontmatter e)
             ∧ (∀ raw, readFile fs (Skill.filePath skill) = Returns raw →
                       SkillEntry.frontmatter e = parseFrontmatter raw)
             ∧ (readFile fs (Skill.filePath skill) = Throws →
                SkillEntry.frontmatter e = ∅
                ∧ SkillEntry.invocation e
                  = {| SkillInvocationPolicy.userInvocable := true;
                       SkillInvocationPolicy.disableModelInvocation := false |}))
          entries.
Proof.
  intros fs workspaceDir managedDir.
  destruct (loadSkillEntries_entries fs workspaceDir managedDir)
    as (entries & Hload & Hnames & Hentries).
  exists entries. split; [done|]. split; [done|].
  eapply Forall_impl; [exact Hentries|]. cbv beta zeta.
  intros e (He & filePath & baseDir & source & Hsource & Hfile).
  apply loadSkillFromFile_Some in Hfile
    as (content & _ & _ & _ & Hsrc & _ & Hne & _).
  split; [by rewrite Hsrc|]. split; [done|].
  rewrite He. cbn [enrich SkillEntry.invocation SkillEntry.frontmatter
                     SkillEntry.skill].
  split; [done|]. split.
  - intros raw ->. done.
  - intros ->. done.
Qed.

End EntryFacts.

Module ManagerFacts.
Import Syntax SkillPrimitives Skills ScanFacts MergeFacts ProvenanceFacts
  EntryFacts.

Section WithEnvironment.
Context `{CaseMapping} `{PathModule}.

(** The first [loadAll] of a manager. *)
Lemma loadAll_first (fs : FileSystem) (this : SkillManager.t) :
  SkillManager.loaded this = false →
  ∃ entries,
    loadSkillEntries fs (SkillManager.workspaceDir this)
      (SkillManager.managedDir this) = Returns entries
    ∧ SkillManager.loadAll fs this
      = Returns {| SkillManager.workspaceDir := SkillManager.workspaceDir this;
                   SkillManager.managedDir := SkillManager.managedDir this;
                   SkillManager.entries := entries;
                   SkillManager.commands := buildSkillCommandSpecs entries;
                   SkillManager.loaded := true |}.
Proof.
  intros Hfresh.
  destruct (loadSkillEntries_entries fs (SkillManager.workspaceDir this)
              (SkillManager.managedDir this)) as (entries & Hload & _).
  exists entries. split; [done|].
  unfold SkillManager.loadAll. by rewrite Hfresh, Hload.
Qed.

Lemma loadAll_loaded (fs : FileSystem) (this : SkillManager.t) :
  SkillManager.loaded this = true → SkillManager.loadAll fs this = Returns this.
Proof. intros Hl. unfold SkillManager.loadAll. by rewrite Hl. Qed.

Lemma loadAll_returns (fs : FileSystem) (this : SkillManager.t) :
  ∃ this',
    SkillManager.loadAll fs this = Returns this'
    ∧ SkillManager.loaded this' = true.
Proof.
  destruct (SkillManager.loaded this) eqn:Hl.
  - exists this. by rewrite loadAll_loaded.
  - destruct (loadAll_first fs this Hl) as (entries & _ & ->). by eexists.
Qed.

End WithEnvironment.

(** X20. The manager scans once. [loadAll] always returns a loaded manager
    with the same directories; a loaded manager is left as it is; a fresh
    one gets the entries of [loadSkillEntries] and the commands
    [buildSkillCommandSpecs] makes of them. After that, on any file system,
    [loadAll] changes nothing and [match], [list] and [listCommands] answer
    from the stored entries and commands. (Calls are taken one after the
    other.) *)
Theorem X20_manager_scans_once `{CaseMapping} `{PathModule} :
  ∀ (fs : FileSystem) (this : SkillManager.t),
    ∃ this',
      SkillManager.loadAll fs this = Returns this'
      ∧ SkillManager.loaded this' = true
      ∧ SkillManager.workspaceDir this' = SkillManager.workspaceDir this
      ∧ SkillManager.managedDir this' = SkillManager.managedDir this
      ∧ (SkillManager.loaded this = true → this' = this)
      ∧ (SkillManager.loaded this = false →
         loadSkillEntries fs (SkillManager.workspaceDir this)
           (SkillManager.managedDir this)
         = Returns (SkillManager.entries this')
         ∧ SkillManager.commands this'
           = buildSkillCommandSpecs (SkillManager.entries this'))
      ∧ (∀ (later : FileSystem) (input : jsstring),
           SkillManager.loadAll later this' = Returns this'
           ∧ SkillManager.match_ later input this'
             = Returns (resolveCommandInvocation input
                          (SkillManager.commands this'), this')
           ∧ SkillManager.list later this'
             = Returns (map SkillEntry.skill (SkillManager.entries this'),
                        this')
           ∧ SkillManager.listCommands later this'
             = Returns (SkillManager.commands this', this')).
Proof.
  intros fs this.
  destruct (SkillManager.loaded this) eqn:Hl.
  - exists this. rewrite loadAll_loaded by done.
    split; [done|]. split; [done|]. split; [done|]. split; [done|].
    split; [done|]. split; [done|].
    intros later input.
    unfold SkillManager.match_, SkillManager.list, SkillManager.listCommands.
    by rewrite loadAll_loaded.
  - destruct (loadAll_first fs this Hl) as (entries & Hentries & ->).
    eexists. split; [done|]. cbn.
    split; [done|]. split; [done|]. split; [done|].
    split; [done|]. split; [done|].
    intros later input. done.
Qed.

Lemma find_map {A B : Type} (f : A → B) (p : B → bool) (l : list A) :
  f <$> List.find (λ x, p (f x)) l = List.find p (map f l).
Proof.
  induction l as [|a l IH]; [done|]. cbn. by destruct (p (f a)).
Qed.

Lemma find_absent (name : jsstring) (skills : list Skill.t) :
  ¬ In name (map Skill.name skills) →
  List.find (λ s, bool_decide (Skill.name s = name)) skills = None.
Proof.
  induction skills as [|s skills IH]; [done|]. cbn. intros Hn.
  case_bool_decide as Hs; [exfalso; apply Hn; by left|].
  apply IH. intros Hin. apply Hn. by right.
Qed.

(** X21. On a manager that has not loaded yet, [list] returns skills with
    distinct names, and [get] returns the listed skill of the given name:
    every listed skill is what [get] returns for its name, and a name that
    is not listed gives nothing. *)
Theorem X21_manager_get_by_name `{CaseMapping} `{PathModule} :
  ∀ (fs : FileSystem) (this : SkillManager.t) (name : jsstring),
    SkillManager.loaded this = false →
    ∃ this' skills,
      SkillManager.list fs this = Returns (skills, this')
      ∧ List.NoDup (map Skill.name skills)
      ∧ SkillManager.get fs name this
        = Returns (List.find (λ s, bool_decide (Skill.name s = name)) skills,
                   this')
      ∧ (∀ s, In s skills →
              SkillManager.get fs (Skill.name s) this = Returns (Some s, this'))
      ∧ (¬ In name (map Skill.name skills) →
         SkillManager.get fs name this = Returns (None, this')).
Proof.
  intros fs this name Hfresh.
  destruct (loadAll_first fs this Hfresh) as (entries & Hentries & Hload).
  pose proof (loadSkillEntries_names fs _ _ _ Hentries) as Hnames.
  rewrite <- (map_map SkillEntry.skill Skill.name) in Hnames.
  set (this' := {| SkillManager.workspaceDir := SkillManager.workspaceDir this;
                   SkillManager.managedDir := SkillManager.managedDir this;
                   SkillManager.entries := entries;
                   SkillManager.commands := buildSkillCommandSpecs entries;
                   SkillManager.loaded := true |}) in Hload.
  exists this', (map SkillEntry.skill entries).
  assert (∀ n, SkillManager.get fs n this
               = Returns (List.find (λ s, bool_decide (Skill.name s = n))
                            (map SkillEntry.skill entries), this')) as Hget.
  { intros n. unfold SkillManager.get. rewrite Hload. unfold bind, this'.
    cbn [SkillManager.entries].
    pose proof (find_map SkillEntry.skill
                  (λ s, bool_decide (Skill.name s = n)) entries) as E.
    cbv beta in E. by rewrite E. }
  split; [unfold SkillManager.list; by rewrite Hload|].
  split; [done|]. split; [apply Hget|]. split.
  - intros s Hs. rewrite Hget. f_equal. f_equal.
    exact (ReachFacts.find_unique Skill.name _ s Hnames Hs).
  - intros Hn. by rewrite Hget, find_absent.
Qed.

Lemma X21_manager_get_by_name_witness :
  ∃ this' skills,
    SkillManager.list (H:=JSFacts.ascii_case) (H0:=Examples.posix_path)
      Examples.deploy_fs
      (SkillManager.constructor (λ a b c, a ++ str "/" ++ b ++ str "/" ++ c)
         {| SkillManager.HOME := None; SkillManager.USERPROFILE := None |}
         (str "/work") (Some (str "/managed")))
    = Returns (skills, this')
    ∧ SkillManager.get (H:=JSFacts.ascii_case) (H0:=Examples.posix_path)
        Examples.deploy_fs (str "deploy_service")
        (SkillManager.constructor (λ a b c, a ++ str "/" ++ b ++ str "/" ++ c)
           {| SkillManager.HOME := None; SkillManager.USERPROFILE := None |}
           (str "/work") (Some (str "/managed")))
      = Returns (List.find
                   (λ s, bool_decide (Skill.name s = str "deploy_service"))
                   skills, this').
Proof.
  destruct (X21_manager_get_by_name (H:=JSFacts.ascii_case)
              (H0:=Examples.posix_path) Examples.deploy_fs
              (SkillManager.constructor
                 (λ a b c, a ++ str "/" ++ b ++ str "/" ++ c)
                 {| SkillManager.HOME := None;
                    SkillManager.USERPROFILE := None |}
                 (str "/work") (Some (str "/managed")))
              (str "deploy_service") eq_refl)
    as (this' & skills & Hlist & _ & Hget & _).
  exists this', skills. split; [exact Hlist|exact Hget].
Defined.

Lemma filter_map {A B : Type} (f : A → B) (p : B → bool) (l : list A) :
  List.filter p (map f l) = map f (List.filter (λ x, p (f x)) l).
Proof.
  induction l as [|a l IH]; [done|]. cbn.
  destruct (p (f a)); cbn; by rewrite IH.
Qed.

Lemma formatSkillsForPrompt_visible (skills skills' : list Skill.t) :
  List.filter (λ s, negb (Skill.disableModelInvocation s)) skills
  = List.filter (λ s, negb (Skill.disableModelInvocation s)) skills' →
  formatSkillsForPrompt skills = formatSkillsForPrompt skills'.
Proof. intros E. unfold formatSkillsForPrompt. by rewrite E. Qed.

(** X22. The prompt of a manager that has not loaded yet is
    [formatSkillsForPrompt] of the skills of the entries that neither the
    policy nor the flag of the skill hides. When resolving a path does not
    change the file that is read, the two flags of every entry agree, and
    the prompt is that of all the listed skills. *)
Theorem X22_manager_prompt `{CaseMapping} `{PathModule} :
  ∀ (fs : FileSystem) (this : SkillManager.t),
    SkillManager.loaded this = false →
    ∃ this',
      SkillManager.loadAll fs this = Returns this'
      ∧ let entries := SkillManager.entries this' in
        SkillManager.buildSkillsPrompt fs this
        = Returns
            (formatSkillsForPrompt
               (map SkillEntry.skill
                  (List.filter
                     (λ e,
                        negb (SkillInvocationPolicy.disableModelInvocation
                                (SkillEntry.invocation e))
                        && negb (Skill.disableModelInvocation
                                   (SkillEntry.skill e)))
                     entries)),
             this')
        ∧ ((∀ p, readFile fs (path_resolve p) = readFile fs p) →
           Forall (λ e,
                     SkillInvocationPolicy.disableModelInvocation
                       (SkillEntry.invocation e)
                     = Skill.disableModelInvocation (SkillEntry.skill e))
             entries
           ∧ SkillManager.buildSkillsPrompt fs this
             = Returns (formatSkillsForPrompt (map SkillEntry.skill entries),
                        this')).
Proof.
  intros fs this Hfresh.
  destruct (loadSkillEntries_entries fs (SkillManager.workspaceDir this)
              (SkillManager.managedDir this))
    as (entries & Hentries & _ & Hfrom).
  set (this' := {| SkillManager.workspaceDir := SkillManager.workspaceDir this;
                   SkillManager.managedDir := SkillManager.managedDir this;
                   SkillManager.entries := entries;
                   SkillManager.commands := buildSkillCommandSpecs entries;
                   SkillManager.loaded := true |}).
  exists this'. split.
  { unfold SkillManager.loadAll. by rewrite Hfresh, Hentries. }
  cbn [SkillManager.entries this']. cbv zeta.
  assert (∀ skills,
            List.filter (λ s, negb (Skill.disableModelInvocation s))
              (map SkillEntry.skill
                 (List.filter
                    (λ e, negb (SkillInvocationPolicy.disableModelInvocation
                                  (SkillEntry.invocation e))) entries))
            = List.filter (λ s, negb (Skill.disableModelInvocation s)) skills →
            SkillManager.buildSkillsPrompt fs this
            = Returns (formatSkillsForPrompt skills, this')) as Hprompt.
  { intros skills E. unfold SkillManager.buildSkillsPrompt, SkillManager.loadAll.
    rewrite Hfresh, Hentries. unfold bind. cbn [SkillManager.entries].
    by rewrite (formatSkillsForPrompt_visible _ skills). }
  split.
  - apply Hprompt. rewrite !filter_map. f_equal.
    rewrite !ToolSetFacts.filter_filter_andb.
    apply List.filter_ext. intros e.
    by destruct (SkillInvocationPolicy.disableModelInvocation _),
         (Skill.disableModelInvocation _).
  - intros Hresolve.
    assert (Forall (λ e,
                      SkillInvocationPolicy.disableModelInvocation
                        (SkillEntry.invocation e)
                      = Skill.disableModelInvocation (SkillEntry.skill e))
              entries) as Hflags.
    { eapply Forall_impl; [exact Hfrom|]. cbv beta.
      intros e (He & filePath & baseDir & source & _ & Hfile).
      rewrite He at 1. by apply (entry_flags_agree fs filePath baseDir source). }
    split; [done|]. apply Hprompt. rewrite !filter_map.
    rewrite ToolSetFacts.filter_filter_andb.
    f_equal. apply List.filter_ext_in. intros e He.
    rewrite (proj1 (List.Forall_forall _ _) Hflags e He).
    by destruct (Skill.disableModelInvocation _).
Qed.

Lemma X22_manager_prompt_witness :
  ∃ this',
    SkillManager.loadAll (H:=JSFacts.ascii_case) (H0:=Examples.posix_path)
      Examples.deploy_fs
      (SkillManager.constructor (λ a b c, a ++ str "/" ++ b ++ str "/" ++ c)
         {| SkillManager.HOME := None; SkillManager.USERPROFILE := None |}
         (str "/work") (Some (str "/managed")))
    = Returns this'
    ∧ SkillManager.buildSkillsPrompt (H:=JSFacts.ascii_case)
        (H0:=Examples.posix_path) Examples.deploy_fs
        (SkillManager.constructor (λ a b c, a ++ str "/" ++ b ++ str "/" ++ c)
           {| SkillManager.HOME := None; SkillManager.USERPROFILE := None |}
           (str "/work") (Some (str "/managed")))
      = Returns (formatSkillsForPrompt
                   (map SkillEntry.skill (SkillManager.entries this')),
                 this').
Proof.
  destruct (X22_manager_prompt (H:=JSFacts.ascii_case)
              (H0:=Examples.posix_path) Examples.deploy_fs
              (SkillManager.constructor
                 (λ a b c, a ++ str "/" ++ b ++ str "/" ++ c)
                 {| SkillManager.HOME := None;
                    SkillManager.USERPROFILE := None |}
                 (str "/work") (Some (str "/managed")))
              eq_refl)
    as (this' & Hload & _ & Hsame).
  exists this'. split; [exact Hload|].
  exact (proj2 (Hsame (λ p, eq_refl))).
Defined.

End ManagerFacts.

(** ** Escaping *)

Module EscapeFacts.
Import SkillPrimitives.

Lemma escapeXml_app (s t : jsstring) :
  escapeXml (s ++ t) = escapeXml s ++ escapeXml t.
Proof. apply flat_map_app. Qed.

Lemma escapeXml_cons (c : N) (s : jsstring) :
  escapeXml (c :: s) = escapeXml [c] ++ escapeXml s.
Proof. exact (escapeXml_app [c] s). Qed.

(** What one unit becomes. *)
Lemma escape_unit (c : N) :
  (is_xml_reserved c = false
   ∧ escapeXml [c] = [c])
  ∨ (c = 38%N
     ∧ escapeXml [c] = str "&amp;")
  ∨ (c = 60%N
     ∧ escapeXml [c] = str "&lt;")
  ∨ (c = 62%N
     ∧ escapeXml [c] = str "&gt;")
  ∨ (c = 34%N
     ∧ escapeXml [c] = str "&quot;")
  ∨ (c = 39%N
     ∧ escapeXml [c] = str "&apos;").
Proof.
  unfold escapeXml, is_xml_reserved, XML_ESCAPE. cbn [flat_map].
  destruct (N.eqb_spec c 38) as [E|_]; [right; left; by subst c|].
  destruct (N.eqb_spec c 60) as [E|_]; [right; right; left; by subst c|].
  destruct (N.eqb_spec c 62) as [E|_]; [do 3 right; left; by subst c|].
  destruct (N.eqb_spec c 34) as [E|_]; [do 4 right; left; by subst c|].
  destruct (N.eqb_spec c 39) as [E|_]; [do 5 right; by subst c|].
  by left.
Qed.

Lemma escapeXml_injective (s t : jsstring) :
  escapeXml s = escapeXml t → s = t.
Proof.
  revert t. induction s as [|c s IH]; intros [|d t].
  - done.
  - rewrite escapeXml_cons.
    destruct (escape_unit d) as [[_ ->]|[[_ ->]|[[_ ->]|[[_ ->]|[[_ ->]|[_ ->]]]]]];
      discriminate.
  - rewrite escapeXml_cons.
    destruct (escape_unit c) as [[_ ->]|[[_ ->]|[[_ ->]|[[_ ->]|[[_ ->]|[_ ->]]]]]];
      discriminate.
  - rewrite (escapeXml_cons c s), (escapeXml_cons d t).
    destruct (escape_unit c) as [[Hc ->]|[[-> ->]|[[-> ->]|[[-> ->]|[[-> ->]|[-> ->]]]]]];
      destruct (escape_unit d) as [[Hd ->]|[[-> ->]|[[-> ->]|[[-> ->]|[[-> ->]|[-> ->]]]]]];
      intros E; cbn in E; try discriminate;
      try (injection E as E; subst; try discriminate; f_equal; by apply IH).
Qed.

Lemma escapeXml_length (s : jsstring) :
  length s ≤ length (escapeXml s) ≤ 6 * length s.
Proof.
  induction s as [|a s IH]; [done|].
  rewrite escapeXml_cons, length_app. cbn [length].
  destruct (escape_unit a) as [[_ ->]|[[_ ->]|[[_ ->]|[[_ ->]|[[_ ->]|[_ ->]]]]]];
    cbn; lia.
Qed.

Lemma escapeXml_clean (s : jsstring) :
  escapeXml s = s ↔ forallb (λ c, negb (is_xml_reserved c)) s = true.
Proof.
  induction s as [|c s IH]; [done|]. rewrite escapeXml_cons. cbn [forallb].
  pose proof (escapeXml_length s) as [Hlen _].
  destruct (escape_unit c) as [[Hc ->]|[[-> ->]|[[-> ->]|[[-> ->]|[[-> ->]|[-> ->]]]]]].
  - rewrite Hc. cbn [negb andb app]. rewrite <- IH.
    split; [by intros [= ?]|by intros ->].
  - split; [|done]. intros E%(f_equal length).
    rewrite length_app in E. cbn in E. lia.
  - split; [|done]. intros E%(f_equal length).
    rewrite length_app in E. cbn in E. lia.
  - split; [|done]. intros E%(f_equal length).
    rewrite length_app in E. cbn in E. lia.
  - split; [|done]. intros E%(f_equal length).
    rewrite length_app in E. cbn in E. lia.
  - split; [|done]. intros E%(f_equal length).
    rewrite length_app in E. cbn in E. lia.
Qed.

(** X23. [escapeXml] loses nothing: two texts with the same escaped text
    are the same text; escaping a concatenation is concatenating the
    escaped parts; a text is left as it is exactly when it holds none of
    the five reserved units; and the escaped text is at least as long as
    the text and at most six times as long. *)
Theorem X23_escapeXml_loses_nothing :
  (∀ s t : jsstring, escapeXml s = escapeXml t → s = t)
  ∧ (∀ s t : jsstring, escapeXml (s ++ t) = escapeXml s ++ escapeXml t)
  ∧ (∀ s : jsstring,
       escapeXml s = s ↔ forallb (λ c, negb (is_xml_reserved c)) s = true)
  ∧ (∀ s : jsstring, length s ≤ length (escapeXml s) ≤ 6 * length s).
Proof.
  split; [exact escapeXml_injective|]. split; [exact escapeXml_app|].
  split; [exact escapeXml_clean|exact escapeXml_length].
Qed.

End EscapeFacts.

(** ** Looking a command up *)

Module LookupFacts.
Import Skills.

Section WithCaseMapping.
Context `{CaseMapping}.

Lemma normalizeForLookup_trim (value : jsstring) :
  normalizeForLookup (trim value) = normalizeForLookup value.
Proof. unfold normalizeForLookup. by rewrite ToolPolicyFacts.trim_idem. Qed.

(** For a trimmed name, equality in lower case implies equality of the
    normalized forms. *)
Lemma lowered_normalized (name raw : jsstring) :
  trim name = name →
  toLowerCase name = toLowerCase (trim raw) →
  normalizeForLookup name = normalizeForLookup raw.
Proof.
  intros Hname Hlow. unfold normalizeForLookup. by rewrite Hname, Hlow.
Qed.

(** On commands with trimmed names, [findSkillCommand] is the search for
    the first command whose name or skill name has the normalized form of
    the raw name. *)
Lemma findSkillCommand_normalized (commands : list SkillCommandSpec.t)
    (rawName : jsstring) :
  Forall (λ c, trim (SkillCommandSpec.name c) = SkillCommandSpec.name c
               ∧ trim (SkillCommandSpec.skillName c)
                 = SkillCommandSpec.skillName c) commands →
  trim rawName ≠ [] →
  findSkillCommand commands rawName
  = List.find
      (λ entry,
         str_eqb (normalizeForLookup (SkillCommandSpec.name entry))
           (normalizeForLookup rawName)
         || str_eqb (normalizeForLookup (SkillCommandSpec.skillName entry))
              (normalizeForLookup rawName))
      commands.
Proof.
  intros Htrimmed Hraw. unfold findSkillCommand.
  destruct (trim rawName) as [|c t] eqn:Et; [done|]. rewrite <- Et.
  rewrite normalizeForLookup_trim.
  apply MatchFacts.find_ext_In. intros e He.
  destruct (proj1 (List.Forall_forall _ _) Htrimmed e He) as [Hn Hs].
  unfold str_eqb.
  destruct (bool_decide (toLowerCase (SkillCommandSpec.name e)
                         = toLowerCase (trim rawName))) eqn:E1.
  { apply bool_decide_eq_true in E1.
    by rewrite (bool_decide_eq_true_2 _ (lowered_normalized _ _ Hn E1)). }
  destruct (bool_decide (toLowerCase (SkillCommandSpec.skillName e)
                         = toLowerCase (trim rawName))) eqn:E2; [|done].
  apply bool_decide_eq_true in E2.
  rewrite (bool_decide_eq_true_2 _ (lowered_normalized _ _ Hs E2)).
  by rewrite orb_true_r.
Qed.

End WithCaseMapping.

(** X24. Looking a command up depends on the normalized name only. On
    commands whose names and skill names are trimmed, two non-blank raw
    names with the same normalized form (lower case, runs of white space
    and underscores as one hyphen) find the same command; what is found is
    a command of the list whose name or skill name has that normalized
    form, and nothing is found only when no command has it. *)
Theorem X24_lookup_by_normalized_name `{CaseMapping} :
  ∀ (commands : list SkillCommandSpec.t) (rawName other : jsstring),
    Forall (λ c, trim (SkillCommandSpec.name c) = SkillCommandSpec.name c
                 ∧ trim (SkillCommandSpec.skillName c)
                   = SkillCommandSpec.skillName c) commands →
    trim rawName ≠ [] → trim other ≠ [] →
    normalizeForLookup rawName = normalizeForLookup other →
    findSkillCommand commands rawName = findSkillCommand commands other
    ∧ (∀ cmd, findSkillCommand commands rawName = Some cmd →
              In cmd commands
              ∧ (normalizeForLookup (SkillCommandSpec.name cmd)
                 = normalizeForLookup rawName
                 ∨ normalizeForLookup (SkillCommandSpec.skillName cmd)
                   = normalizeForLookup rawName))
    ∧ (findSkillCommand commands rawName = None →
       ∀ cmd, In cmd commands →
              normalizeForLookup (SkillCommandSpec.name cmd)
              ≠ normalizeForLookup rawName
              ∧ normalizeForLookup (SkillCommandSpec.skillName cmd)
                ≠ normalizeForLookup rawName).
Proof.
  intros commands rawName other Htrimmed Hraw Hother Hsame.
  rewrite !findSkillCommand_normalized by done. rewrite Hsame.
  split; [done|]. split.
  - intros cmd [Hin Htest]%List.find_some. split; [done|].
    unfold str_eqb in Htest. apply orb_true_iff in Htest as [Ht|Ht];
      apply bool_decide_eq_true in Ht; [by left|by right].
  - intros Hnone cmd Hin.
    pose proof (List.find_none _ _ Hnone cmd Hin) as Htest. cbv beta in Htest.
    unfold str_eqb in Htest. apply orb_false_iff in Htest as [Hn Hs].
    by apply bool_decide_eq_false in Hn, Hs.
Qed.

Lemma X24_lookup_by_normalized_name_witness :
  let commands :=
    buildSkillCommandSpecs (H:=JSFacts.ascii_case)
      [Examples.entry_named (str "Deploy Service")] in
  findSkillCommand (H:=JSFacts.ascii_case) commands (str "deploy-service")
  = findSkillCommand (H:=JSFacts.ascii_case) commands (str " DEPLOY_service ").
Proof.
  intros commands.
  refine (proj1 (X24_lookup_by_normalized_name (H:=JSFacts.ascii_case)
                   commands (str "deploy-service") (str " DEPLOY_service ")
                   _ _ _ _)).
  - vm_compute. repeat constructor.
  - vm_compute. discriminate.
  - vm_compute. discriminate.
  - vm_compute. reflexivity.
Defined.

End LookupFacts.

(** ** Built-in tools *)

Module BuiltinFacts.
Import Syntax Header Builtin FrontmatterFacts.

(** *** Searching and replacing *)

Lemma first_occurrence_eq (pat s : jsstring) :
  first_occurrence pat s
  = if startsWith pat s then Some ([], drop (length pat) s)
    else match s with
         | [] => None
         | c :: t =>
             '(before, after) ← first_occurrence pat t;
             Some (c :: before, after)
         end.
Proof. by destruct s. Qed.

Lemma startsWith_iff (pat s : jsstring) :
  startsWith pat s = true ↔ ∃ rest, s = pat ++ rest.
Proof.
  revert s. induction pat as [|a pat IH]; intros s.
  - split; [by exists s|done].
  - destruct s as [|b s]; cbn.
    + split; [done|by intros (rest & ?)].
    + rewrite andb_true_iff, N.eqb_eq, IH. split.
      * intros [-> (rest & ->)]. by exists rest.
      * intros (rest & [= -> ->]). eauto.
Qed.

Lemma startsWith_drop (pat s : jsstring) :
  startsWith pat s = true → s = pat ++ drop (length pat) s.
Proof.
  intros (rest & ->)%startsWith_iff. by rewrite drop_app_length.
Qed.

(** The first occurrence splits the text, and no occurrence starts
    earlier. *)
Lemma first_occurrence_Some (pat s before after : jsstring) :
  first_occurrence pat s = Some (before, after) →
  s = before ++ pat ++ after
  ∧ ∀ b a, s = b ++ pat ++ a → length before ≤ length b.
Proof.
  revert before. induction s as [|c s IH]; intros before;
    rewrite first_occurrence_eq.
  - destruct (startsWith pat []) eqn:Hs; [|done].
    intros [= <- <-]. split; [by apply startsWith_drop|]. intros; cbn; lia.
  - destruct (startsWith pat (c :: s)) eqn:Hs.
    + intros [= <- <-]. split; [by apply startsWith_drop|]. intros; cbn; lia.
    + destruct (first_occurrence pat s) as [[before' after']|] eqn:Hf; [|done].
      cbn. intros [= <- <-].
      destruct (IH before' eq_refl) as [-> Hfirst]. split; [done|].
      intros b a Hsplit. destruct b as [|c' b].
      * exfalso. cbn in Hsplit.
        assert (startsWith pat (c :: before' ++ pat ++ after') = true) as Hyes
          by (apply startsWith_iff; eauto).
        by rewrite Hyes in Hs.
      * injection Hsplit as <- Hsplit. cbn. apply le_n_S.
        by apply (Hfirst b a).
Qed.

Lemma first_occurrence_None (pat s : jsstring) :
  first_occurrence pat s = None → ∀ b a, s ≠ b ++ pat ++ a.
Proof.
  induction s as [|c s IH]; rewrite first_occurrence_eq.
  - destruct (startsWith pat []) eqn:Hs; [done|]. intros _ b a Hsplit.
    assert (startsWith pat [] = true) as Hyes; [|by rewrite Hyes in Hs].
    apply startsWith_iff. destruct b; [eauto|done].
  - destruct (startsWith pat (c :: s)) eqn:Hs; [done|].
    destruct (first_occurrence pat s) as [[before after]|] eqn:Hf; [done|].
    intros _ b a Hsplit. destruct b as [|c' b].
    + assert (startsWith pat (c :: s) = true) as Hyes
        by (apply startsWith_iff; eauto).
      by rewrite Hyes in Hs.
    + injection Hsplit as <- Hsplit. by apply (IH eq_refl b a).
Qed.

Lemma substitution_literal (matched before after template : jsstring) :
  includes 36%N template = false →
  substitution matched before after template = template.
Proof.
  induction template as [|c rest IH]; [done|].
  cbn [includes existsb]. intros [Hc Hrest]%orb_false_iff.
  cbn [substitution]. rewrite N.eqb_sym, Hc. f_equal. by apply IH.
Qed.

(** X26. The edit tool replaces the first occurrence. When the path passes
    the sandbox check and the file is read: if the old text does not occur,
    the tool answers that it was not found and writes nothing; otherwise it
    writes the content with the first occurrence replaced, and answers by
    what the write did. The replacement is the new text when that holds no
    dollar sign; a dollar sign followed by a dollar sign, an ampersand, a
    backquote or a quote is not taken literally. An empty old text occurs
    at the start. *)
Theorem X26_edit_replaces_the_first_occurrence {World : Type} `{Platform World} :
  ∀ (input : EditInput.t) (ctx : ToolContext) (world checked read : World)
    (filePath content : jsstring),
    assertSandboxPath (EditInput.file_path input) (workspaceDir ctx)
      (workspaceDir ctx) world = (Done filePath, checked) →
    fs_readFile filePath checked = (Done content, read) →
    let old := EditInput.old_string input in
    let new := EditInput.new_string input in
    (first_occurrence old content = None →
     (∀ b a, content ≠ b ++ old ++ a)
     ∧ editTool_execute input ctx world = (not_found_text, read))
    ∧ (∀ before after,
         first_occurrence old content = Some (before, after) →
         let written :=
           before ++ substitution old before after new ++ after in
         content = before ++ old ++ after
         ∧ (∀ b a, content = b ++ old ++ a → length before ≤ length b)
         ∧ editTool_execute input ctx world
           = match fs_writeFile filePath written read with
             | (Failed message, world) => (error_text message, world)
             | (Done _, world) =>
                 (edited_text (EditInput.file_path input), world)
             end
         ∧ (includes 36%N new = false → written = before ++ new ++ after))
    ∧ replace_first (str "a") (str "$&$&") (str "banana") = str "baanana"
    ∧ replace_first (str "x") (str "$$1") (str "x = 1") = str "$1 = 1"
    ∧ replace_first [] (str "> ") (str "text") = str "> text".
Proof.
  intros input ctx world checked read filePath content Hcheck Hread old new.
  split; [|split; [|by vm_compute]].
  - intros Hnone. split; [by apply first_occurrence_None|].
    unfold editTool_execute. rewrite Hcheck, Hread.
    unfold includes_text. fold old. by rewrite Hnone.
  - intros before after Hsome written.
    destruct (first_occurrence_Some _ _ _ _ Hsome) as [Hsplit Hfirst].
    split; [done|]. split; [done|]. split.
    + unfold editTool_execute. rewrite Hcheck, Hread.
      unfold includes_text, replace_first. fold old new.
      rewrite Hsome. done.
    + intros Hplain. subst written. by rewrite substitution_literal.
Qed.

Lemma X26_edit_replaces_the_first_occurrence_witness :
  editTool_execute
    (H:={| assertSandboxPath p _ _ w := (Done p, w);
           fs_readFile p (w : jsstring) := (Done w, w);
           fs_mkdir_recursive _ w := (Done tt, w);
           fs_writeFile _ text _ := (Done tt, text);
           path_dirname p := p |})
    {| EditInput.file_path := str "notes.md";
       EditInput.old_string := str "cat";
       EditInput.new_string := str "dog" |}
    {| workspaceDir := str "/work" |}
    (str "a cat and a cat")
  = (edited_text (str "notes.md"), str "a dog and a cat").
Proof.
  pose (platform := {| assertSandboxPath p _ _ (w : jsstring) := (Done p, w);
                       fs_readFile p (w : jsstring) := (Done w, w);
                       fs_mkdir_recursive _ w := (Done tt, w);
                       fs_writeFile _ text _ := (Done tt, text);
                       path_dirname p := p |}).
  destruct (X26_edit_replaces_the_first_occurrence (H:=platform)
              {| EditInput.file_path := str "notes.md";
                 EditInput.old_string := str "cat";
                 EditInput.new_string := str "dog" |}
              {| workspaceDir := str "/work" |}
              (str "a cat and a cat") (str "a cat and a cat")
              (str "a cat and a cat") (str "notes.md") (str "a cat and a cat")
              eq_refl eq_refl) as (_ & Hfound & _).
  destruct (Hfound (str "a ") (str " and a cat") eq_refl)
    as (_ & _ & Hrun & _).
  exact Hrun.
Defined.

(** *** Numbered lines *)

Lemma split_lines_no_feed (s : jsstring) :
  Forall (λ l, forallb no_feed l = true) (split_lines s).
Proof.
  induction s as [|c s IH]; [by repeat constructor|].
  cbn [split_lines]. destruct (N.eqb_spec c 10) as [->|Hc].
  - by constructor.
  - assert (no_feed c = true) as Hfeed
      by (unfold no_feed; by rewrite (proj2 (N.eqb_neq c 10))).
    destruct (split_lines s) as [|l ls].
    + repeat constructor. cbn. by rewrite Hfeed.
    + apply Forall_cons in IH as [Hl Hls]. constructor; [|done].
      cbn. by rewrite Hfeed, Hl.
Qed.

Lemma split_lines_join_feed (lines : list jsstring) :
  lines ≠ [] → Forall (λ l, forallb no_feed l = true) lines →
  split_lines (join [10%N] lines) = lines.
Proof.
  intros Hne Hlines. induction Hlines as [|l ls Hl Hls IH]; [done|].
  destruct ls as [|l2 ls]; [by apply split_lines_one|].
  rewrite join_cons.
  change ([10%N] ++ join [10%N] (l2 :: ls))
    with (10%N :: join [10%N] (l2 :: ls)).
  rewrite split_lines_feed by done. by rewrite IH.
Qed.

Lemma decimal_no_feed (n : N) : forallb no_feed (decimal n) = true.
Proof.
  apply forallb_forall. intros c Hc%list_elem_of_In.
  pose proof (proj1 (Forall_forall _ _) (AsciiFacts.decimal_digits n) c Hc)
    as Hd. cbv beta in Hd. unfold no_feed.
  rewrite (proj2 (N.eqb_neq c 10)); [done|lia].
Qed.

Lemma numbered_no_feed (lines : list jsstring) :
  Forall (λ l, forallb no_feed l = true) lines →
  ∀ k, Forall (λ l, forallb no_feed l = true)
         (imap (λ i, numbered (k + i)) lines).
Proof.
  induction 1 as [|l ls Hl _ IH]; intros k; [constructor|].
  cbn [imap]. constructor.
  - unfold numbered. rewrite !forallb_app, decimal_no_feed, Hl. done.
  - rewrite (imap_ext _ (λ i, numbered (S k + i))); [apply IH|].
    intros i x _. cbn. f_equal. lia.
Qed.

Lemma slice_to_prefix {A : Type} (e : integer_or_infinity) (xs : list A) :
  slice_to e xs `prefix_of` xs.
Proof.
  destruct e as [|z|]; cbn; [apply prefix_nil| |done].
  destruct (z <? 0)%Z; apply prefix_take.
Qed.

Lemma Forall_prefix {A : Type} (P : A → Prop) (l k : list A) :
  l `prefix_of` k → Forall P k → Forall P l.
Proof. intros [rest ->] [? _]%Forall_app. done. Qed.

(** X25. The read tool numbers the first lines. When the path passes the
    sandbox check and the file is read, the answer is the first lines of
    the file, each after its number (from 1) and a tab, joined by line
    feeds, so that splitting the answer at line feeds gives the numbered
    lines back. Without a limit there are at most 500 lines; a limit that
    is not negative is the greatest number of lines; a negative limit drops
    that many lines from the end. *)
Theorem X25_read_numbers_the_first_lines {World : Type} `{Platform World} :
  ∀ (input : ReadInput.t) (ctx : ToolContext) (world checked read : World)
    (filePath content : jsstring),
    assertSandboxPath (ReadInput.file_path input) (workspaceDir ctx)
      (workspaceDir ctx) world = (Done filePath, checked) →
    fs_readFile filePath checked = (Done content, read) →
    ∃ lines,
      readTool_execute input ctx world = (join [10%N] (imap numbered lines), read)
      ∧ lines `prefix_of` split_lines content
      ∧ (lines ≠ [] →
         split_lines (join [10%N] (imap numbered lines)) = imap numbered lines)
      ∧ (∀ k line, lines !! k = Some line →
                   imap numbered lines !! k
                   = Some (decimal (N.of_nat (k + 1)) ++ [9%N] ++ line))
      ∧ (ReadInput.limit input = None →
         length lines = Nat.min 500 (length (split_lines content)))
      ∧ (∀ n, ReadInput.limit input = Some (Finite n) → (0 ≤ n)%Z →
              length lines
              = Nat.min (Z.to_nat n) (length (split_lines content)))
      ∧ (∀ n, ReadInput.limit input = Some (Finite n) → (n < 0)%Z →
              length lines
              = length (split_lines content) - Z.to_nat (- n)).
Proof.
  intros input ctx world checked read filePath content Hcheck Hread.
  set (lines := slice_to (default (Finite 500) (ReadInput.limit input))
                  (split_lines content)).
  exists lines. split.
  { unfold readTool_execute. by rewrite Hcheck, Hread. }
  split; [apply slice_to_prefix|]. split.
  { intros Hne. apply split_lines_join_feed.
    - intros Hnil. apply Hne. apply (f_equal length) in Hnil.
      rewrite length_imap in Hnil. by apply nil_length_inv.
    - apply (numbered_no_feed _
               (Forall_prefix _ _ _ (slice_to_prefix _ _)
                  (split_lines_no_feed content)) 0). }
  split.
  { intros k line Hk. apply list_lookup_imap_Some. by exists line. }
  subst lines. split.
  { intros ->. cbn. by rewrite length_take. }
  split.
  - intros n -> Hn. cbn. rewrite (proj2 (Z.ltb_ge n 0)) by done.
    by rewrite length_take.
  - intros n -> Hn. cbn. rewrite (proj2 (Z.ltb_lt n 0)) by done.
    rewrite length_take. lia.
Qed.

Lemma X25_read_numbers_the_first_lines_witness :
  ∃ lines,
    readTool_execute
      (H:={| assertSandboxPath p _ _ w := (Done p, w);
             fs_readFile p (w : jsstring) := (Done w, w);
             fs_mkdir_recursive _ w := (Done tt, w);
             fs_writeFile _ text _ := (Done tt, text);
             path_dirname p := p |})
      {| ReadInput.file_path := str "notes.md";
         ReadInput.limit := Some (Finite 2) |}
      {| workspaceDir := str "/work" |}
      [97; 10; 98; 10; 99]%N
    = (join [10%N] (imap numbered lines), [97; 10; 98; 10; 99]%N)
    ∧ length lines = 2.
Proof.
  pose (platform := {| assertSandboxPath p _ _ (w : jsstring) := (Done p, w);
                       fs_readFile p (w : jsstring) := (Done w, w);
                       fs_mkdir_recursive _ w := (Done tt, w);
                       fs_writeFile _ text _ := (Done tt, text);
                       path_dirname p := p |}).
  destruct (X25_read_numbers_the_first_lines (H:=platform)
              {| ReadInput.file_path := str "notes.md";
                 ReadInput.limit := Some (Finite 2) |}
              {| workspaceDir := str "/work" |}
              [97; 10; 98; 10; 99]%N [97; 10; 98; 10; 99]%N
              [97; 10; 98; 10; 99]%N (str "notes.md") [97; 10; 98; 10; 99]%N
              eq_refl eq_refl)
    as (lines & Hrun & _ & _ & _ & _ & Hlen & _).
  exists lines. split; [exact Hrun|].
  exact (Hlen 2%Z eq_refl ltac:(lia)).
Defined.

(** *** Rejected paths *)

(** X27. A rejected path stops the file tools: when the sandbox check
    throws, the read, the write and the edit tool answer with the message
    of the error and call nothing else: the world is as the check left
    it. *)
Theorem X27_file_tools_stop_at_a_rejected_path {World : Type} `{Platform World} :
  ∀ (ctx : ToolContext) (world rejected : World) (path message : jsstring),
    assertSandboxPath path (workspaceDir ctx) (workspaceDir ctx) world
    = (Failed message, rejected) →
    (∀ limit,
       readTool_execute
         {| ReadInput.file_path := path; ReadInput.limit := limit |} ctx world
       = (error_text message, rejected))
    ∧ (∀ content,
         writeTool_execute
           {| WriteInput.file_path := path; WriteInput.content := content |}
           ctx world
         = (error_text message, rejected))
    ∧ (∀ old new,
         editTool_execute
           {| EditInput.file_path := path; EditInput.old_string := old;
              EditInput.new_string := new |} ctx world
         = (error_text message, rejected)).
Proof.
  intros ctx world rejected path message Hcheck.
  unfold readTool_execute, writeTool_execute, editTool_execute.
  cbn [ReadInput.file_path WriteInput.file_path EditInput.file_path].
  by rewrite Hcheck.
Qed.

(** *** Output of processes *)

Lemma length_take_le {A : Type} (n : nat) (l : list A) : length (take n l) ≤ n.
Proof. rewrite length_take. lia. Qed.


Lemma X27_file_tools_stop_at_a_rejected_path_witness :
  writeTool_execute
    (H:={| assertSandboxPath p _ _ (w : jsstring) :=
             (Failed (str "outside the sandbox"), w);
           fs_readFile p (w : jsstring) := (Done w, w);
           fs_mkdir_recursive _ w := (Done tt, w);
           fs_writeFile _ text _ := (Done tt, text);
           path_dirname p := p |})
    {| WriteInput.file_path := str "../etc/passwd";
       WriteInput.content := str "x" |}
    {| workspaceDir := str "/work" |}
    (str "the world as it was")
  = (error_text (str "outside the sandbox"), str "the world as it was").
Proof.
  pose (platform := {| assertSandboxPath p _ _ (w : jsstring) :=
                         (Failed (str "outside the sandbox"), w);
                       fs_readFile p (w : jsstring) := (Done w, w);
                       fs_mkdir_recursive _ w := (Done tt, w);
                       fs_writeFile _ text _ := (Done tt, text);
                       path_dirname p := p |}).
  exact (proj1 (proj2 (X27_file_tools_stop_at_a_rejected_path (H:=platform)
                         {| workspaceDir := str "/work" |}
                         (str "the world as it was")
                         (str "the world as it was")
                         (str "../etc/passwd") (str "outside the sandbox")
                         eq_refl)) (str "x")).
Defined.

Lemma ripgrep_output_none (limit : Z) (stdout : jsstring) :
  (0 ≤ limit)%Z →
  List.filter (λ line, negb (bool_decide (trim line = [])))
    (split_lines stdout) = [] →
  ripgrep_output limit stdout = [].
Proof.
  intros Hlimit Hnone. unfold ripgrep_output. rewrite Hnone. cbn [length].
  rewrite (proj2 (Z.ltb_ge limit (Z.of_nat 0))) by lia.
  cbn. rewrite (proj2 (Z.ltb_ge (Z.max 1 limit) 0)) by lia.
  by rewrite take_nil.
Qed.

(** X29. What the search answers. A process that closes with the exit code
    0 or 1, or without one, resolves with the output; any other exit code
    rejects with the trimmed standard error, or with the exit code when
    that is blank. The output has at most 30000 units and the note that it
    was cut; when it was not cut, it is the first non-blank lines of the
    standard output, as many as the limit (at least one), then the note
    that matches were left out when there are more than the limit. Without
    a non-blank line the grep tool answers that nothing was found; a
    timeout is answered as an error. *)
Theorem X29_grep_output :
  ∀ (limit : Z) (code : option Z) (stdout stderr : jsstring),
    let lines :=
      List.filter (λ line, negb (bool_decide (trim line = [])))
        (split_lines stdout) in
    let output := ripgrep_output limit stdout in
    (code = None ∨ code = Some 0%Z ∨ code = Some 1%Z →
     ripgrep_close limit code stdout stderr = Done output)
    ∧ (∀ c, code = Some c → c ≠ 0%Z → c ≠ 1%Z →
            ripgrep_close limit code stdout stderr
            = Failed (match trim stderr with
                      | [] => str "rg exited with code " ++ decimal_Z c
                      | u :: t => u :: t
                      end))
    ∧ length output ≤ OUTPUT_MAX + length output_cut_text
    ∧ (length output ≤ OUTPUT_MAX →
       ∃ shown,
         shown `prefix_of` lines
         ∧ length shown = Nat.min (Z.to_nat (Z.max 1 limit)) (length lines)
         ∧ output
           = join [10%N] shown
             ++ (if (limit <? Z.of_nat (length lines))%Z
                 then matches_cut_text limit else []))
    ∧ (lines = [] →
       ∀ checked,
         grepTool_finish (Done checked) (Closed None stdout stderr)
         = no_match_text
         ∧ grepTool_finish (Done checked) (Closed (Some 1%Z) stdout stderr)
           = no_match_text)
    ∧ (∀ checked,
         grepTool_finish (Done checked) TimedOut
         = error_text timeout_message).
Proof.
  intros limit code stdout stderr lines output.
  split; [|split; [|split; [|split; [|split]]]].
  - intros [ -> | [ -> | -> ] ]; done.
  - intros c -> Hc0 Hc1. unfold ripgrep_close.
    rewrite (proj2 (Z.eqb_neq c 0)), (proj2 (Z.eqb_neq c 1)) by done.
    cbn [negb andb or_else]. by destruct (trim stderr).
  - subst output. unfold ripgrep_output. fold lines.
    set (body := if (limit <? Z.of_nat (length lines))%Z then _ else _).
    destruct (Nat.ltb_spec OUTPUT_MAX (length body)) as [Hlong|Hshort];
      [|lia].
    rewrite length_app. pose proof (length_take_le OUTPUT_MAX body). lia.
  - subst output. unfold ripgrep_output. fold lines.
    set (body := if (limit <? Z.of_nat (length lines))%Z then _ else _).
    destruct (Nat.ltb_spec OUTPUT_MAX (length body)) as [Hlong|Hshort].
    + intros Hle. exfalso. rewrite length_app, length_take in Hle.
      assert (0 < length output_cut_text) by (cbn; lia). lia.
    + intros _. exists (slice_to (Finite (Z.max 1 limit)) lines).
      split; [apply slice_to_prefix|]. split.
      * cbn. rewrite (proj2 (Z.ltb_ge (Z.max 1 limit) 0)) by lia.
        by rewrite length_take.
      * subst body. destruct (limit <? Z.of_nat (length lines))%Z; [done|].
        by rewrite app_nil_r.
  - intros Hnone checked. unfold grepTool_finish, runRipgrep, ripgrep_close.
    cbn [Z.eqb negb andb].
    by rewrite (ripgrep_output_none 100 stdout ltac:(lia) Hnone).
  - done.
Qed.

End BuiltinFacts.
